(** * Banana Zoom (src/Home.tsx): selection geometry, history and animations

    A shallow embedding of the parts of [Home.tsx] that carry the zoom
    pipeline: the rectangle arithmetic of [ImageDisplay], the describe and
    enhance service wrappers, the React state of [Home] with its event
    handlers, the [PixelDissolve] animation and the frame synthesis of
    [generateZoomGif].

    Conventions of the embedding.
    - A JavaScript [number] is an exact rational ([Q]); comparisons are the
      decidable comparisons of [Q], equalities between numbers are stated
      with [==], and [a / 0] is [0] in [Q] where JavaScript yields
      [Infinity] or [NaN].  Coordinates and sizes that stay real-valued are
      kept exact.  Where the code turns a computed number into an integer
      with [Math.round] (the heights of its canvases), one unit in the last
      place decides which integer comes out, so the operand is computed as
      the code computes it: on IEEE doubles, every operation rounded to the
      nearest double ([float64]).
    - An image source (an object URL or a data URL) is a term of [Src] that
      records how the bitmap was produced.
    - A React state cell is a field of the record [Home.State]; an event handler
      reads the cells of the render it was created in and returns the state
      after its updates.  Asynchronous continuations run in program order;
      the load started by [loadInitialImage] settles as an event of its
      own, at any later point of a session.
    - The browser (window size, 2D contexts, image decoding) and the
      responses of the remote model are explicit arguments. *)

From Stdlib Require Import QArith Qminmax Qround Qabs Qpower Lqa ZArith Lia String.
From stdpp Require Import base list.

Local Open Scope Q_scope.

(** ** JavaScript numbers *)

Definition Math_round (q : Q) : Q := inject_Z (Qfloor (q + (1 # 2))).
Definition Math_max (a b : Q) : Q := Qmax a b.
Definition Math_min (a b : Q) : Q := Qmin a b.
Definition Math_pow3 (q : Q) : Q := q * q * q.

(** *** IEEE doubles *)

(** The exponent [e] with [2^e <= q < 2^(e+1)], for [0 < q]. *)
Definition binade (q : Q) : Z :=
  let e := (Z.log2 (Qnum q) - Z.log2 (Zpos (Qden q)))%Z in
  if Qle_bool (2 ^ e) q then e else (e - 1)%Z.

(** The nearest integer, the even one of two that are equally near. *)
Definition round_ties_even (q : Q) : Z :=
  let f := Qfloor q in
  match Qcompare (q - inject_Z f) (1 # 2) with
  | Lt => f
  | Gt => (f + 1)%Z
  | Eq => if Z.even f then f else (f + 1)%Z
  end.

(** The double nearest to [q], ties to even: 53 significant bits, the
    spacing of the subnormal numbers below [2^-1022].  (Magnitudes from
    [2^1024] on, which become [Infinity], are outside the embedding.) *)
Definition float64 (q : Q) : Q :=
  match Qnum q with
  | Z0 => 0
  | _ =>
      let e := Z.max (binade (Qabs q)) (-1022) in
      let ulp := 2 ^ (e - 52) in
      inject_Z (round_ties_even (q / ulp)) * ulp
  end.

(** The four operations on doubles: the exact result, rounded. *)
Definition double_add (a b : Q) : Q := float64 (a + b).
Definition double_sub (a b : Q) : Q := float64 (a - b).
Definition double_mul (a b : Q) : Q := float64 (a * b).
Definition double_div (a b : Q) : Q := float64 (a / b).

(** [a < b] as a test. *)
Definition lt_dec (a b : Q) : {a < b} + {b <= a} := Qlt_le_dec a b.
(** [a > b] as a test. *)
Definition gt_dec (a b : Q) : {b < a} + {a <= b} := Qlt_le_dec b a.

(** Number of iterations of [for (let f = 0; f < n; f++)]. *)
Definition loop_count (n : Q) : nat := Z.to_nat (Qceiling n).

(** [Array.prototype.slice(start, end)] with its relative indices. *)
Definition relative_index (len : nat) (k : Z) : nat :=
  if (k <? 0)%Z then Z.to_nat (Z.max (Z.of_nat len + k) 0)
  else Nat.min (Z.to_nat k) len.

Definition slice {A} (l : list A) (start stop : Z) : list A :=
  let from := relative_index (length l) start in
  let to := relative_index (length l) stop in
  take (to - from) (drop from l).

(** [l[i]] for a numeric index: [undefined] outside the array. *)
Definition at_index {A} (l : list A) (i : Z) : option A :=
  if (i <? 0)%Z then None else l !! Z.to_nat i.

(** ** Type definitions *)

Inductive AppState := IDLE | LOADING | LOADED | SELECTING | ENHANCING | ENHANCED.

Record Rect := mkRect { x : Q; y : Q; w : Q; h : Q }.

Record ImageDescription := mkDescription {
  selectionDescription : string;
  prompt : option string
}.

(** Image sources.  [ObjectUrl] is an uploaded or fetched picture,
    [EmptyUrl] the empty string, [CropPng] the PNG of the canvas filled by
    [cropImage], [CanvasPng] the PNG of the display canvas showing a picture
    with a selection outline stroked on it, [InlineData] the data URL built
    from a part of a model response. *)
Inductive Src :=
| ObjectUrl (blob : nat)
| EmptyUrl
| CropPng (image : Src) (cropRect : Rect) (targetWidth targetHeight : Q)
          (pixelated : bool)
| CanvasPng (shown : Src) (outline : Rect)
| InlineData (mimeType data : string).

Record HTMLImageElement := mkImage {
  src : Src;
  naturalWidth : Q;
  naturalHeight : Q
}.

Record HistoryStep := mkStep {
  imageSrc : Src;
  description : option ImageDescription;
  originalRect : option Rect
}.

(** The browser as the code observes it. *)
Record Browser := mkBrowser {
  innerWidth : Q;
  innerHeight : Q;
  (** whether [canvas.getContext('2d')] yields a context *)
  context2d : bool;
  (** assigning [img.src]: [Some (naturalWidth, naturalHeight)] fires
      [onload], [None] fires [onerror] *)
  decode : Src -> option (Q * Q);
  (** [JSON.parse(text) as ImageDescription]; [None] when it throws *)
  JSON_parse : string -> option ImageDescription;
  (** the capture group of the fenced json block of a text, if it has one *)
  match_fence : string -> option string;
  (** [String.prototype.trim] *)
  trim : string -> string
}.

(** A string used as a condition. *)
Definition truthy (s : option Src) : bool :=
  match s with
  | None | Some EmptyUrl => false
  | Some _ => true
  end.

(** Whether a source carries bytes produced by the remote model. *)
Fixpoint has_model_content (s : Src) : bool :=
  match s with
  | ObjectUrl _ | EmptyUrl => false
  | CropPng image _ _ _ _ => has_model_content image
  | CanvasPng shown _ => has_model_content shown
  | InlineData _ _ => true
  end.

(** ** Utility functions *)

Definition cropImage (env : Browser) (image : HTMLImageElement) (cropRect : Rect)
    (targetWidth targetHeight : Q) (pixelated : bool) : Src :=
  if context2d env
  then CropPng (src image) cropRect targetWidth targetHeight pixelated
  else EmptyUrl.

(** [new Image(); img.src = s] awaited through [onload] / [onerror]. *)
Definition loadImage (env : Browser) (s : Src) : option HTMLImageElement :=
  match decode env s with
  | Some (nw, nh) => Some (mkImage s nw nh)
  | None => None
  end.

Definition fallbackDescription : ImageDescription :=
  mkDescription "user selected a region to enhance" None.

(** What [ai.models.generateContent] did for the describe request: the
    promise rejected, or it resolved with [response.text]. *)
Inductive DescribeResponse :=
| DescribeRejected
| DescribeText (text : option string).

(** [imageDataUrl.split(',')[1]] is non-empty. *)
Definition has_base64 (s : Src) : bool :=
  match s with
  | EmptyUrl | ObjectUrl _ => false
  | _ => true
  end.

Definition extractJson (env : Browser) (text : string) : option ImageDescription :=
  match JSON_parse env text with
  | Some data => Some data
  | None =>
      match match_fence env text with
      | None => None
      | Some inner => JSON_parse env inner
      end
  end.

Definition serviceDescribeImage (env : Browser) (imageDataUrl : Src)
    (descriptions : list ImageDescription) (response : DescribeResponse)
    : ImageDescription :=
  if negb (has_base64 imageDataUrl) then fallbackDescription
  else
    match response with
    | DescribeRejected => fallbackDescription
    | DescribeText None => fallbackDescription
    | DescribeText (Some t) =>
        if String.eqb (trim env t) "" then fallbackDescription
        else
          match extractJson env (trim env t) with
          | None => fallbackDescription
          | Some data => data
          end
    end.

(** The response of the image model, as far as [serviceEnhance] reads it. *)
Record Part := mkPart { inlineData : option (string * string) }.
Record Content := mkContent { parts : option (list Part) }.
Record Candidate := mkCandidate { content : option Content }.

Inductive GenerateContentResponse :=
| Rejected
| Resolved (blockReason : option string) (candidates : option (list Candidate))
           (text : option string).

(** The body of the [try] block of [serviceEnhance]: [None] is a thrown
    [Error]. *)
Definition enhance_try (croppedImageDataUrl : Src)
    (response : GenerateContentResponse) : option Src :=
  match response with
  | Rejected => None
  | Resolved (Some _) _ _ => None
  | Resolved None None _ => None
  | Resolved None (Some []) _ => None
  | Resolved None (Some (c :: _)) _ =>
      match content c with
      | None => None
      | Some contents =>
          match parts contents with
          | None => None
          | Some ps =>
              Some (fold_left
                      (fun imageSrc part =>
                         match inlineData part with
                         | Some (mime, imageData) => InlineData mime imageData
                         | None => imageSrc
                         end)
                      ps croppedImageDataUrl)
          end
      end
  end.

Definition serviceEnhance (croppedImageDataUrl : Src) (history : list string)
    (response : GenerateContentResponse) : Src :=
  match history with
  | [] => croppedImageDataUrl
  | _ =>
      match enhance_try croppedImageDataUrl response with
      | Some imageSrc => imageSrc
      | None => croppedImageDataUrl
      end
  end.

(** The enhance call throws, is blocked, or returns no candidates. *)
Definition enhance_fails (response : GenerateContentResponse) : Prop :=
  match response with
  | Rejected => True
  | Resolved (Some _) _ _ => True
  | Resolved None None _ => True
  | Resolved None (Some []) _ => True
  | Resolved None (Some (_ :: _)) _ => False
  end.

(** ** Easing and interpolation *)

Definition easeInOutCubic (t : Q) : Q :=
  if lt_dec t (1 # 2) then 4 * t * t * t
  else 1 - Math_pow3 (-2 * t + 2) / 2.

(** On exact numbers the result at [t = 1] is [stop]; the doubles of the
    code reach it up to rounding only. *)
Definition interpolateRect (start stop : Rect) (t : Q) : Rect :=
  {| x := x start + (x stop - x start) * t;
     y := y start + (y stop - y start) * t;
     w := w start + (w stop - w start) * t;
     h := h start + (h stop - h start) * t |}.

(** ** Zoom sequence ([generateZoomGif]) *)

Inductive Outcome (A : Type) :=
| Ok (a : A)
| Throw (message : string).
Arguments Ok {A} a.
Arguments Throw {A} message.

(** A frame handed to [addFrameToGif]: what was drawn on the canvas. *)
Inductive Frame :=
| ZoomFrame (image : HTMLImageElement) (currentRect rectOnCanvas : Rect)
            (width height delay : Q)
| HoldFrame (image : HTMLImageElement) (width height delay : Q).

Definition fps : Q := 30.
Definition zoomDuration : Q := 1.
Definition holdDuration : Q := 1 # 2.
Definition zoomFrames : Q := zoomDuration * fps.
Definition holdFrames : Q := holdDuration * fps.
Definition frameDelay : Q := 1000 / fps.
Definition gifWidth : Q := 512.

Definition zoom_frame (gifHeight : Q) (sourceImageForZoom : HTMLImageElement)
    (startRect endRect : Rect) (f : nat) : Frame :=
  let t := easeInOutCubic (inject_Z (Z.of_nat f) / zoomFrames) in
  let currentRect := interpolateRect startRect endRect t in
  let scaleX := gifWidth / w currentRect in
  let scaleY := gifHeight / h currentRect in
  let rectOnCanvas :=
    {| x := (x endRect - x currentRect) * scaleX;
       y := (y endRect - y currentRect) * scaleY;
       w := w endRect * scaleX;
       h := h endRect * scaleY |} in
  ZoomFrame sourceImageForZoom currentRect rectOnCanvas gifWidth gifHeight frameDelay.

(** One turn of the loop over [i]. *)
Definition pair_frames (gifHeight : Q) (images : list HTMLImageElement)
    (history : list HistoryStep) (i : nat) : list Frame :=
  match images !! i, images !! S i, history !! S i with
  | Some sourceImageForZoom, Some nextEnhancedImage, Some step =>
      let startRect :=
        {| x := 0; y := 0;
           w := naturalWidth sourceImageForZoom;
           h := naturalHeight sourceImageForZoom |} in
      match originalRect step with
      | None => []
      | Some endRect =>
          map (zoom_frame gifHeight sourceImageForZoom startRect endRect)
              (seq 0 (loop_count zoomFrames))
          ++ map (fun _ => HoldFrame nextEnhancedImage gifWidth gifHeight frameDelay)
                 (seq 0 (loop_count holdFrames))
      end
  | _, _, _ => []
  end.

Definition generateZoomGif (env : Browser) (history : list HistoryStep)
    : Outcome (list Frame) :=
  if (length history <? 2)%nat
  then Throw "History must contain at least two steps to generate a GIF."
  else
    match mapM (fun step => loadImage env (imageSrc step)) history with
    | None => Throw "image failed to load"
    | Some images =>
        match history !! 1%nat ≫= originalRect with
        | None => Throw "The second history step must have a selection rectangle."
        | Some firstSelectionRect =>
            let gifAspectRatio :=
              double_div (float64 (h firstSelectionRect))
                         (float64 (w firstSelectionRect)) in
            let gifHeight := Math_round (double_mul gifWidth gifAspectRatio) in
            if negb (context2d env) then Throw "Could not get canvas context"
            else
              Ok (flat_map (pair_frames gifHeight images history)
                           (seq 0 (length images - 1)))
        end
    end.

(** ** Selections and jobs *)

Module Staged.
Record t := mk {
  originalRect : Rect;
  screenRect : Rect;
  canvasDataUrl : Src
}.
End Staged.

Module Job.
Record t := mk {
  originalRect : Rect;
  canvasWithSelectionDataUrl : Src;
  pixelatedSrc : Src;
  screenRect : Rect
}.
End Job.

(** ** The [ImageDisplay] component *)

Module ImageDisplay.

Record Props := mkProps {
  isEnhancing : bool;
  useFixedSelectionBox : bool;
  fixedSelectionSizePercentage : Q
}.

Record State := mkState {
  image : option HTMLImageElement;
  selection : option Rect;
  startPoint : option (Q * Q)
}.

Record CanvasScale := mkScale {
  scale : Q;
  offsetX : Q;
  offsetY : Q;
  dWidth : Q;
  dHeight : Q
}.

(** [canvas] is the size of the bounding client rectangle of the canvas,
    [None] when [canvasRef.current] is null. *)
Definition getCanvasScale (canvas : option (Q * Q))
    (image : option HTMLImageElement) : CanvasScale :=
  match canvas, image with
  | Some (canvasWidth, canvasHeight), Some img =>
      let canvasAspect := canvasWidth / canvasHeight in
      let imageAspect := naturalWidth img / naturalHeight img in
      let '(dWidth, dHeight) :=
        if gt_dec canvasAspect imageAspect
        then (canvasHeight * imageAspect, canvasHeight)
        else (canvasWidth, canvasWidth / imageAspect) in
      let offsetX := (canvasWidth - dWidth) / 2 in
      let offsetY := (canvasHeight - dHeight) / 2 in
      let scale := dWidth / naturalWidth img in
      mkScale scale offsetX offsetY dWidth dHeight
  | _, _ => mkScale 1 0 0 0 0
  end.

(** The four guarded assignments to [originalX] and [originalY] of
    [handleMouseDown], on the box centred at the click. *)
Definition clampBoxToBounds (box : Rect) (boundsW boundsH : Q) : Rect :=
  let originalX := x box in
  let originalY := y box in
  let boxWidth := w box in
  let boxHeight := h box in
  let originalX := if lt_dec originalX 0 then 0 else originalX in
  let originalY := if lt_dec originalY 0 then 0 else originalY in
  let originalX :=
    if gt_dec (originalX + boxWidth) boundsW then boundsW - boxWidth
    else originalX in
  let originalY :=
    if gt_dec (originalY + boxHeight) boundsH then boundsH - boxHeight
    else originalY in
  {| x := originalX; y := originalY; w := boxWidth; h := boxHeight |}.

(** The fixed-size box staged by a click at [pos], when the click falls on
    the picture. *)
Definition fixedBox (props : Props) (cs : CanvasScale) (img : HTMLImageElement)
    (pos : Q * Q) : Rect :=
  let originalClickX := (fst pos - offsetX cs) / scale cs in
  let originalClickY := (snd pos - offsetY cs) / scale cs in
  let boxWidth := naturalWidth img * fixedSelectionSizePercentage props in
  let boxHeight := naturalHeight img * fixedSelectionSizePercentage props in
  clampBoxToBounds
    {| x := originalClickX - boxWidth / 2;
       y := originalClickY - boxHeight / 2;
       w := boxWidth; h := boxHeight |}
    (naturalWidth img) (naturalHeight img).

(** Each handler returns the component state and the arguments of the
    [onStageSelection] call it made, if any. *)
Definition handleMouseDown (env : Browser) (props : Props)
    (canvas : option (Q * Q)) (pos : Q * Q) (st : State)
    : State * option Staged.t :=
  if isEnhancing props then (st, None)
  else if useFixedSelectionBox props then
    match image st, canvas with
    | Some img, Some _ =>
        if negb (context2d env) then (st, None)
        else
          let cs := getCanvasScale canvas (image st) in
          if lt_dec (fst pos) (offsetX cs)
          then (st, None)
          else if gt_dec (fst pos) (offsetX cs + dWidth cs)
          then (st, None)
          else if lt_dec (snd pos) (offsetY cs)
          then (st, None)
          else if gt_dec (snd pos) (offsetY cs + dHeight cs)
          then (st, None)
          else
            let originalRect := fixedBox props cs img pos in
            let screenRect :=
              {| x := x originalRect * scale cs + offsetX cs;
                 y := y originalRect * scale cs + offsetY cs;
                 w := w originalRect * scale cs;
                 h := h originalRect * scale cs |} in
            let canvasDataUrl := CanvasPng (src img) screenRect in
            (st, Some (Staged.mk originalRect screenRect canvasDataUrl))
    | _, _ => (st, None)
    end
  else
    (mkState (image st)
             (Some {| x := fst pos; y := snd pos; w := 0; h := 0 |})
             (Some pos),
     None).


Definition handleMouseUp (props : Props) (canvas : option (Q * Q)) (st : State)
    : State * option Staged.t :=
  if useFixedSelectionBox props then (st, None)
  else
    let discard := (mkState (image st) None None, None) in
    match selection st, image st with
    | Some sel, Some img =>
        if lt_dec (w sel) 10 then discard
        else if lt_dec (h sel) 10 then discard
        else if isEnhancing props then discard
        else
          match canvas with
          | None => (st, None)
          | Some _ =>
              let cs := getCanvasScale canvas (image st) in
              let originalRect :=
                {| x := (x sel - offsetX cs) / scale cs;
                   y := (y sel - offsetY cs) / scale cs;
                   w := w sel / scale cs;
                   h := h sel / scale cs |} in
              let canvasDataUrl := CanvasPng (src img) sel in
              (mkState (image st) None None,
               Some (Staged.mk originalRect sel canvasDataUrl))
          end
    | _, _ => discard
    end.

End ImageDisplay.

(** ** The [PixelDissolve] component *)

Module PixelDissolve.

(** An array of numbers; [None] is an element that is [undefined]. *)
Definition js_get (a : list (option nat)) (i : nat) : option nat :=
  match a !! i with
  | Some v => v
  | None => None
  end.

(** [a[i] = v]: past the end the array grows, with holes before [i]. *)
Definition js_set (a : list (option nat)) (i : nat) (v : option nat)
    : list (option nat) :=
  if (i <? length a)%nat then <[i := v]> a
  else a ++ replicate (i - length a) None ++ [v].

(** [[a[i], a[j]] = [a[j], a[i]]] *)
Definition swap (a : list (option nat)) (i j : nat) : list (option nat) :=
  let aj := js_get a j in
  let ai := js_get a i in
  js_set (js_set a i aj) j ai.

Section Animation.
(** The successive results of [Math.random()]. *)
Variable random : nat -> Q.
(** Whether [canvasRef.current] is set at the n-th animation frame. *)
Variable mounted : nat -> bool.

(** The loop [for (let i = length - 1; i > 0; i--)], entered at [i]
    with [call] numbers already drawn. *)
Fixpoint shuffle_from (i call : nat) (pixelIndices : list (option nat))
    : list (option nat) :=
  match i with
  | O => pixelIndices
  | S i' =>
      let j := Z.to_nat (Qfloor (random call * (inject_Z (Z.of_nat i) + 1))) in
      shuffle_from i' (S call) (swap pixelIndices i j)
  end.

(** [Array.from({ length: totalPixels }, (_, i) => i)], then the loop. *)
Definition shuffle (totalPixels : nat) : list (option nat) :=
  shuffle_from (totalPixels - 1) 0 (map Some (seq 0 totalPixels)).

Definition pixelsPerFrame (totalPixels : nat) : nat :=
  Nat.max 1 (Z.to_nat (Qceiling (inject_Z (Z.of_nat totalPixels) / 60))).

Record Anim := mkAnim {
  (** [lowData.data], the working buffer *)
  lowData : list Byte.byte;
  (** what the last [putImageData] drew on the canvas *)
  shown : list Byte.byte;
  currentPixel : nat;
  (** how often [onComplete] was called *)
  completed : nat
}.

(** [lowData.data[k] = highData.data[k]], for [k] inside both arrays as the
    length tests of the caller ensure. *)
Definition copy_channel (highData : list Byte.byte) (k : nat)
    (low : list Byte.byte) : list Byte.byte :=
  match highData !! k with
  | Some v => <[k := v]> low
  | None => low
  end.

(** The body of the inner loop for the entry [pixelIndices[i]]; an
    [undefined] entry makes [pIndex] not a number, and both length tests
    fail. *)
Definition reveal (highData : list Byte.byte) (pixelIndices : list (option nat))
    (low : list Byte.byte) (i : nat) : list Byte.byte :=
  match js_get pixelIndices i with
  | None => low
  | Some p =>
      let pIndex := (p * 4)%nat in
      if ((pIndex + 3 <? length low) && (pIndex + 3 <? length highData))%nat
      then copy_channel highData (pIndex + 3)
             (copy_channel highData (pIndex + 2)
                (copy_channel highData (pIndex + 1)
                   (copy_channel highData pIndex low)))
      else low
  end.

(** [animate], rescheduled through [requestAnimationFrame]; [frame]
    counts the calls and [fuel] bounds them ([None]: the bound was
    reached). *)
Fixpoint animate (fuel : nat) (totalPixels : nat) (highData : list Byte.byte)
    (pixelIndices : list (option nat)) (frame : nat) (st : Anim) : option Anim :=
  match fuel with
  | O => None
  | S fuel' =>
      if negb (mounted frame) then Some st
      else if (totalPixels <=? currentPixel st)%nat then
        Some (mkAnim (lowData st) highData (currentPixel st) (S (completed st)))
      else
        let endPixel :=
          Nat.min (currentPixel st + pixelsPerFrame totalPixels) totalPixels in
        let low :=
          foldl (reveal highData pixelIndices) (lowData st)
                (seq (currentPixel st) (endPixel - currentPixel st)) in
        animate fuel' totalPixels highData pixelIndices (S frame)
                (mkAnim low low endPixel (completed st))
  end.

(** [startAnimation] on a canvas of [width] x [height] pixels, given the
    image data of the two pictures drawn at that size. *)
Definition startAnimation (fuel : nat) (width height : nat)
    (low high : list Byte.byte) : option Anim :=
  let totalPixels := (width * height)%nat in
  animate fuel totalPixels high (shuffle totalPixels) 0
          (mkAnim low low 0 0).
End Animation.

End PixelDissolve.

(** ** The [Home] component *)

(** The calls made to the two remote services, in order. *)
Inductive Call :=
| DescribeCall (imageDataUrl : Src) (descriptions : list ImageDescription)
| EnhanceCall (croppedImageDataUrl : Src) (prompts : list string).

(** The rectangle sent for enhancement: the selection grown by [padding] of
    its own size on every side and cut at the picture's edges (the
    statements from [paddedX] to [paddedRect] of [runEnhancementJob] and
    [handleRegenerate]). *)
Definition paddedRect (padding : Q) (originalRect : Rect)
    (sourceImageWidth sourceImageHeight : Q) : Rect :=
  let paddedX := x originalRect - w originalRect * padding in
  let paddedY := y originalRect - h originalRect * padding in
  let paddedW := w originalRect * (1 + 2 * padding) in
  let paddedH := h originalRect * (1 + 2 * padding) in
  let finalPaddedX := Math_max 0 paddedX in
  let finalPaddedY := Math_max 0 paddedY in
  let finalPaddedX2 := Math_min sourceImageWidth (paddedX + paddedW) in
  let finalPaddedY2 := Math_min sourceImageHeight (paddedY + paddedH) in
  {| x := finalPaddedX; y := finalPaddedY;
     w := finalPaddedX2 - finalPaddedX; h := finalPaddedY2 - finalPaddedY |}.

(** [paddedRect.h / paddedRect.w] as the same statements compute it on the
    doubles that the code holds; [Math.round] is applied to a multiple of
    it. *)
Definition paddedAspect (padding : Q) (originalRect : Rect)
    (sourceImageWidth sourceImageHeight : Q) : Q :=
  let ox := float64 (x originalRect) in
  let oy := float64 (y originalRect) in
  let ow := float64 (w originalRect) in
  let oh := float64 (h originalRect) in
  let paddedX := double_sub ox (double_mul ow padding) in
  let paddedY := double_sub oy (double_mul oh padding) in
  let paddedW := double_mul ow (double_add 1 (double_mul 2 padding)) in
  let paddedH := double_mul oh (double_add 1 (double_mul 2 padding)) in
  let finalPaddedX := Math_max 0 paddedX in
  let finalPaddedY := Math_max 0 paddedY in
  let finalPaddedX2 := Math_min sourceImageWidth (double_add paddedX paddedW) in
  let finalPaddedY2 := Math_min sourceImageHeight (double_add paddedY paddedH) in
  double_div (double_sub finalPaddedY2 finalPaddedY)
             (double_sub finalPaddedX2 finalPaddedX).

(** The selection inside the enhanced picture of the padded rectangle. *)
Definition finalCropRect (enhancedPaddedImage : HTMLImageElement)
    (originalRect padded : Rect) : Rect :=
  {| x := naturalWidth enhancedPaddedImage * ((x originalRect - x padded) / w padded);
     y := naturalHeight enhancedPaddedImage * ((y originalRect - y padded) / h padded);
     w := naturalWidth enhancedPaddedImage * (w originalRect / w padded);
     h := naturalHeight enhancedPaddedImage * (h originalRect / h padded) |}.

(** [d.prompt || ''] *)
Definition prompt_or_empty (d : ImageDescription) : string :=
  match prompt d with
  | Some p => p
  | None => ""
  end.

(** [steps.map(h => h.description).filter(d => d !== null)] *)
Definition descriptions_of (steps : list HistoryStep) : list ImageDescription :=
  omap description steps.

Module Home.

Definition useFixedSelectionBox : bool := true.
Definition fixedSelectionSizePercentage : Q := 1 # 8.

Record State := mkState {
  appState : AppState;
  image : option HTMLImageElement;
  pixelatedImageSrc : option Src;
  enhancedImageSrc : option Src;
  finalImageSrc : option Src;
  history : list HistoryStep;
  historyIndex : Z;
  newHistoryEntryData : option (ImageDescription * Rect);
  enhancementJob : option Job.t;
  finalEnhancementRect : option Rect;
  displaySelection : option Rect;
  isGeneratingGif : bool;
  stagedSelection : option Staged.t;
  isProcessing : bool;
  (** not a state cell: the log of remote calls *)
  calls : list Call
}.

Definition setAppState v s :=
  mkState v (image s) (pixelatedImageSrc s) (enhancedImageSrc s) (finalImageSrc s)
    (history s) (historyIndex s) (newHistoryEntryData s) (enhancementJob s)
    (finalEnhancementRect s) (displaySelection s) (isGeneratingGif s)
    (stagedSelection s) (isProcessing s) (calls s).
Definition setImage v s :=
  mkState (appState s) v (pixelatedImageSrc s) (enhancedImageSrc s) (finalImageSrc s)
    (history s) (historyIndex s) (newHistoryEntryData s) (enhancementJob s)
    (finalEnhancementRect s) (displaySelection s) (isGeneratingGif s)
    (stagedSelection s) (isProcessing s) (calls s).
Definition setPixelatedImageSrc v s :=
  mkState (appState s) (image s) v (enhancedImageSrc s) (finalImageSrc s)
    (history s) (historyIndex s) (newHistoryEntryData s) (enhancementJob s)
    (finalEnhancementRect s) (displaySelection s) (isGeneratingGif s)
    (stagedSelection s) (isProcessing s) (calls s).
Definition setEnhancedImageSrc v s :=
  mkState (appState s) (image s) (pixelatedImageSrc s) v (finalImageSrc s)
    (history s) (historyIndex s) (newHistoryEntryData s) (enhancementJob s)
    (finalEnhancementRect s) (displaySelection s) (isGeneratingGif s)
    (stagedSelection s) (isProcessing s) (calls s).
Definition setFinalImageSrc v s :=
  mkState (appState s) (image s) (pixelatedImageSrc s) (enhancedImageSrc s) v
    (history s) (historyIndex s) (newHistoryEntryData s) (enhancementJob s)
    (finalEnhancementRect s) (displaySelection s) (isGeneratingGif s)
    (stagedSelection s) (isProcessing s) (calls s).
Definition setHistory v s :=
  mkState (appState s) (image s) (pixelatedImageSrc s) (enhancedImageSrc s)
    (finalImageSrc s) v (historyIndex s) (newHistoryEntryData s) (enhancementJob s)
    (finalEnhancementRect s) (displaySelection s) (isGeneratingGif s)
    (stagedSelection s) (isProcessing s) (calls s).
Definition setHistoryIndex v s :=
  mkState (appState s) (image s) (pixelatedImageSrc s) (enhancedImageSrc s)
    (finalImageSrc s) (history s) v (newHistoryEntryData s) (enhancementJob s)
    (finalEnhancementRect s) (displaySelection s) (isGeneratingGif s)
    (stagedSelection s) (isProcessing s) (calls s).
Definition setNewHistoryEntryData v s :=
  mkState (appState s) (image s) (pixelatedImageSrc s) (enhancedImageSrc s)
    (finalImageSrc s) (history s) (historyIndex s) v (enhancementJob s)
    (finalEnhancementRect s) (displaySelection s) (isGeneratingGif s)
    (stagedSelection s) (isProcessing s) (calls s).
Definition setEnhancementJob v s :=
  mkState (appState s) (image s) (pixelatedImageSrc s) (enhancedImageSrc s)
    (finalImageSrc s) (history s) (historyIndex s) (newHistoryEntryData s) v
    (finalEnhancementRect s) (displaySelection s) (isGeneratingGif s)
    (stagedSelection s) (isProcessing s) (calls s).
Definition setFinalEnhancementRect v s :=
  mkState (appState s) (image s) (pixelatedImageSrc s) (enhancedImageSrc s)
    (finalImageSrc s) (history s) (historyIndex s) (newHistoryEntryData s)
    (enhancementJob s) v (displaySelection s) (isGeneratingGif s)
    (stagedSelection s) (isProcessing s) (calls s).
Definition setDisplaySelection v s :=
  mkState (appState s) (image s) (pixelatedImageSrc s) (enhancedImageSrc s)
    (finalImageSrc s) (history s) (historyIndex s) (newHistoryEntryData s)
    (enhancementJob s) (finalEnhancementRect s) v (isGeneratingGif s)
    (stagedSelection s) (isProcessing s) (calls s).
Definition setIsGeneratingGif v s :=
  mkState (appState s) (image s) (pixelatedImageSrc s) (enhancedImageSrc s)
    (finalImageSrc s) (history s) (historyIndex s) (newHistoryEntryData s)
    (enhancementJob s) (finalEnhancementRect s) (displaySelection s) v
    (stagedSelection s) (isProcessing s) (calls s).
Definition setStagedSelection v s :=
  mkState (appState s) (image s) (pixelatedImageSrc s) (enhancedImageSrc s)
    (finalImageSrc s) (history s) (historyIndex s) (newHistoryEntryData s)
    (enhancementJob s) (finalEnhancementRect s) (displaySelection s)
    (isGeneratingGif s) v (isProcessing s) (calls s).
Definition setIsProcessing v s :=
  mkState (appState s) (image s) (pixelatedImageSrc s) (enhancedImageSrc s)
    (finalImageSrc s) (history s) (historyIndex s) (newHistoryEntryData s)
    (enhancementJob s) (finalEnhancementRect s) (displaySelection s)
    (isGeneratingGif s) (stagedSelection s) v (calls s).
Definition logCall c s :=
  mkState (appState s) (image s) (pixelatedImageSrc s) (enhancedImageSrc s)
    (finalImageSrc s) (history s) (historyIndex s) (newHistoryEntryData s)
    (enhancementJob s) (finalEnhancementRect s) (displaySelection s)
    (isGeneratingGif s) (stagedSelection s) (isProcessing s) (calls s ++ [c]).

(** The initial values of the state cells. *)
Definition initial : State :=
  mkState LOADING None None None None [] (-1)%Z None None None None false None
    false [].

(** *** Asynchronous bodies: state updates that may throw *)

Definition M (A : Type) : Type := State -> Outcome A * State.

Definition ret {A} (a : A) : M A := fun s => (Ok a, s).
Definition bind {A B} (m : M A) (k : A -> M B) : M B :=
  fun s =>
    match m s with
    | (Ok a, s') => k a s'
    | (Throw e, s') => (Throw e, s')
    end.
Definition update (f : State -> State) : M unit := fun s => (Ok tt, f s).
Definition reject {A} (e : string) : M A := fun s => (Throw e, s).

Notation "v <- c ;; k" := (bind c (fun v => k))
  (at level 100, c at next level, right associativity).
Notation "c ;;; k" := (bind c (fun _ => k))
  (at level 100, right associativity).

(** [try { body } catch { handler } finally { final }] *)
Definition try_catch_finally (body handler final : M unit) : State -> State :=
  fun s =>
    match body s with
    | (Ok _, s') => snd (final s')
    | (Throw _, s') => snd (bind handler (fun _ => final) s')
    end.

(** [await new Promise((resolve, reject) => { img.onload ...; img.onerror = reject })] *)
Definition awaitImage (env : Browser) (s : Src) : M HTMLImageElement :=
  match loadImage env s with
  | Some img => ret img
  | None => reject "error event"
  end.

(** The two service wrappers with the request they make.  A call is
    logged when the wrapper gets as far as [generateContent]:
    [serviceDescribeImage] returns before it for a URL without data,
    [serviceEnhance] for an empty list of prompts. *)
Definition describe (env : Browser) (imageDataUrl : Src)
    (descriptions : list ImageDescription) (response : DescribeResponse)
    : M ImageDescription :=
  (if has_base64 imageDataUrl
   then update (logCall (DescribeCall imageDataUrl descriptions))
   else ret tt) ;;;
  ret (serviceDescribeImage env imageDataUrl descriptions response).

Definition enhance (croppedImageDataUrl : Src) (prompts : list string)
    (response : GenerateContentResponse) : M Src :=
  (match prompts with
   | [] => ret tt
   | _ :: _ => update (logCall (EnhanceCall croppedImageDataUrl prompts))
   end) ;;;
  ret (serviceEnhance croppedImageDataUrl prompts response).

(** *** Loading a picture ([img.onload] of [handleFileDrop]) *)

Definition handleFileDrop (env : Browser) (newImageSrc : Src) (s : State) : State :=
  match loadImage env newImageSrc with
  | None => s
  | Some img =>
      let newStep := mkStep newImageSrc None None in
      setAppState LOADED
        (setStagedSelection None
           (setDisplaySelection None
              (setFinalEnhancementRect None
                 (setEnhancementJob None
                    (setFinalImageSrc (Some newImageSrc)
                       (setImage (Some img)
                          (setHistoryIndex 0%Z
                             (setHistory [newStep] s))))))))
  end.

Definition handleStageSelection (staged : Staged.t) (s : State) : State :=
  setStagedSelection (Some staged) s.

Definition startEnhancementProcess (env : Browser) (originalRect screenRect : Rect)
    (canvasWithSelectionDataUrl : Src) (s : State) : State :=
  match image s with
  | None => s
  | Some img =>
      let s1 :=
        if (historyIndex s <? Z.of_nat (length (history s)) - 1)%Z
        then setHistory (slice (history s) 0 (historyIndex s + 1)) s
        else s in
      let s2 := setAppState ENHANCING s1 in
      let aspectRatio := w originalRect / h originalRect in
      let padding := 5 # 100 in
      let maxWidth := innerWidth env * (1 - padding) in
      let maxHeight := innerHeight env * (1 - padding) in
      let targetWidth := maxWidth in
      let targetHeight := targetWidth / aspectRatio in
      let '(targetWidth, targetHeight) :=
        if gt_dec targetHeight maxHeight
        then (maxHeight * aspectRatio, maxHeight)
        else (targetWidth, targetHeight) in
      let s3 :=
        setFinalEnhancementRect
          (Some {| w := targetWidth; h := targetHeight;
                   x := (innerWidth env - targetWidth) / 2;
                   y := (innerHeight env - targetHeight) / 2 |}) s2 in
      let pixelatedSrc :=
        cropImage env img originalRect (w originalRect) (h originalRect) true in
      setEnhancementJob
        (Some (Job.mk originalRect canvasWithSelectionDataUrl pixelatedSrc screenRect))
        s3
  end.

Definition handleProcessClick (env : Browser) (s : State) : State :=
  match stagedSelection s with
  | None => s
  | Some staged =>
      setStagedSelection None
        (startEnhancementProcess env (Staged.originalRect staged)
           (Staged.screenRect staged) (Staged.canvasDataUrl staged) s)
  end.

(** *** The enhancement job *)

(** The [try] block of [runEnhancementJob]; [s0] is the state of the
    render that created the callback. *)
Definition enhancementBody (env : Browser) (describeResponse : DescribeResponse)
    (enhanceResponse : GenerateContentResponse) (s0 : State) (job : Job.t)
    (img : HTMLImageElement) : M unit :=
  let originalRect := Job.originalRect job in
  let descriptionHistory :=
    descriptions_of (slice (history s0) 0 (historyIndex s0 + 1)) in
  description <- describe env (Job.canvasWithSelectionDataUrl job)
                   descriptionHistory describeResponse ;;
  update (setNewHistoryEntryData (Some (description, originalRect))) ;;;
  let sourceImageWidth := naturalWidth img in
  let sourceImageHeight := naturalHeight img in
  let padding := 1 # 4 in
  let padded := paddedRect padding originalRect sourceImageWidth sourceImageHeight in
  let aspect := paddedAspect padding originalRect sourceImageWidth sourceImageHeight in
  let targetWidth := 512 * (1 + padding) in
  let targetHeight := Math_round (double_mul targetWidth aspect) in
  let croppedForEnhancement :=
    cropImage env img padded targetWidth targetHeight false in
  let prompts :=
    map prompt_or_empty descriptionHistory ++ [prompt_or_empty description] in
  enhancedPaddedSrc <- enhance croppedForEnhancement prompts enhanceResponse ;;
  enhancedPaddedImage <- awaitImage env enhancedPaddedSrc ;;
  let crop := finalCropRect enhancedPaddedImage originalRect padded in
  let finalImageWidth := 1024 in
  let finalImageHeight :=
    Math_round
      (double_mul finalImageWidth
         (double_div (float64 (h originalRect)) (float64 (w originalRect)))) in
  let enhancedSrc :=
    cropImage env enhancedPaddedImage crop finalImageWidth finalImageHeight false in
  update (setPixelatedImageSrc (Some (Job.pixelatedSrc job))) ;;;
  update (setEnhancedImageSrc (Some enhancedSrc)) ;;;
  update (setAppState ENHANCED).

(** The [catch] block of [runEnhancementJob]. *)
Definition enhancementFallback (env : Browser) (job : Job.t)
    (img : HTMLImageElement) : M unit :=
  let fallbackSrc :=
    cropImage env img (Job.originalRect job)
      (w (Job.originalRect job) * 2) (h (Job.originalRect job) * 2) false in
  update (setPixelatedImageSrc (Some (Job.pixelatedSrc job))) ;;;
  update (setEnhancedImageSrc (Some fallbackSrc)) ;;;
  update (setAppState ENHANCED).

Definition runEnhancementJob (env : Browser) (describeResponse : DescribeResponse)
    (enhanceResponse : GenerateContentResponse) (s : State) : State :=
  match enhancementJob s, image s with
  | Some job, Some img =>
      try_catch_finally
        (enhancementBody env describeResponse enhanceResponse s job img)
        (enhancementFallback env job img)
        (update (setEnhancementJob None) ;;; update (setIsProcessing false))
        (setIsProcessing true s)
  | _, _ => s
  end.

Definition handleEnhancementComplete (env : Browser) (s : State) : State :=
  match enhancedImageSrc s, newHistoryEntryData s with
  | Some enhanced, Some (description, originalRect) =>
      if negb (truthy (Some enhanced)) then s
      else
        let newStep := mkStep enhanced (Some description) (Some originalRect) in
        let newHistory := slice (history s) 0 (historyIndex s + 1) in
        let s1 :=
          setHistoryIndex (Z.of_nat (length newHistory))
            (setHistory (newHistory ++ [newStep]) s) in
        match loadImage env enhanced with
        | None => s1
        | Some newImage =>
            setAppState LOADED
              (setDisplaySelection None
                 (setNewHistoryEntryData None
                    (setFinalEnhancementRect None
                       (setEnhancedImageSrc None
                          (setFinalImageSrc (Some enhanced)
                             (setImage (Some newImage) s1))))))
        end
  | _, _ => s
  end.

(** *** Undo, redo, regenerate, export *)

#[global] Instance AppState_eq_dec : EqDecision AppState.
Proof. solve_decision. Defined.

(** [historyIndex <= 0 || appState === ENHANCING || isGeneratingGif] *)
Definition blocked (s : State) : bool :=
  (historyIndex s <=? 0)%Z || bool_decide (appState s = ENHANCING)
  || isGeneratingGif s.

(** The part shared by [handleUndo] and [handleRedo] once [newIndex] is
    chosen. *)
Definition moveTo (env : Browser) (newIndex : Z) (s : State) : State :=
  let s1 := setHistoryIndex newIndex s in
  let nextStep := at_index (history s) (newIndex + 1) in
  let s2 := setDisplaySelection (nextStep ≫= originalRect) s1 in
  match at_index (history s) newIndex with
  | None => s2
  | Some step =>
      let newImageSrc := imageSrc step in
      let s3 := setStagedSelection None s2 in
      match loadImage env newImageSrc with
      | None => s3
      | Some img => setFinalImageSrc (Some newImageSrc) (setImage (Some img) s3)
      end
  end.

Definition handleUndo (env : Browser) (s : State) : State :=
  if blocked s then s else moveTo env (historyIndex s - 1) s.

Definition handleRedo (env : Browser) (s : State) : State :=
  if (Z.of_nat (length (history s)) - 1 <=? historyIndex s)%Z
     || bool_decide (appState s = ENHANCING) || isGeneratingGif s
  then s
  else moveTo env (historyIndex s + 1) s.

(** The [try] block inside [sourceImage.onload] of [handleRegenerate]. *)
Definition regenerateBody (env : Browser) (describeResponse : DescribeResponse)
    (enhanceResponse : GenerateContentResponse) (s0 : State)
    (sourceImage : HTMLImageElement) (originalRect : Rect) : M unit :=
  let descriptionHistory :=
    descriptions_of (slice (history s0) 0 (historyIndex s0)) in
  let croppedForDescription :=
    cropImage env sourceImage originalRect (w originalRect) (h originalRect) false in
  description <- describe env croppedForDescription descriptionHistory
                   describeResponse ;;
  let sourceImageWidth := naturalWidth sourceImage in
  let sourceImageHeight := naturalHeight sourceImage in
  let padding := 1 # 2 in
  let padded := paddedRect padding originalRect sourceImageWidth sourceImageHeight in
  let aspect := paddedAspect padding originalRect sourceImageWidth sourceImageHeight in
  let targetWidth := 512 in
  let targetHeight := Math_round (double_mul targetWidth aspect) in
  let croppedForEnhancement :=
    cropImage env sourceImage padded targetWidth targetHeight false in
  let prompts :=
    map prompt_or_empty descriptionHistory ++ [prompt_or_empty description] in
  enhancedPaddedSrc <- enhance croppedForEnhancement prompts enhanceResponse ;;
  enhancedPaddedImage <- awaitImage env enhancedPaddedSrc ;;
  let crop := finalCropRect enhancedPaddedImage originalRect padded in
  let finalImageWidth := 1024 in
  let finalImageHeight :=
    Math_round
      (double_mul finalImageWidth
         (double_div (float64 (h originalRect)) (float64 (w originalRect)))) in
  let enhancedSrc :=
    cropImage env enhancedPaddedImage crop finalImageWidth finalImageHeight false in
  let newStep := mkStep enhancedSrc (Some description) (Some originalRect) in
  let newHistory := slice (history s0) 0 (historyIndex s0) ++ [newStep] in
  update (setHistory newHistory) ;;;
  update (setDisplaySelection None) ;;;
  match loadImage env enhancedSrc with
  | None => ret tt
  | Some newImage =>
      update (setImage (Some newImage)) ;;;
      update (setFinalImageSrc (Some enhancedSrc)) ;;;
      update (setAppState LOADED)
  end.

Definition handleRegenerate (env : Browser) (describeResponse : DescribeResponse)
    (enhanceResponse : GenerateContentResponse) (s : State) : State :=
  if blocked s then s
  else
    let s1 := setStagedSelection None (setAppState ENHANCING s) in
    let previousStep := at_index (history s) (historyIndex s - 1) in
    match at_index (history s) (historyIndex s) with
    | None => s1
    | Some current =>
        match originalRect current with
        | None => setAppState LOADED s1
        | Some originalRect =>
            match previousStep with
            | None => s1
            | Some previous =>
                match loadImage env (imageSrc previous) with
                | None => s1
                | Some sourceImage =>
                    try_catch_finally
                      (regenerateBody env describeResponse enhanceResponse s
                         sourceImage originalRect)
                      (update (setAppState LOADED))
                      (ret tt)
                      s1
                end
            end
        end
    end.

(** [handleExportGif]: the state afterwards and the frames of the
    downloaded file, if one was produced. *)
Definition handleExportGif (env : Browser) (s : State) : State * option (list Frame) :=
  if (historyIndex s <? 1)%Z then (s, None)
  else
    match generateZoomGif env (slice (history s) 0 (historyIndex s + 1)) with
    | Ok frames => (setIsGeneratingGif false (setIsGeneratingGif true s), Some frames)
    | Throw _ => (setIsGeneratingGif false (setIsGeneratingGif true s), None)
    end.

(** *** What the rendered tree lets happen *)

(** [SelectionAnimator] is mounted, and its transition ends. *)
Definition selectionAnimatorComplete (env : Browser)
    (describeResponse : DescribeResponse)
    (enhanceResponse : GenerateContentResponse) (s : State) : State :=
  match enhancementJob s, finalEnhancementRect s with
  | Some _, Some _ =>
      if bool_decide (appState s = ENHANCING)
      then runEnhancementJob env describeResponse enhanceResponse s
      else s
  | _, _ => s
  end.

(** [PixelDissolve] is mounted and its animation calls [onComplete].  The
    effect of the component waits for both pictures to load (their only
    handler is [onload], so a picture that does not decode leaves the
    promise pending for ever), and [startAnimation] returns at once
    without its three 2D contexts. *)
Definition pixelDissolveComplete (env : Browser) (s : State) : State :=
  if bool_decide (appState s = ENHANCED) && truthy (pixelatedImageSrc s)
     && truthy (enhancedImageSrc s) && bool_decide (is_Some (finalEnhancementRect s))
  then
    match pixelatedImageSrc s ≫= loadImage env,
          enhancedImageSrc s ≫= loadImage env with
    | Some loadedLow, Some loadedHigh =>
        if context2d env then handleEnhancementComplete env s else s
    | _, _ => s
    end
  else s.

(** The Process button is shown, and clicked. *)
Definition clickProcess (env : Browser) (s : State) : State :=
  if bool_decide (appState s = LOADED) && (1 <=? length (history s))%nat
  then handleProcessClick env s
  else s.

(** A confirmed selection carried through to the history. *)
Definition confirmAndEnhance (env : Browser) (describeResponse : DescribeResponse)
    (enhanceResponse : GenerateContentResponse) (s : State) : State :=
  pixelDissolveComplete env
    (selectionAnimatorComplete env describeResponse enhanceResponse
       (clickProcess env s)).

(** A mouse-up on the displayed picture, with the [onStageSelection]
    call it may make. *)
Definition mouseUp (props : ImageDisplay.Props) (canvas : option (Q * Q))
    (d : ImageDisplay.State) (s : State) : ImageDisplay.State * State :=
  match ImageDisplay.handleMouseUp props canvas d with
  | (d', Some staged) => (d', handleStageSelection staged s)
  | (d', None) => (d', s)
  end.

Definition mouseDown (env : Browser) (props : ImageDisplay.Props)
    (canvas : option (Q * Q)) (pos : Q * Q)
    (d : ImageDisplay.State) (s : State) : ImageDisplay.State * State :=
  match ImageDisplay.handleMouseDown env props canvas pos d with
  | (d', Some staged) => (d', handleStageSelection staged s)
  | (d', None) => (d', s)
  end.

End Home.

(** ** The [SelectionAnimator] component *)

Module SelectionAnimator.

(** [handleTransitionEnd] on the ref [onCompleteCalled]: the value of the
    ref afterwards, and whether [onComplete] was called. *)
Definition handleTransitionEnd (onCompleteCalled : bool) : bool * bool :=
  if negb onCompleteCalled then (true, true) else (onCompleteCalled, false).

(** [n] transition-end events in a row: the ref afterwards and the number
    of calls of [onComplete], starting from [calls]. *)
Fixpoint transitionEnds (n : nat) (onCompleteCalled : bool) (calls : nat)
    : bool * nat :=
  match n with
  | O => (onCompleteCalled, calls)
  | S n' =>
      let '(ref, called) := handleTransitionEnd onCompleteCalled in
      transitionEnds n' ref (if called then S calls else calls)
  end.

End SelectionAnimator.

(** ** Loading, resetting, and the rendered controls of [Home] *)

Module Session.

(** [loadInitialImage] up to its first [await]: the fetch of the picture is
    under way. *)
Definition loadInitialImage (s : Home.State) : Home.State :=
  Home.setAppState LOADING s.

(** How a load started by [loadInitialImage] settles, in the state [s] the
    component has reached by then.  [fetched] is the object URL made from
    the fetched blob, [None] when the fetch fails or the response is not ok
    (the [catch]); the URL is assigned to a new [Image], whose [onload] or
    [onerror] runs. *)
Definition initialImageSettled (env : Browser) (fetched : option Src)
    (s : Home.State) : Home.State :=
  match fetched with
  | None => Home.setAppState IDLE s
  | Some objectURL =>
      match loadImage env objectURL with
      | None => Home.setAppState IDLE s
      | Some img =>
          let newStep := mkStep objectURL None None in
          Home.setAppState LOADED
            (Home.setDisplaySelection None
               (Home.setFinalImageSrc (Some objectURL)
                  (Home.setImage (Some img)
                     (Home.setHistoryIndex 0%Z
                        (Home.setHistory [newStep] s)))))
      end
  end.

Definition resetState (s : Home.State) : Home.State :=
  loadInitialImage
    (Home.setIsProcessing false
       (Home.setStagedSelection None
          (Home.setDisplaySelection None
             (Home.setNewHistoryEntryData None
                (Home.setHistoryIndex (-1)%Z
                   (Home.setHistory []
                      (Home.setFinalEnhancementRect None
                         (Home.setEnhancementJob None s)))))))).

(** [ImageDisplay] is rendered:
    [finalImageSrc && ![ENHANCED, ENHANCING].includes(appState)]. *)
Definition imageDisplayed (s : Home.State) : bool :=
  truthy (Home.finalImageSrc s)
  && negb (bool_decide (Home.appState s = ENHANCED)
           || bool_decide (Home.appState s = ENHANCING)).

(** The props [Home] passes to [ImageDisplay]. *)
Definition displayProps (s : Home.State) : ImageDisplay.Props :=
  ImageDisplay.mkProps
    (bool_decide (Home.appState s = ENHANCING) || Home.isGeneratingGif s)
    Home.useFixedSelectionBox Home.fixedSelectionSizePercentage.

(** The button row is rendered:
    [appState === LOADED && history.length >= 1]. *)
Definition toolbar (s : Home.State) : bool :=
  bool_decide (Home.appState s = LOADED) && (1 <=? length (Home.history s))%nat.

(** The row shows Cancel and Process when a selection is staged, and the
    other buttons otherwise. *)
Definition staging (s : Home.State) : bool :=
  bool_decide (is_Some (Home.stagedSelection s)).

Definition clickCancel (s : Home.State) : Home.State :=
  if toolbar s && staging s then Home.setStagedSelection None s else s.

Definition clickUndo (env : Browser) (s : Home.State) : Home.State :=
  if toolbar s && negb (staging s)
     && negb ((Home.historyIndex s <=? 0)%Z || Home.isGeneratingGif s)
  then Home.handleUndo env s else s.

Definition clickRedo (env : Browser) (s : Home.State) : Home.State :=
  if toolbar s && negb (staging s)
     && negb ((Z.of_nat (length (Home.history s)) - 1 <=? Home.historyIndex s)%Z
              || Home.isGeneratingGif s)
  then Home.handleRedo env s else s.

Definition clickRegenerate (env : Browser) (describeResponse : DescribeResponse)
    (enhanceResponse : GenerateContentResponse) (s : Home.State) : Home.State :=
  if toolbar s && negb (staging s)
     && negb ((Home.historyIndex s <=? 0)%Z || Home.isGeneratingGif s)
  then Home.handleRegenerate env describeResponse enhanceResponse s else s.

Definition clickExport (env : Browser) (s : Home.State) : Home.State :=
  if toolbar s && negb (staging s)
     && negb ((Home.historyIndex s <? 1)%Z || Home.isGeneratingGif s)
  then fst (Home.handleExportGif env s) else s.

(** The Reset button is shown. *)
Definition resetShown (s : Home.State) : bool := toolbar s && negb (staging s).

(** A session: the state of [Home], and the loads of the initial picture
    that have not settled yet, each with what its fetch is going to give. *)
Record t := mk {
  home : Home.State;
  loading : list (option Src)
}.

(** What the user, the network and the rendered components can make
    happen.  A reset starts a load; [InitialImageSettled k] is the moment
    the [k]-th of the pending loads settles. *)
Inductive Event :=
| DropFile (newImageSrc : Src)
| MouseDown (canvas : option (Q * Q)) (pos : Q * Q) (disp : ImageDisplay.State)
| MouseUp (canvas : option (Q * Q)) (disp : ImageDisplay.State)
| ClickCancel
| ClickProcess
| TransitionEnd (describeResponse : DescribeResponse)
                (enhanceResponse : GenerateContentResponse)
| DissolveComplete
| ClickUndo
| ClickRedo
| ClickRegenerate (describeResponse : DescribeResponse)
                  (enhanceResponse : GenerateContentResponse)
| ClickExport
| ClickReset (fetched : option Src)
| InitialImageSettled (k : nat).

(** The events that touch the state of [Home] only. *)
Definition handle (env : Browser) (s : Home.State) (e : Event) : Home.State :=
  match e with
  | DropFile newImageSrc => Home.handleFileDrop env newImageSrc s
  | MouseDown canvas pos disp =>
      if imageDisplayed s
      then snd (Home.mouseDown env (displayProps s) canvas pos disp s)
      else s
  | MouseUp canvas disp =>
      if imageDisplayed s
      then snd (Home.mouseUp (displayProps s) canvas disp s)
      else s
  | ClickCancel => clickCancel s
  | ClickProcess => Home.clickProcess env s
  | TransitionEnd describeResponse enhanceResponse =>
      Home.selectionAnimatorComplete env describeResponse enhanceResponse s
  | DissolveComplete => Home.pixelDissolveComplete env s
  | ClickUndo => clickUndo env s
  | ClickRedo => clickRedo env s
  | ClickRegenerate describeResponse enhanceResponse =>
      clickRegenerate env describeResponse enhanceResponse s
  | ClickExport => clickExport env s
  | ClickReset _ => if resetShown s then resetState s else s
  | InitialImageSettled _ => s
  end.

Definition step (env : Browser) (c : t) (e : Event) : t :=
  match e with
  | ClickReset fetched =>
      mk (handle env (home c) e)
         (if resetShown (home c) then loading c ++ [fetched] else loading c)
  | InitialImageSettled k =>
      match loading c !! k with
      | Some fetched =>
          mk (initialImageSettled env fetched (home c)) (delete k (loading c))
      | None => c
      end
  | _ => mk (handle env (home c) e) (loading c)
  end.

(** The mount effect: the first load is started on the initial state. *)
Definition mount (fetched : option Src) : t :=
  mk (loadInitialImage Home.initial) [fetched].

(** The state after the mount effect and a series of events; [fetched] is
    what the fetch started by the mount gives when that load settles. *)
Definition run (env : Browser) (fetched : option Src) (events : list Event)
    : Home.State :=
  home (foldl (step env) (mount fetched) events).

End Session.

(** ** Vocabulary of the properties *)

(** [r] is a rectangle of non-negative extent inside [[0,W] x [0,H]]. *)
Definition within (r : Rect) (W H : Q) : Prop :=
  0 <= x r /\ 0 <= y r /\ 0 <= w r /\ 0 <= h r /\
  x r + w r <= W /\ y r + h r <= H.

(** [outer] covers [inner]. *)
Definition contains (outer inner : Rect) : Prop :=
  x outer <= x inner /\ y outer <= y inner /\
  x inner + w inner <= x outer + w outer /\
  y inner + h inner <= y outer + h outer.

(** [r] grown by [ratio] of its size still meets [[0,W] x [0,H]]. *)
Definition meets (r : Rect) (ratio W H : Q) : Prop :=
  0 <= W /\ 0 <= H /\
  x r - w r * ratio <= W /\ 0 <= x r + w r + w r * ratio /\
  y r - h r * ratio <= H /\ 0 <= y r + h r + h r * ratio.

(** The picture sent to the enhance service for a selection [rect] of the
    picture [img]: the padded rectangle at width 512 * 1.25. *)
Definition enhancementInput (img : HTMLImageElement) (rect : Rect) : Src :=
  let padded := paddedRect (1 # 4) rect (naturalWidth img) (naturalHeight img) in
  CropPng (src img) padded (512 * (1 + (1 # 4)))
    (Math_round
       (double_mul (512 * (1 + (1 # 4)))
          (paddedAspect (1 # 4) rect (naturalWidth img) (naturalHeight img))))
    false.

(** The 1024-wide picture cut back out of a picture [out] of the padded
    rectangle that decoded at [nw] x [nh]. *)
Definition recropped (img : HTMLImageElement) (rect : Rect) (out : Src)
    (nw nh : Q) : Src :=
  let padded := paddedRect (1 # 4) rect (naturalWidth img) (naturalHeight img) in
  CropPng out (finalCropRect (mkImage out nw nh) rect padded) 1024
    (Math_round (double_mul 1024 (double_div (float64 (h rect)) (float64 (w rect)))))
    false.

(** The smooth crop of the selection itself at twice its size. *)
Definition doubleSizeCrop (img : HTMLImageElement) (rect : Rect) : Src :=
  CropPng (src img) rect (w rect * 2) (h rect * 2) false.

(** The describe request made for a picture, when one is made: the
    wrapper sends none for a URL without data. *)
Definition describeRequest (imageDataUrl : Src)
    (descriptions : list ImageDescription) : list Call :=
  if has_base64 imageDataUrl then [DescribeCall imageDataUrl descriptions] else [].

(** The descriptions of the steps up to and including the cursor. *)
Definition activeDescriptions (s : Home.State) : list ImageDescription :=
  descriptions_of (take (S (Z.to_nat (Home.historyIndex s))) (Home.history s)).

(** [staged] is what a mouse-down or a mouse-up on the display handed to
    [onStageSelection]. *)
Definition staged_by_display (env : Browser) (props : ImageDisplay.Props)
    (canvas : option (Q * Q)) (disp : ImageDisplay.State) (staged : Staged.t)
    : Prop :=
  (exists pos disp',
     ImageDisplay.handleMouseDown env props canvas pos disp = (disp', Some staged))
  \/ (exists disp',
        ImageDisplay.handleMouseUp props canvas disp = (disp', Some staged)).

(** The rectangle [{x: 0, y: 0, w: naturalWidth, h: naturalHeight}] of a
    picture. *)
Definition fullRect (img : HTMLImageElement) : Rect :=
  {| x := 0; y := 0; w := naturalWidth img; h := naturalHeight img |}.

(** A frame of the zoom phase: a view into the picture [u]; a frame of the
    hold phase: the whole picture [u]. *)
Definition isZoomFrameOf (u : Src) (frame : Frame) : Prop :=
  match frame with
  | ZoomFrame image _ _ _ _ _ => src image = u
  | HoldFrame _ _ _ _ => False
  end.

Definition isHoldFrameOf (u : Src) (frame : Frame) : Prop :=
  match frame with
  | ZoomFrame _ _ _ _ _ _ => False
  | HoldFrame image _ _ _ => src image = u
  end.

(** The canvas size a crop was rendered at. *)
Definition requestedSize (u : Src) : option (Q * Q) :=
  match u with
  | CropPng _ _ targetWidth targetHeight _ => Some (targetWidth, targetHeight)
  | _ => None
  end.

(** ** Sample data *)

(** A browser with a 1280 x 720 window in which a canvas PNG decodes at
    the size of its canvas, an uploaded picture is 800 x 600, and the empty
    URL does not decode. *)
Definition sampleBrowser : Browser :=
  {| innerWidth := 1280;
     innerHeight := 720;
     context2d := true;
     decode := fun s =>
       match s with
       | ObjectUrl _ => Some (800, 600)
       | EmptyUrl => None
       | CropPng _ _ tw th _ => Some (tw, th)
       | CanvasPng _ _ => Some (1280, 720)
       | InlineData _ _ => Some (1024, 1024)
       end;
     JSON_parse := fun _ => None;
     match_fence := fun _ => None;
     trim := fun t => t |}.

Definition sampleRect : Rect := {| x := 350; y := 525 # 2; w := 100; h := 75 |}.

Definition stepA : HistoryStep := mkStep (ObjectUrl 0) None None.
Definition stepB : HistoryStep :=
  mkStep (ObjectUrl 1) (Some (mkDescription "B" (Some "b"%string))) (Some sampleRect).
Definition stepC : HistoryStep :=
  mkStep (ObjectUrl 2) (Some (mkDescription "C" None)) (Some sampleRect).
Definition stepD : HistoryStep :=
  mkStep (ObjectUrl 3) (Some (mkDescription "D" None)) (Some sampleRect).

(** History [A, B, C] with the cursor at [B], as after one undo. *)
Definition undoneState : Home.State :=
  Home.mkState LOADED (Some (mkImage (ObjectUrl 1) 800 600)) None None
    (Some (ObjectUrl 1)) [stepA; stepB; stepC] 1%Z None None None
    (Some sampleRect) false None false [].

(** The same history when the reveal of a new picture [D] has finished. *)
Definition revealedState : Home.State :=
  Home.mkState ENHANCED (Some (mkImage (ObjectUrl 1) 800 600))
    (Some (ObjectUrl 4)) (Some (ObjectUrl 3)) (Some (ObjectUrl 1))
    [stepA; stepB; stepC] 1%Z (Some (mkDescription "D" None, sampleRect)) None
    (Some sampleRect) None false None false [].

(** An 800 x 600 picture just loaded, with the fixed box staged by a click
    at its centre. *)
Definition stagedState : Home.State :=
  Home.handleStageSelection
    (Staged.mk sampleRect sampleRect (CanvasPng (ObjectUrl 0) sampleRect))
    (Home.handleFileDrop sampleBrowser (ObjectUrl 0) Home.initial).

(** The display of that picture on a 1280 x 720 canvas, and the state after
    a click at the centre of the canvas in fixed-box mode. *)
Definition sampleDisplay : ImageDisplay.State :=
  ImageDisplay.mkState (Some (mkImage (ObjectUrl 0) 800 600)) None None.

Definition sampleProps : ImageDisplay.Props :=
  ImageDisplay.mkProps false Home.useFixedSelectionBox
    Home.fixedSelectionSizePercentage.

Definition clickedState : Home.State :=
  snd (Home.mouseDown sampleBrowser sampleProps (Some (1280, 720)) (640, 360)
         sampleDisplay
         (Home.handleFileDrop sampleBrowser (ObjectUrl 0) Home.initial)).

(** The selection staged by that click. *)
Definition sampleStaged : Staged.t :=
  match Home.stagedSelection clickedState with
  | Some staged => staged
  | None => Staged.mk sampleRect sampleRect EmptyUrl
  end.

(** A random source alternating 3/4 and 1/4, and two rasters of 2 x 2
    pixels. *)
Definition sampleRandom (k : nat) : Q := if Nat.even k then 3 # 4 else 1 # 4.
Definition sampleLow : list Byte.byte := repeat Byte.x00 16.
Definition sampleHigh : list Byte.byte := repeat Byte.xff 16.

(** ** Further vocabulary *)

(** Two rectangles with equal coordinates. *)
Definition Rect_eq (a b : Rect) : Prop :=
  x a == x b /\ y a == y b /\ w a == w b /\ h a == h b.

(** The steps after the first that carry a selection rectangle. *)
Definition zoomSteps (history : list HistoryStep) : list HistoryStep :=
  filter (fun step => is_Some (originalRect step)) (drop 1 history).



(** A history whose third step carries no selection rectangle. *)
Definition stepNoRect : HistoryStep :=
  mkStep (ObjectUrl 5) (Some (mkDescription "E" None)) None.

(** A response of the image model carrying one picture, and a browser in
    which the pictures of the model do not decode. *)
Definition sampleModelResponse : GenerateContentResponse :=
  Resolved None
    (Some [mkCandidate
             (Some (mkContent (Some [mkPart (Some ("image/png", "AAAA")%string)])))])
    None.

Definition undecodingBrowser : Browser :=
  {| innerWidth := 1280;
     innerHeight := 720;
     context2d := true;
     decode := fun s =>
       match s with
       | ObjectUrl _ => Some (800, 600)
       | CropPng _ _ tw th _ => Some (tw, th)
       | CanvasPng _ _ => Some (1280, 720)
       | EmptyUrl | InlineData _ _ => None
       end;
     JSON_parse := fun _ => None;
     match_fence := fun _ => None;
     trim := fun t => t |}.

(** ** Invariants of the state of [Home] *)

(** The cursor is [-1] on the empty history and an index of it otherwise. *)
Definition cursor_valid (s : Home.State) : Prop :=
  (Home.history s = [] /\ Home.historyIndex s = (-1)%Z) \/
  (0 <= Home.historyIndex s < Z.of_nat (length (Home.history s)))%Z.

(** The first step is a loaded picture, without selection rectangle and
    description; every later step carries both. *)
Definition history_shaped (steps : list HistoryStep) : Prop :=
  forall (i : nat) (step : HistoryStep),
    steps !! i = Some step ->
    (i = 0%nat -> originalRect step = None /\ description step = None) /\
    ((0 < i)%nat -> is_Some (originalRect step) /\ is_Some (description step)).

(** While the enhancement is prepared or revealed, no selection is
    staged. *)
Definition busy_unstaged (s : Home.State) : Prop :=
  Home.appState s = ENHANCING \/ Home.appState s = ENHANCED ->
  Home.stagedSelection s = None.

(** Nothing waits to be committed to an empty history. *)
Definition pending_has_history (s : Home.State) : Prop :=
  Home.history s = [] ->
  Home.newHistoryEntryData s = None /\ Home.enhancementJob s = None.

Definition invariant (s : Home.State) : Prop :=
  cursor_valid s /\ history_shaped (Home.history s) /\
  busy_unstaged s /\ pending_has_history s.

(** A session: the picture is fetched, the user clicks its centre, presses
    Process, and the two animations end; then without the last event. *)
Definition sampleEvents : list Session.Event :=
  [Session.InitialImageSettled 0;
   Session.MouseDown (Some (1280, 720)) (640, 360) sampleDisplay;
   Session.ClickProcess;
   Session.TransitionEnd DescribeRejected Rejected;
   Session.DissolveComplete].


Definition sampleSessionEnhancing : Home.State :=
  Session.run sampleBrowser (Some (ObjectUrl 0)) (take 3 sampleEvents).

(** * Properties *)

(** ** Arithmetic helpers *)

Lemma Qdiv_2 (q : Q) : q / 2 == q * (1 # 2).
Proof. reflexivity. Qed.

Lemma cube_monotone (a b : Q) : 0 <= a -> a <= b -> a * a * a <= b * b * b.
Proof.
  intros Ha Hab.
  assert (Hb : 0 <= b) by lra.
  assert (H1 : 0 <= a * a) by (apply Qmult_le_0_compat; lra).
  assert (H2 : 0 <= a * b) by (apply Qmult_le_0_compat; lra).
  assert (H3 : 0 <= b * b) by (apply Qmult_le_0_compat; lra).
  assert (H4 : 0 <= (b - a) * (b * b + a * b + a * a))
    by (apply Qmult_le_0_compat; lra).
  lra.
Qed.

Lemma max_cases (a b : Q) :
  a <= Math_max a b /\ b <= Math_max a b /\
  (Math_max a b == a \/ Math_max a b == b).
Proof.
  unfold Math_max.
  destruct (Q.max_spec a b) as [[Hlt E] | [Hle E]]; rewrite E; lra.
Qed.

Lemma min_cases (a b : Q) :
  Math_min a b <= a /\ Math_min a b <= b /\
  (Math_min a b == a \/ Math_min a b == b).
Proof.
  unfold Math_min.
  destruct (Q.min_spec a b) as [[Hlt E] | [Hle E]]; rewrite E; lra.
Qed.

(** Name every maximum and minimum of the goal and keep what is known of it. *)
Ltac name_extrema :=
  repeat match goal with
  | |- context [Math_max ?a ?b] =>
      let m := fresh "m" in
      let H := fresh "Hm" in
      pose proof (max_cases a b) as H;
      set (m := Math_max a b) in *; clearbody m;
      destruct H as (? & ? & [? | ?])
  | |- context [Math_min ?a ?b] =>
      let m := fresh "m" in
      let H := fresh "Hm" in
      pose proof (min_cases a b) as H;
      set (m := Math_min a b) in *; clearbody m;
      destruct H as (? & ? & [? | ?])
  end.

(** ** Easing *)

(** C9: [easeInOutCubic] maps 0 to 0, 1 to 1 and 1/2 to 1/2, and it is
    monotonically non-decreasing on the interval [0,1]. *)
Theorem easeInOutCubic_endpoints_monotone :
  easeInOutCubic 0 == 0 /\
  easeInOutCubic 1 == 1 /\
  easeInOutCubic (1 # 2) == 1 # 2 /\
  forall s t : Q, 0 <= s -> s <= t -> t <= 1 ->
    easeInOutCubic s <= easeInOutCubic t.
Proof.
  split; [reflexivity|]. split; [reflexivity|]. split; [reflexivity|].
  intros s t Hs Hst Ht. unfold easeInOutCubic, Math_pow3.
  destruct (lt_dec s (1 # 2)) as [Ls | Ls], (lt_dec t (1 # 2)) as [Lt | Lt];
    rewrite ?Qdiv_2.
  - pose proof (cube_monotone s t Hs Hst). lra.
  - assert (Hc : s * s * s <= (1 # 2) * (1 # 2) * (1 # 2))
      by (apply cube_monotone; lra).
    assert (Hd : (-2 * t + 2) * (-2 * t + 2) * (-2 * t + 2) <= 1 * 1 * 1)
      by (apply cube_monotone; lra).
    lra.
  - exfalso. lra.
  - assert (Hd : (-2 * t + 2) * (-2 * t + 2) * (-2 * t + 2)
                 <= (-2 * s + 2) * (-2 * s + 2) * (-2 * s + 2))
      by (apply cube_monotone; lra).
    lra.
Qed.

Lemma easeInOutCubic_endpoints_monotone_witness :
  easeInOutCubic (1 # 4) <= easeInOutCubic (3 # 4).
Proof.
  apply (proj2 (proj2 (proj2 easeInOutCubic_endpoints_monotone)) (1 # 4) (3 # 4));
    vm_compute; discriminate.
Defined.

(** ** Fixed-size box *)

(** C4, as the code has it: a box that fits in the bounds is moved, never
    resized, so that it lies inside [[0,W] x [0,H]]. *)
Theorem clampBoxToBounds_fitting_box_within (box : Rect) (W H : Q) :
  0 <= w box -> w box <= W -> 0 <= h box -> h box <= H ->
  w (ImageDisplay.clampBoxToBounds box W H) = w box /\
  h (ImageDisplay.clampBoxToBounds box W H) = h box /\
  within (ImageDisplay.clampBoxToBounds box W H) W H.
Proof.
  intros Hw0 HwW Hh0 HhH.
  split; [reflexivity|]. split; [reflexivity|].
  unfold within, ImageDisplay.clampBoxToBounds; cbn [x y w h].
  repeat match goal with
         | |- context [lt_dec ?a ?b] => destruct (lt_dec a b)
         | |- context [gt_dec ?a ?b] => destruct (gt_dec a b)
         end; repeat split; lra.
Qed.

Lemma clampBoxToBounds_fitting_box_within_witness :
  within (ImageDisplay.clampBoxToBounds
            {| x := 750; y := -10; w := 100; h := 75 |} 800 600) 800 600.
Proof.
  apply (clampBoxToBounds_fitting_box_within
           {| x := 750; y := -10; w := 100; h := 75 |} 800 600);
    vm_compute; discriminate.
Defined.

(** A box wider than the bounds ends at [W - w], left of 0. *)
Lemma clampBoxToBounds_oversize (box : Rect) (W H : Q) :
  W < w box -> x (ImageDisplay.clampBoxToBounds box W H) == W - w box.
Proof.
  intros Hbig. unfold ImageDisplay.clampBoxToBounds; cbn [x y w h].
  destruct (lt_dec (x box) 0);
    match goal with |- context [gt_dec ?a ?b] => destruct (gt_dec a b) end;
    lra.
Qed.

(** C4, as stated, fails for a box larger than the bounds: a 200 x 50 box
    in 100 x 100 bounds is put at x = -100, neither at 0 nor inside. *)
Lemma clampBoxToBounds_oversize_counterexample :
  let r := ImageDisplay.clampBoxToBounds
             {| x := 0; y := 0; w := 200; h := 50 |} 100 100 in
  x r == -100 /\ ~ x r == 0 /\ ~ within r 100 100.
Proof.
  cbv zeta. split; [reflexivity|]. split.
  - vm_compute. discriminate.
  - intros (Hx & _). vm_compute in Hx. apply Hx. reflexivity.
Qed.

(** ** Padding *)

(** C6, as the code has it: for a rectangle of non-negative extent and a
    ratio >= 0, the padded rectangle lies inside [[0,W] x [0,H]] whenever
    the grown rectangle meets the bounds, and it covers [r] whenever [r]
    lies inside the bounds. *)
Theorem paddedRect_within_and_contains (r : Rect) (ratio W H : Q) :
  0 <= ratio -> 0 <= w r -> 0 <= h r -> meets r ratio W H ->
  within (paddedRect ratio r W H) W H /\
  (within r W H -> contains (paddedRect ratio r W H) r).
Proof.
  intros Hr Hw Hh (HW & HH & Hx1 & Hx2 & Hy1 & Hy2).
  assert (Pw : 0 <= w r * ratio) by (apply Qmult_le_0_compat; lra).
  assert (Ph : 0 <= h r * ratio) by (apply Qmult_le_0_compat; lra).
  unfold within, contains, paddedRect; cbn [x y w h].
  name_extrema; (split; [|intros (? & ? & ? & ? & ? & ?)]); repeat split; lra.
Qed.

Lemma within_meets (r : Rect) (ratio W H : Q) :
  0 <= ratio -> within r W H -> meets r ratio W H.
Proof.
  intros Hr (? & ? & ? & ? & ? & ?).
  assert (Pw : 0 <= w r * ratio) by (apply Qmult_le_0_compat; lra).
  assert (Ph : 0 <= h r * ratio) by (apply Qmult_le_0_compat; lra).
  unfold meets. repeat split; lra.
Qed.

Lemma paddedRect_within_and_contains_witness :
  within (paddedRect (1 # 4) {| x := 350; y := 525 # 2; w := 100; h := 75 |} 800 600)
         800 600.
Proof.
  apply (proj1 (paddedRect_within_and_contains
                  {| x := 350; y := 525 # 2; w := 100; h := 75 |}
                  (1 # 4) 800 600
                  ltac:(vm_compute; discriminate)
                  ltac:(vm_compute; discriminate)
                  ltac:(vm_compute; discriminate)
                  ltac:(unfold meets; repeat split; vm_compute; discriminate))).
Defined.

(** The two edges that the cut fixes whatever the rectangle is. *)
Lemma paddedRect_edges (r : Rect) (ratio W H : Q) :
  0 <= x (paddedRect ratio r W H) /\ 0 <= y (paddedRect ratio r W H) /\
  x (paddedRect ratio r W H) + w (paddedRect ratio r W H) <= W /\
  y (paddedRect ratio r W H) + h (paddedRect ratio r W H) <= H.
Proof.
  unfold paddedRect; cbn [x y w h]. name_extrema; repeat split; lra.
Qed.

(** C6, as stated, fails for a rectangle right of the bounds: the padded
    rectangle starts at 197.5 with extent -97.5 in bounds of width 100. *)
Lemma paddedRect_outside_counterexample :
  let p := paddedRect (1 # 4) {| x := 200; y := 0; w := 10; h := 10 |} 100 100 in
  x p == 395 # 2 /\ w p == - (195 # 2) /\ 100 < x p /\ ~ within p 100 100.
Proof.
  cbv zeta. split; [reflexivity|]. split; [reflexivity|]. split; [reflexivity|].
  intros (_ & _ & Hw & _). vm_compute in Hw. apply Hw. reflexivity.
Qed.

(** ** Arrays *)

(** A list that ends with an element is not empty. *)
Lemma snoc_match {A B} (l : list A) (a : A) (x y : B) :
  match l ++ [a] with [] => x | _ :: _ => y end = y.
Proof. by destruct l. Qed.

Lemma take_min_length {A} (l : list A) (n : nat) :
  take (Nat.min n (length l)) l = take n l.
Proof.
  destruct (Nat.le_gt_cases n (length l)) as [Hle | Hgt].
  - by rewrite Nat.min_l.
  - rewrite Nat.min_r by lia. by rewrite !take_ge by lia.
Qed.

(** [l.slice(0, k)] keeps the first [k] entries. *)
Lemma slice_prefix {A} (l : list A) (k : Z) :
  (0 <= k)%Z -> slice l 0 k = take (Z.to_nat k) l.
Proof.
  intros Hk. unfold slice, relative_index.
  change (0 <? 0)%Z with false. cbn iota.
  destruct (k <? 0)%Z eqn:E; [lia|].
  change (Z.to_nat 0) with 0%nat.
  rewrite Nat.min_0_l, Nat.sub_0_r, drop_0.
  apply take_min_length.
Qed.

(** ** History: commit *)

(** C3: with the cursor behind the tip, committing a step keeps
    [steps[0..cursor]], drops the undone steps after it, appends the new
    step and moves the cursor to the new last index. *)
Theorem commit_truncates_then_appends (env : Browser) (s : Home.State)
    (enhanced : Src) (d : ImageDescription) (r : Rect) :
  Home.enhancedImageSrc s = Some enhanced ->
  truthy (Some enhanced) = true ->
  Home.newHistoryEntryData s = Some (d, r) ->
  (0 <= Home.historyIndex s < Z.of_nat (length (Home.history s)) - 1)%Z ->
  let s' := Home.handleEnhancementComplete env s in
  Home.history s'
  = take (S (Z.to_nat (Home.historyIndex s))) (Home.history s)
    ++ [mkStep enhanced (Some d) (Some r)] /\
  Home.historyIndex s' = (Home.historyIndex s + 1)%Z /\
  Home.historyIndex s' = (Z.of_nat (length (Home.history s')) - 1)%Z.
Proof.
  intros He Ht Hn Hi. cbv zeta.
  unfold Home.handleEnhancementComplete. rewrite He, Hn, Ht. cbn [negb].
  rewrite slice_prefix by lia.
  replace (Z.to_nat (Home.historyIndex s + 1)) with (S (Z.to_nat (Home.historyIndex s)))
    by lia.
  assert (Hlen : length (take (S (Z.to_nat (Home.historyIndex s))) (Home.history s))
                 = S (Z.to_nat (Home.historyIndex s)))
    by (rewrite length_take; lia).
  destruct (loadImage env enhanced); cbn; rewrite ?length_app, Hlen; cbn;
    repeat split; lia.
Qed.

(** The example of the specification: [A, B, C] at [B], commit [D]. *)
Lemma commit_truncates_then_appends_witness :
  Home.history (Home.handleEnhancementComplete sampleBrowser revealedState)
  = [stepA; stepB; stepD] /\
  Home.historyIndex (Home.handleEnhancementComplete sampleBrowser revealedState)
  = 2%Z.
Proof.
  destruct (commit_truncates_then_appends sampleBrowser revealedState
              (ObjectUrl 3) (mkDescription "D" None) sampleRect
              eq_refl eq_refl eq_refl ltac:(vm_compute; split; [discriminate|reflexivity]))
    as (Hh & Hi & _).
  split; [exact Hh | exact Hi].
Defined.

(** Confirming a selection already drops the undone steps. *)
Lemma startEnhancementProcess_truncates (env : Browser) (s : Home.State)
    (img : HTMLImageElement) (originalRect screenRect : Rect) (url : Src) :
  Home.image s = Some img ->
  (0 <= Home.historyIndex s < Z.of_nat (length (Home.history s)))%Z ->
  let s' := Home.startEnhancementProcess env originalRect screenRect url s in
  Home.history s' = take (S (Z.to_nat (Home.historyIndex s))) (Home.history s) /\
  Home.historyIndex s' = Home.historyIndex s.
Proof.
  intros Hi Hr. cbv zeta. unfold Home.startEnhancementProcess. rewrite Hi.
  destruct (gt_dec _ _);
    (destruct (Home.historyIndex s <? Z.of_nat (length (Home.history s)) - 1)%Z eqn:E;
     cbn; (split; [|done])).
  all: try (rewrite slice_prefix by lia; f_equal; lia).
  all: rewrite take_ge; [done | lia].
Qed.

(** ** History: regenerate *)

Lemma at_index_lookup {A} (l : list A) (i : Z) :
  (0 <= i)%Z -> at_index l i = l !! Z.to_nat i.
Proof. intros Hi. unfold at_index. destruct (i <? 0)%Z eqn:E; [lia | done]. Qed.

Lemma serviceEnhance_not_empty (cropped : Src) (prompts : list string)
    (response : GenerateContentResponse) :
  cropped <> EmptyUrl -> serviceEnhance cropped prompts response <> EmptyUrl.
Proof.
  intros Hc. unfold serviceEnhance, enhance_try.
  destruct prompts as [|p ps]; [done|].
  destruct response as [|[b|] [[|c cs]|] t]; try done.
  destruct (content c) as [contents|]; [|done].
  destruct (parts contents) as [l|]; [|done].
  revert cropped Hc. induction l as [|part l IH]; intros cropped Hc; [done|].
  cbn. apply IH. by destruct (inlineData part) as [[mime data]|].
Qed.

(** C2, as the code has it: when the regeneration goes through (canvases
    have a 2D context, every non-empty source decodes), the new history is
    [steps[0..cursor-1]] followed by the new step, which keeps the selection
    rectangle of the step it replaces; the steps before the cursor are
    unchanged, the steps beyond the cursor are dropped, and the cursor does
    not move. *)
Theorem regenerate_replaces_cursor_drops_suffix (env : Browser)
    (describeResponse : DescribeResponse) (enhanceResponse : GenerateContentResponse)
    (s : Home.State) (current : HistoryStep) (rect : Rect) :
  (0 < Home.historyIndex s)%Z ->
  Home.appState s <> ENHANCING ->
  Home.isGeneratingGif s = false ->
  Home.history s !! Z.to_nat (Home.historyIndex s) = Some current ->
  originalRect current = Some rect ->
  context2d env = true ->
  (forall u : Src, u <> EmptyUrl -> is_Some (decode env u)) ->
  (forall step, step ∈ Home.history s -> imageSrc step <> EmptyUrl) ->
  let s' := Home.handleRegenerate env describeResponse enhanceResponse s in
  (exists (enhancedSrc : Src) (d : ImageDescription),
     Home.history s'
     = take (Z.to_nat (Home.historyIndex s)) (Home.history s)
       ++ [mkStep enhancedSrc (Some d) (Some rect)]) /\
  (forall i : nat, (i < Z.to_nat (Home.historyIndex s))%nat ->
     Home.history s' !! i = Home.history s !! i) /\
  length (Home.history s') = S (Z.to_nat (Home.historyIndex s)) /\
  Home.historyIndex s' = Home.historyIndex s.
Proof.
  intros Hpos Hstate Hgif Hcur Hrect Hctx Hdec Hsrc. cbv zeta.
  assert (Hlt : (Z.to_nat (Home.historyIndex s) < length (Home.history s))%nat)
    by (eapply lookup_lt_Some; eauto).
  assert (Hprev : is_Some (Home.history s !! Z.to_nat (Home.historyIndex s - 1)))
    by (apply lookup_lt_is_Some; lia).
  destruct Hprev as [previous Hprev].
  assert (Hshape :
    exists (enhancedSrc : Src) (d : ImageDescription) (s1 : Home.State),
      Home.handleRegenerate env describeResponse enhanceResponse s = s1 /\
      Home.history s1
      = take (Z.to_nat (Home.historyIndex s)) (Home.history s)
        ++ [mkStep enhancedSrc (Some d) (Some rect)] /\
      Home.historyIndex s1 = Home.historyIndex s).
  { unfold Home.handleRegenerate, Home.blocked.
    destruct (Home.historyIndex s <=? 0)%Z eqn:E; [lia|].
    rewrite bool_decide_eq_false_2 by done. rewrite Hgif. cbn [orb].
    rewrite !at_index_lookup by lia. rewrite Hcur, Hrect, Hprev.
    unfold loadImage at 1.
    destruct (Hdec (imageSrc previous)) as [[nw nh] ->];
      [by eapply Hsrc, list_elem_of_lookup_2|].
    unfold Home.try_catch_finally, Home.regenerateBody, Home.describe,
      Home.enhance, Home.awaitImage, Home.bind, Home.update, Home.ret.
    cbn beta iota. unfold cropImage. rewrite Hctx.
    cbn beta iota delta [has_base64]. rewrite snoc_match. cbn beta iota.
    match goal with |- context [loadImage env (serviceEnhance ?c ?p ?r)] =>
      unfold loadImage at 1;
      destruct (Hdec (serviceEnhance c p r)) as [[ew eh] ->];
      [by apply serviceEnhance_not_empty|] end.
    cbn beta iota. rewrite slice_prefix by lia.
    match goal with |- context [loadImage env ?u] =>
      destruct (loadImage env u) end;
      cbn; do 3 eexists; (split; [reflexivity|]); cbn; done. }
  destruct Hshape as (enhancedSrc & d & s1 & -> & Hh & Hi).
  split; [by exists enhancedSrc, d|].
  assert (Hlen : length (take (Z.to_nat (Home.historyIndex s)) (Home.history s))
                 = Z.to_nat (Home.historyIndex s))
    by (rewrite length_take; lia).
  split; [|split; [|done]].
  - intros i Hi'. rewrite Hh, lookup_app_l by lia. by rewrite lookup_take_lt.
  - rewrite Hh, length_app, Hlen. cbn. lia.
Qed.

Lemma sampleBrowser_decodes (u : Src) :
  u <> EmptyUrl -> is_Some (decode sampleBrowser u).
Proof. destruct u; intros Hu; try done; cbn; eauto. Qed.

Lemma regenerate_replaces_cursor_drops_suffix_witness :
  length (Home.history
            (Home.handleRegenerate sampleBrowser DescribeRejected Rejected undoneState))
  = 2%nat.
Proof.
  apply (regenerate_replaces_cursor_drops_suffix sampleBrowser DescribeRejected
           Rejected undoneState stepB sampleRect
           ltac:(reflexivity)
           ltac:(discriminate)
           eq_refl eq_refl eq_refl eq_refl sampleBrowser_decodes).
  intros step Hin. apply list_elem_of_In in Hin. cbn in Hin.
  destruct Hin as [<- | [<- | [<- | []]]]; discriminate.
Defined.

(** C2, as stated, fails when there are steps beyond the cursor: with
    [A, B, C] and the cursor at [B], regenerating leaves two steps, and
    [C] at index 2 is gone. *)
Lemma regenerate_drops_redo_counterexample :
  let s' := Home.handleRegenerate sampleBrowser DescribeRejected Rejected undoneState in
  Home.history undoneState !! 2%nat = Some stepC /\
  Home.history s' !! 2%nat = None /\
  Home.history s' !! 0%nat = Some stepA /\
  length (Home.history s') = 2%nat /\
  Home.historyIndex s' = 1%Z.
Proof. vm_compute. repeat split. Qed.

(** ** Free-draw selections *)

(** C10: in free-draw mode a mouse-up on a selection narrower or lower
    than 10 screen pixels stages nothing and leaves the state of [Home]
    (staged selection, history, job, application state) as it was; the
    drawn selection and its start point are cleared. *)
Theorem small_free_draw_selection_discarded (props : ImageDisplay.Props)
    (canvas : option (Q * Q)) (d : ImageDisplay.State) (s : Home.State)
    (sel : Rect) :
  ImageDisplay.useFixedSelectionBox props = false ->
  ImageDisplay.selection d = Some sel ->
  w sel < 10 \/ h sel < 10 ->
  snd (ImageDisplay.handleMouseUp props canvas d) = None /\
  Home.mouseUp props canvas d s
  = (ImageDisplay.mkState (ImageDisplay.image d) None None, s).
Proof.
  intros Hfree Hsel Hsmall.
  unfold Home.mouseUp, ImageDisplay.handleMouseUp. rewrite Hfree, Hsel.
  destruct (ImageDisplay.image d) as [img|]; [|done].
  destruct (lt_dec (w sel) 10) as [|Hw]; [done|].
  destruct (lt_dec (h sel) 10) as [|Hh]; [done|].
  exfalso. destruct Hsmall; lra.
Qed.

Lemma small_free_draw_selection_discarded_witness :
  Home.mouseUp (ImageDisplay.mkProps false false (1 # 8)) (Some (1280, 720))
    (ImageDisplay.mkState (Some (mkImage (ObjectUrl 0) 800 600))
       (Some {| x := 40; y := 40; w := 120; h := 9 |}) (Some (40, 40)))
    stagedState
  = (ImageDisplay.mkState (Some (mkImage (ObjectUrl 0) 800 600)) None None,
     stagedState).
Proof.
  apply (small_free_draw_selection_discarded
           (ImageDisplay.mkProps false false (1 # 8)) (Some (1280, 720))
           (ImageDisplay.mkState (Some (mkImage (ObjectUrl 0) 800 600))
              (Some {| x := 40; y := 40; w := 120; h := 9 |}) (Some (40, 40)))
           stagedState {| x := 40; y := 40; w := 120; h := 9 |}
           eq_refl eq_refl ltac:(right; reflexivity)).
Defined.

(** ** Zoom sequence *)

Lemma length_flat_map_const {A B} (f : A -> list B) (l : list A) (c : nat) :
  (forall a, a ∈ l -> length (f a) = c) ->
  length (flat_map f l) = (length l * c)%nat.
Proof.
  induction l as [|a l IH]; intros Hf; [done|].
  cbn. rewrite length_app, IH, Hf; [lia | left | intros b Hb; apply Hf; by right].
Qed.

Lemma loop_count_zoomFrames : loop_count zoomFrames = 30%nat.
Proof. reflexivity. Qed.

Lemma loop_count_holdFrames : loop_count holdFrames = 15%nat.
Proof. reflexivity. Qed.

(** The frames of a run of blocks of equal length [c]: the [f]-th frame of
    the [i]-th block is at index [i * c + f]. *)
Lemma lookup_flat_map_blocks {B} (g : nat -> list B) (c n k i f : nat) :
  (forall j, (k <= j < k + n)%nat -> length (g j) = c) ->
  (i < n)%nat -> (f < c)%nat ->
  flat_map g (seq k n) !! (i * c + f)%nat = g (k + i)%nat !! f.
Proof.
  revert k i. induction n as [|n IH]; intros k i Hlen Hi Hf; [lia|].
  cbn [seq flat_map]. destruct i as [|i].
  - rewrite Nat.add_0_r. cbn [Nat.mul Nat.add].
    rewrite lookup_app_l; [done|]. rewrite Hlen; lia.
  - rewrite lookup_app_r by (rewrite Hlen; lia).
    rewrite Hlen by lia.
    replace (S i * c + f - c)%nat with (i * c + f)%nat by lia.
    rewrite IH; [|intros j Hj; apply Hlen; lia|lia|done].
    by replace (S k + i)%nat with (k + S i)%nat by lia.
Qed.

(** The pictures loaded for a history are those of its steps. *)
Lemma loaded_images_lookup (env : Browser) (history : list HistoryStep)
    (images : list HTMLImageElement) (i : nat) (step : HistoryStep)
    (image : HTMLImageElement) :
  mapM (fun step => loadImage env (imageSrc step)) history = Some images ->
  history !! i = Some step -> images !! i = Some image ->
  exists nw nh : Q,
    decode env (imageSrc step) = Some (nw, nh) /\
    image = mkImage (imageSrc step) nw nh.
Proof.
  intros Hm Hs Hi. apply mapM_Some_1 in Hm.
  pose proof (Forall2_lookup_lr _ _ _ _ _ _ Hm Hs Hi) as Hl. cbn in Hl.
  unfold loadImage in Hl.
  destruct (decode env (imageSrc step)) as [[nw nh]|]; [|done].
  exists nw, nh. split; [done | congruence].
Qed.

(** C8: for a history slice of k >= 2 steps whose pictures load and whose
    steps after the first carry a selection rectangle, the synthesizer
    returns exactly (k - 1) * (30 + 15) frames, and for every consecutive
    pair of steps they are, in order, 30 zoom frames (views into the picture
    of the first step of the pair) followed by 15 hold frames (the whole
    picture of its second step). *)
Theorem generateZoomGif_frame_count (env : Browser) (history : list HistoryStep) :
  (2 <= length history)%nat ->
  context2d env = true ->
  (forall step, step ∈ history -> is_Some (decode env (imageSrc step))) ->
  (forall (i : nat) step, (0 < i)%nat -> history !! i = Some step ->
     is_Some (originalRect step)) ->
  exists frames : list Frame,
    generateZoomGif env history = Ok frames /\
    length frames = ((length history - 1) * (30 + 15))%nat /\
    forall (i f : nat) (first second : HistoryStep),
      history !! i = Some first -> history !! S i = Some second ->
      (f < 30 + 15)%nat ->
      exists frame : Frame,
        frames !! (i * (30 + 15) + f)%nat = Some frame /\
        if (f <? 30)%nat
        then isZoomFrameOf (imageSrc first) frame
        else isHoldFrameOf (imageSrc second) frame.
Proof.
  intros Hk Hctx Hload Hrect. unfold generateZoomGif.
  destruct (length history <? 2)%nat eqn:E; [apply Nat.ltb_lt in E; lia|].
  assert (Himgs : is_Some (mapM (fun step => loadImage env (imageSrc step)) history)).
  { apply mapM_is_Some, Forall_forall. intros step Hin. cbn. unfold loadImage.
    destruct (Hload step Hin) as [[nw nh] ->]. eauto. }
  destruct Himgs as [images Himgs]. rewrite Himgs.
  pose proof (length_mapM _ _ _ Himgs) as Hlen.
  destruct (history !! 1%nat) as [step1|] eqn:H1;
    [|apply lookup_ge_None in H1; lia].
  destruct (Hrect 1%nat step1 ltac:(lia) H1) as [firstRect Hfirst].
  cbn [mbind option_bind]. rewrite Hfirst, Hctx. cbn [negb].
  eexists. split; [reflexivity|].
  match goal with |- context [pair_frames ?g images history] => set (gifHeight := g) end.
  (* the frames of one pair *)
  assert (Hpair : forall i a b step endRect,
            images !! i = Some a -> images !! S i = Some b ->
            history !! S i = Some step -> originalRect step = Some endRect ->
            pair_frames gifHeight images history i
            = map (zoom_frame gifHeight a (fullRect a) endRect) (seq 0 30)
              ++ map (fun _ => HoldFrame b gifWidth gifHeight frameDelay) (seq 0 15)).
  { intros i a b step endRect Ha Hb Hs He. unfold pair_frames.
    by rewrite Ha, Hb, Hs, He. }
  assert (Hblock : forall j, (0 <= j < 0 + (length images - 1))%nat ->
            length (pair_frames gifHeight images history j) = (30 + 15)%nat).
  { intros j Hj.
    destruct (lookup_lt_is_Some_2 images j ltac:(lia)) as [a Ha].
    destruct (lookup_lt_is_Some_2 images (S j) ltac:(lia)) as [b Hb].
    destruct (lookup_lt_is_Some_2 history (S j) ltac:(lia)) as [step Hs].
    destruct (Hrect (S j) step ltac:(lia) Hs) as [endRect He].
    rewrite (Hpair j a b step endRect) by done.
    by rewrite length_app, !length_map, !length_seq. }
  split.
  - rewrite (length_flat_map_const _ _ (30 + 15)), length_seq; [lia|].
    intros i Hi. apply elem_of_seq in Hi. apply Hblock. lia.
  - intros i f first second Hi Hs Hf.
    pose proof (lookup_lt_Some _ _ _ Hs) as Hlt.
    destruct (lookup_lt_is_Some_2 images i ltac:(lia)) as [a Ha].
    destruct (lookup_lt_is_Some_2 images (S i) ltac:(lia)) as [b Hb].
    destruct (loaded_images_lookup _ _ _ _ _ _ Himgs Hi Ha) as (aw & ah & _ & ->).
    destruct (loaded_images_lookup _ _ _ _ _ _ Himgs Hs Hb) as (bw & bh & _ & ->).
    destruct (Hrect (S i) second ltac:(lia) Hs) as [endRect He].
    rewrite (lookup_flat_map_blocks _ (30 + 15)) by (done || lia).
    rewrite Nat.add_0_l, (Hpair i _ _ second endRect) by done.
    destruct (Nat.ltb_spec f 30) as [Hzoom | Hhold].
    + eexists. split.
      * rewrite lookup_app_l by (rewrite length_map, length_seq; lia).
        rewrite list_lookup_fmap, lookup_seq_lt by lia. reflexivity.
      * reflexivity.
    + eexists. split.
      * rewrite lookup_app_r by (rewrite length_map, length_seq; lia).
        rewrite length_map, length_seq.
        rewrite list_lookup_fmap, lookup_seq_lt by lia. reflexivity.
      * reflexivity.
Qed.

Lemma generateZoomGif_frame_count_witness :
  exists frames : list Frame,
    generateZoomGif sampleBrowser [stepA; stepB; stepC] = Ok frames /\
    length frames = 90%nat /\
    (exists frame, frames !! 29%nat = Some frame /\ isZoomFrameOf (ObjectUrl 0) frame) /\
    (exists frame, frames !! 30%nat = Some frame /\ isHoldFrameOf (ObjectUrl 1) frame) /\
    (exists frame, frames !! 45%nat = Some frame /\ isZoomFrameOf (ObjectUrl 1) frame) /\
    (exists frame, frames !! 89%nat = Some frame /\ isHoldFrameOf (ObjectUrl 2) frame).
Proof.
  destruct (generateZoomGif_frame_count sampleBrowser [stepA; stepB; stepC]
              ltac:(cbn; lia) eq_refl) as (frames & Hgen & Hlen & Hkind).
  - intros step Hin. apply list_elem_of_In in Hin. cbn in Hin.
    destruct Hin as [<- | [<- | [<- | []]]]; vm_compute; eauto.
  - intros i step Hi Hl.
    destruct i as [|[|[|i]]]; [lia | | | done]; cbn in Hl;
      injection Hl as <-; vm_compute; eauto.
  - exists frames. split; [exact Hgen|]. split; [exact Hlen|].
    split; [exact (Hkind 0 29 stepA stepB eq_refl eq_refl ltac:(lia))%nat|].
    split; [exact (Hkind 0 30 stepA stepB eq_refl eq_refl ltac:(lia))%nat|].
    split; [exact (Hkind 1 0 stepB stepC eq_refl eq_refl ltac:(lia))%nat|].
    exact (Hkind 1 44 stepB stepC eq_refl eq_refl ltac:(lia))%nat.
Defined.

(** ** The enhancement run *)

Lemma serviceEnhance_fails (cropped : Src) (prompts : list string)
    (response : GenerateContentResponse) :
  enhance_fails response -> serviceEnhance cropped prompts response = cropped.
Proof.
  intros Hf. unfold serviceEnhance. destruct prompts; [done|].
  by destruct response as [|[b|] [[|c cs]|] t].
Qed.

(** What the Process button does to a loaded picture with a staged
    selection. *)
Lemma clickProcess_effect (env : Browser) (s : Home.State) (staged : Staged.t)
    (img : HTMLImageElement) :
  Home.appState s = LOADED ->
  Home.stagedSelection s = Some staged ->
  Home.image s = Some img ->
  (0 <= Home.historyIndex s < Z.of_nat (length (Home.history s)))%Z ->
  let s' := Home.clickProcess env s in
  Home.appState s' = ENHANCING /\
  Home.image s' = Some img /\
  Home.enhancementJob s'
  = Some (Job.mk (Staged.originalRect staged) (Staged.canvasDataUrl staged)
            (cropImage env img (Staged.originalRect staged)
               (w (Staged.originalRect staged)) (h (Staged.originalRect staged)) true)
            (Staged.screenRect staged)) /\
  is_Some (Home.finalEnhancementRect s') /\
  Home.history s' = take (S (Z.to_nat (Home.historyIndex s))) (Home.history s) /\
  Home.historyIndex s' = Home.historyIndex s /\
  Home.calls s' = Home.calls s.
Proof.
  intros Hst Hsel Himg Hidx. cbv zeta.
  unfold Home.clickProcess, Home.handleProcessClick, Home.startEnhancementProcess.
  rewrite Hst, Hsel, Himg.
  rewrite bool_decide_eq_true_2 by done.
  destruct (1 <=? length (Home.history s))%nat eqn:E;
    [|apply Nat.leb_gt in E; lia].
  cbn [andb].
  destruct (gt_dec _ _);
    destruct (Home.historyIndex s <? Z.of_nat (length (Home.history s)) - 1)%Z eqn:E2;
    cbn; rewrite ?slice_prefix by lia; repeat split; eauto.
  all: try (f_equal; lia).
  all: symmetry; apply take_ge; lia.
Qed.

(** What [runEnhancementJob] does when the picture returned by
    [serviceEnhance] decodes, at [nw] x [nh]. *)
Lemma runEnhancementJob_effect (env : Browser) (describeResponse : DescribeResponse)
    (enhanceResponse : GenerateContentResponse) (s : Home.State) (job : Job.t)
    (img : HTMLImageElement) (nw nh : Q) :
  Home.enhancementJob s = Some job ->
  Home.image s = Some img ->
  context2d env = true ->
  let rect := Job.originalRect job in
  let descs := descriptions_of (slice (Home.history s) 0 (Home.historyIndex s + 1)) in
  let d := serviceDescribeImage env (Job.canvasWithSelectionDataUrl job) descs
             describeResponse in
  let prompts := map prompt_or_empty descs ++ [prompt_or_empty d] in
  let out := serviceEnhance (enhancementInput img rect) prompts enhanceResponse in
  decode env out = Some (nw, nh) ->
  let s' := Home.runEnhancementJob env describeResponse enhanceResponse s in
  Home.appState s' = ENHANCED /\
  Home.enhancedImageSrc s' = Some (recropped img rect out nw nh) /\
  Home.pixelatedImageSrc s' = Some (Job.pixelatedSrc job) /\
  Home.newHistoryEntryData s' = Some (d, rect) /\
  Home.finalEnhancementRect s' = Home.finalEnhancementRect s /\
  Home.history s' = Home.history s /\
  Home.historyIndex s' = Home.historyIndex s /\
  Home.calls s'
  = Home.calls s
    ++ describeRequest (Job.canvasWithSelectionDataUrl job) descs
    ++ [EnhanceCall (enhancementInput img rect) prompts].
Proof.
  intros Hjob Himg Hctx rect descs d prompts out Hdec. cbv zeta.
  unfold Home.runEnhancementJob. rewrite Hjob, Himg.
  unfold Home.try_catch_finally, Home.enhancementBody, Home.describe,
    Home.enhance, Home.awaitImage, Home.bind, Home.update, Home.ret.
  unfold describeRequest.
  destruct (has_base64 (Job.canvasWithSelectionDataUrl job));
    cbn beta iota; rewrite snoc_match; cbn beta iota;
    unfold cropImage; rewrite Hctx;
    fold rect; fold descs; fold d; fold prompts;
    change (CropPng (src img) _ _ _ false) with (enhancementInput img rect);
    fold out; unfold loadImage; rewrite Hdec; cbn;
    repeat split; by rewrite <- ?app_assoc.
Qed.

(** The remote calls of a job do not depend on what comes back. *)
Lemma runEnhancementJob_calls (env : Browser) (describeResponse : DescribeResponse)
    (enhanceResponse : GenerateContentResponse) (s : Home.State) (job : Job.t)
    (img : HTMLImageElement) :
  Home.enhancementJob s = Some job ->
  Home.image s = Some img ->
  let descs := descriptions_of (slice (Home.history s) 0 (Home.historyIndex s + 1)) in
  exists (cropped : Src) (prompts : list string),
    Home.calls (Home.runEnhancementJob env describeResponse enhanceResponse s)
    = Home.calls s
      ++ describeRequest (Job.canvasWithSelectionDataUrl job) descs
      ++ [EnhanceCall cropped prompts].
Proof.
  intros Hjob Himg. cbv zeta.
  unfold Home.runEnhancementJob. rewrite Hjob, Himg.
  unfold Home.try_catch_finally, Home.enhancementBody, Home.enhancementFallback,
    Home.describe, Home.enhance, Home.awaitImage, Home.bind, Home.update, Home.ret,
    Home.reject.
  unfold describeRequest.
  destruct (has_base64 (Job.canvasWithSelectionDataUrl job));
    cbn beta iota; rewrite snoc_match; cbn beta iota;
    (match goal with |- context [loadImage env ?u] => destruct (loadImage env u) end);
    cbn; do 2 eexists; by rewrite <- ?app_assoc.
Qed.

Lemma handleEnhancementComplete_calls (env : Browser) (s : Home.State) :
  Home.calls (Home.handleEnhancementComplete env s) = Home.calls s.
Proof.
  unfold Home.handleEnhancementComplete.
  destruct (Home.enhancedImageSrc s) as [enhanced|]; [|done].
  destruct (Home.newHistoryEntryData s) as [[d r]|]; [|done].
  destruct (negb (truthy (Some enhanced))); [done|].
  by destruct (loadImage env enhanced).
Qed.

Lemma pixelDissolveComplete_calls (env : Browser) (s : Home.State) :
  Home.calls (Home.pixelDissolveComplete env s) = Home.calls s.
Proof.
  unfold Home.pixelDissolveComplete.
  repeat match goal with
         | |- context [if ?c then _ else _] => destruct c
         | |- context [match ?o ≫= loadImage env with _ => _ end] =>
             destruct (o ≫= loadImage env)
         end; try done; apply handleEnhancementComplete_calls.
Qed.

(** The reveal calls [onComplete] when it is rendered, its two pictures
    load and the canvases have a context. *)
Lemma pixelDissolveComplete_runs (env : Browser) (s : Home.State) (low high : Src) :
  Home.appState s = ENHANCED ->
  Home.pixelatedImageSrc s = Some low -> truthy (Some low) = true ->
  is_Some (decode env low) ->
  Home.enhancedImageSrc s = Some high -> truthy (Some high) = true ->
  is_Some (decode env high) ->
  is_Some (Home.finalEnhancementRect s) ->
  context2d env = true ->
  Home.pixelDissolveComplete env s = Home.handleEnhancementComplete env s.
Proof.
  intros Ha Hl Tl [[lw lh] Dl] Hh Th [[hw hh] Dh] Hf Hctx.
  unfold Home.pixelDissolveComplete. rewrite Ha, Hl, Hh, Tl, Th, Hctx.
  rewrite bool_decide_eq_true_2 by done. rewrite bool_decide_eq_true_2 by done.
  cbn [andb mbind option_bind]. unfold loadImage. by rewrite Dl, Dh.
Qed.

(** The commit at any cursor. *)
Lemma handleEnhancementComplete_history (env : Browser) (s : Home.State)
    (enhanced : Src) (d : ImageDescription) (r : Rect) :
  Home.enhancedImageSrc s = Some enhanced ->
  truthy (Some enhanced) = true ->
  Home.newHistoryEntryData s = Some (d, r) ->
  (0 <= Home.historyIndex s)%Z ->
  let s' := Home.handleEnhancementComplete env s in
  Home.history s'
  = take (S (Z.to_nat (Home.historyIndex s))) (Home.history s)
    ++ [mkStep enhanced (Some d) (Some r)] /\
  Home.historyIndex s'
  = Z.of_nat (length (take (S (Z.to_nat (Home.historyIndex s))) (Home.history s))).
Proof.
  intros He Ht Hn Hi. cbv zeta.
  unfold Home.handleEnhancementComplete. rewrite He, Hn, Ht. cbn [negb].
  rewrite slice_prefix by lia.
  replace (Z.to_nat (Home.historyIndex s + 1)) with (S (Z.to_nat (Home.historyIndex s)))
    by lia.
  by destruct (loadImage env enhanced).
Qed.

(** Both handlers of the display stage the PNG of the display canvas with
    the selection outlined on the shown picture. *)
Lemma staged_by_display_capture (env : Browser) (props : ImageDisplay.Props)
    (canvas : option (Q * Q)) (disp : ImageDisplay.State) (staged : Staged.t) :
  staged_by_display env props canvas disp staged ->
  exists shown : HTMLImageElement,
    ImageDisplay.image disp = Some shown /\
    Staged.canvasDataUrl staged = CanvasPng (src shown) (Staged.screenRect staged).
Proof.
  intros [(pos & disp' & Hdown) | (disp' & Hup)].
  - unfold ImageDisplay.handleMouseDown in Hdown.
    destruct (ImageDisplay.isEnhancing props); [done|].
    destruct (ImageDisplay.useFixedSelectionBox props); [|done].
    destruct (ImageDisplay.image disp) as [img|]; [|done].
    destruct canvas as [c|]; [|done].
    destruct (negb (context2d env)); [done|].
    repeat match type of Hdown with
           | context [lt_dec ?a ?b] => destruct (lt_dec a b); [done|]
           | context [gt_dec ?a ?b] => destruct (gt_dec a b); [done|]
           end.
    injection Hdown as _ <-. by exists img.
  - unfold ImageDisplay.handleMouseUp in Hup.
    destruct (ImageDisplay.useFixedSelectionBox props); [done|].
    destruct (ImageDisplay.selection disp) as [sel|]; [|by destruct (ImageDisplay.image disp)].
    destruct (ImageDisplay.image disp) as [img|]; [|done].
    destruct (lt_dec (w sel) 10); [done|].
    destruct (lt_dec (h sel) 10); [done|].
    destruct (ImageDisplay.isEnhancing props); [done|].
    destruct canvas as [c|]; [|done].
    injection Hup as _ <-. by exists img.
Qed.

(** C5, as the code has it: for a confirmed selection the describe service
    is called first, with the PNG of the whole display canvas on which the
    selection is outlined (the capture made when the selection was staged,
    not a crop of the selection), and with the descriptions of the steps up
    to and including the cursor, in order, null descriptions left out. *)
Theorem describe_receives_canvas_capture (env : Browser)
    (props : ImageDisplay.Props) (canvas : option (Q * Q))
    (disp : ImageDisplay.State) (describeResponse : DescribeResponse)
    (enhanceResponse : GenerateContentResponse) (s : Home.State)
    (staged : Staged.t) (img : HTMLImageElement) :
  staged_by_display env props canvas disp staged ->
  Home.appState s = LOADED ->
  Home.stagedSelection s = Some staged ->
  Home.image s = Some img ->
  (0 <= Home.historyIndex s < Z.of_nat (length (Home.history s)))%Z ->
  exists (shown : HTMLImageElement) (cropped : Src) (prompts : list string),
    ImageDisplay.image disp = Some shown /\
    Home.calls (Home.confirmAndEnhance env describeResponse enhanceResponse s)
    = Home.calls s
      ++ [DescribeCall (CanvasPng (src shown) (Staged.screenRect staged))
            (activeDescriptions s);
          EnhanceCall cropped prompts].
Proof.
  intros Hdisp Hst Hsel Himg Hidx.
  destruct (staged_by_display_capture _ _ _ _ _ Hdisp) as (shown & Hshown & Hurl).
  destruct (clickProcess_effect env s staged img Hst Hsel Himg Hidx)
    as (Ha & Hi & Hj & [fr Hf] & Hh & Hx & Hc).
  destruct (runEnhancementJob_calls env describeResponse enhanceResponse
              (Home.clickProcess env s) _ img Hj Hi) as (cropped & prompts & Hcalls).
  exists shown, cropped, prompts. split; [done|].
  unfold Home.confirmAndEnhance, Home.selectionAnimatorComplete.
  rewrite Hj, Hf, Ha. rewrite bool_decide_eq_true_2 by done.
  rewrite pixelDissolveComplete_calls, Hcalls, Hc.
  cbn [Job.canvasWithSelectionDataUrl].
  rewrite Hurl, Hh, Hx. rewrite slice_prefix by lia.
  unfold describeRequest. cbn [has_base64 app].
  unfold activeDescriptions.
  replace (Z.to_nat (Home.historyIndex s + 1)) with (S (Z.to_nat (Home.historyIndex s)))
    by lia.
  by rewrite take_take, Nat.min_id.
Qed.

Lemma sampleStaged_by_display :
  staged_by_display sampleBrowser sampleProps (Some (1280, 720)) sampleDisplay
    sampleStaged.
Proof. left. exists (640, 360), sampleDisplay. reflexivity. Qed.

(** The click of the sample stages the box of the specification's
    scenario: 100 x 75 at (350, 262.5). *)
Lemma sampleStaged_rect :
  x (Staged.originalRect sampleStaged) == 350 /\
  y (Staged.originalRect sampleStaged) == 525 # 2 /\
  w (Staged.originalRect sampleStaged) == 100 /\
  h (Staged.originalRect sampleStaged) == 75.
Proof. repeat split. Qed.

Lemma describe_receives_canvas_capture_witness :
  exists (shown : HTMLImageElement) (cropped : Src) (prompts : list string),
    ImageDisplay.image sampleDisplay = Some shown /\
    Home.calls (Home.confirmAndEnhance sampleBrowser DescribeRejected Rejected
                  clickedState)
    = Home.calls clickedState
      ++ [DescribeCall (CanvasPng (src shown) (Staged.screenRect sampleStaged))
            (activeDescriptions clickedState);
          EnhanceCall cropped prompts].
Proof.
  apply (describe_receives_canvas_capture sampleBrowser sampleProps
           (Some (1280, 720)) sampleDisplay DescribeRejected Rejected clickedState
           sampleStaged (mkImage (ObjectUrl 0) 800 600)
           sampleStaged_by_display eq_refl eq_refl eq_refl
           ltac:(vm_compute; split; [discriminate | reflexivity])).
Defined.

(** C5, as stated, fails: in the scenario of the specification the picture
    handed to the describe service is the capture of the display canvas, not
    a crop of any rectangle of any picture. *)
Lemma describe_not_given_crop_counterexample :
  exists (url : Src) (descs : list ImageDescription) (rest : list Call),
    Home.calls (Home.confirmAndEnhance sampleBrowser DescribeRejected Rejected
                  clickedState)
    = DescribeCall url descs :: rest /\
    url = CanvasPng (ObjectUrl 0) (Staged.screenRect sampleStaged) /\
    forall image rect tw th pixelated, url <> CropPng image rect tw th pixelated.
Proof.
  do 3 eexists. split; [vm_compute; reflexivity|]. split; [reflexivity|].
  intros image rect tw th pixelated. discriminate.
Qed.

(** C1, as the code has it: when the enhance call throws, is blocked or
    returns no candidates, [serviceEnhance] hands back its input; if that
    padded crop decodes, the picture to reveal is its 1024-wide re-crop at
    the selection (no model content is added); and when the selection
    animation ends and the reveal runs to its end, which takes that the
    pixelated preview and the re-crop both load, this picture is the step
    that gets committed: the history has one step more than the active
    slice and the cursor is at the new tip. *)
Theorem failed_enhance_commits_recrop_of_input (env : Browser)
    (describeResponse : DescribeResponse) (enhanceResponse : GenerateContentResponse)
    (s : Home.State) (staged : Staged.t) (img : HTMLImageElement) :
  enhance_fails enhanceResponse ->
  Home.appState s = LOADED ->
  Home.stagedSelection s = Some staged ->
  Home.image s = Some img ->
  (0 <= Home.historyIndex s < Z.of_nat (length (Home.history s)))%Z ->
  context2d env = true ->
  is_Some (decode env (enhancementInput img (Staged.originalRect staged))) ->
  let rect := Staged.originalRect staged in
  is_Some (decode env (CropPng (src img) rect (w rect) (h rect) true)) ->
  (forall nw nh : Q,
     decode env (enhancementInput img rect) = Some (nw, nh) ->
     is_Some (decode env (recropped img rect (enhancementInput img rect) nw nh))) ->
  let s' := Home.confirmAndEnhance env describeResponse enhanceResponse s in
  exists (nw nh : Q) (d : ImageDescription),
    decode env (enhancementInput img rect) = Some (nw, nh) /\
    Home.history s'
    = take (S (Z.to_nat (Home.historyIndex s))) (Home.history s)
      ++ [mkStep (recropped img rect (enhancementInput img rect) nw nh)
            (Some d) (Some rect)] /\
    has_model_content (recropped img rect (enhancementInput img rect) nw nh)
    = has_model_content (src img) /\
    length (Home.history s') = S (S (Z.to_nat (Home.historyIndex s))) /\
    Home.historyIndex s' = (Home.historyIndex s + 1)%Z /\
    Home.historyIndex s' = (Z.of_nat (length (Home.history s')) - 1)%Z.
Proof.
  intros Hfail Hst Hsel Himg Hidx Hctx Hdec rect Hlow Hhigh. cbv zeta.
  subst rect.
  destruct (clickProcess_effect env s staged img Hst Hsel Himg Hidx)
    as (Ha & Hi & Hj & [fr Hf] & Hh & Hx & Hc).
  destruct Hdec as [[nw nh] Hin].
  pose proof (runEnhancementJob_effect env describeResponse enhanceResponse
                (Home.clickProcess env s) _ img nw nh Hj Hi Hctx) as Hrun.
  cbv zeta in Hrun. cbn [Job.originalRect Job.canvasWithSelectionDataUrl Job.pixelatedSrc]
    in Hrun.
  rewrite serviceEnhance_fails in Hrun by done.
  destruct (Hrun Hin) as (Ra & Re & Rp & Rn & Rf & Rh & Ri & _). clear Hrun.
  match type of Rn with _ = Some (?d0, _) => exists nw, nh, d0 end.
  split; [done|].
  unfold Home.confirmAndEnhance, Home.selectionAnimatorComplete.
  rewrite Hj, Hf, Ha. rewrite bool_decide_eq_true_2 by done.
  unfold cropImage in Rp. rewrite Hctx in Rp.
  rewrite (pixelDissolveComplete_runs env _ _ _ Ra Rp eq_refl Hlow Re eq_refl
             (Hhigh nw nh Hin) ltac:(rewrite Rf, Hf; eauto) Hctx).
  edestruct (handleEnhancementComplete_history env
               (Home.runEnhancementJob env describeResponse enhanceResponse
                  (Home.clickProcess env s))) as [Ch Ci];
    [exact Re | reflexivity | exact Rn | rewrite Ri, Hx; lia |].
  rewrite Ch, Ci, Rh, Ri, Hh, Hx.
  rewrite take_take, Nat.min_id.
  assert (Hlen : length (take (S (Z.to_nat (Home.historyIndex s))) (Home.history s))
                 = S (Z.to_nat (Home.historyIndex s)))
    by (rewrite length_take; lia).
  rewrite length_app, Hlen. cbn [length].
  repeat split; lia.
Qed.

Lemma failed_enhance_commits_recrop_of_input_witness :
  exists (nw nh : Q) (d : ImageDescription),
    decode sampleBrowser
      (enhancementInput (mkImage (ObjectUrl 0) 800 600)
         (Staged.originalRect sampleStaged)) = Some (nw, nh) /\
    Home.history (Home.confirmAndEnhance sampleBrowser DescribeRejected Rejected
                    clickedState)
    = take (S (Z.to_nat (Home.historyIndex clickedState)))
        (Home.history clickedState)
      ++ [mkStep (recropped (mkImage (ObjectUrl 0) 800 600)
                    (Staged.originalRect sampleStaged)
                    (enhancementInput (mkImage (ObjectUrl 0) 800 600)
                       (Staged.originalRect sampleStaged)) nw nh)
            (Some d) (Some (Staged.originalRect sampleStaged))] /\
    has_model_content
      (recropped (mkImage (ObjectUrl 0) 800 600) (Staged.originalRect sampleStaged)
         (enhancementInput (mkImage (ObjectUrl 0) 800 600)
            (Staged.originalRect sampleStaged)) nw nh)
    = has_model_content (src (mkImage (ObjectUrl 0) 800 600)) /\
    length (Home.history (Home.confirmAndEnhance sampleBrowser DescribeRejected
                            Rejected clickedState))
    = S (S (Z.to_nat (Home.historyIndex clickedState))) /\
    Home.historyIndex (Home.confirmAndEnhance sampleBrowser DescribeRejected
                         Rejected clickedState)
    = (Home.historyIndex clickedState + 1)%Z /\
    Home.historyIndex (Home.confirmAndEnhance sampleBrowser DescribeRejected
                         Rejected clickedState)
    = (Z.of_nat (length (Home.history
                           (Home.confirmAndEnhance sampleBrowser DescribeRejected
                              Rejected clickedState))) - 1)%Z.
Proof.
  apply (failed_enhance_commits_recrop_of_input sampleBrowser DescribeRejected
           Rejected clickedState sampleStaged (mkImage (ObjectUrl 0) 800 600)
           I eq_refl eq_refl eq_refl
           ltac:(vm_compute; split; [discriminate | reflexivity])
           eq_refl ltac:(vm_compute; eauto) ltac:(vm_compute; eauto)
           ltac:(intros nw nh _; cbn; eauto)).
Defined.

(** The crop at twice the selection's size is what [runEnhancementJob]
    produces when its own body throws, which it does when the picture
    returned by [serviceEnhance] does not decode. *)
Lemma undecodable_result_gives_double_size_crop (env : Browser)
    (describeResponse : DescribeResponse) (enhanceResponse : GenerateContentResponse)
    (s : Home.State) (job : Job.t) (img : HTMLImageElement) :
  Home.enhancementJob s = Some job ->
  Home.image s = Some img ->
  context2d env = true ->
  let rect := Job.originalRect job in
  let descs := descriptions_of (slice (Home.history s) 0 (Home.historyIndex s + 1)) in
  let d := serviceDescribeImage env (Job.canvasWithSelectionDataUrl job) descs
             describeResponse in
  let prompts := map prompt_or_empty descs ++ [prompt_or_empty d] in
  decode env (serviceEnhance (enhancementInput img rect) prompts enhanceResponse)
  = None ->
  let s' := Home.runEnhancementJob env describeResponse enhanceResponse s in
  Home.appState s' = ENHANCED /\
  Home.enhancedImageSrc s' = Some (doubleSizeCrop img rect) /\
  Home.newHistoryEntryData s' = Some (d, rect).
Proof.
  intros Hjob Himg Hctx rect descs d prompts Hdec. cbv zeta.
  unfold Home.runEnhancementJob. rewrite Hjob, Himg.
  unfold Home.try_catch_finally, Home.enhancementBody, Home.enhancementFallback,
    Home.describe, Home.enhance, Home.awaitImage, Home.bind, Home.update, Home.ret,
    Home.reject.
  destruct (has_base64 (Job.canvasWithSelectionDataUrl job));
    cbn beta iota; rewrite snoc_match; cbn beta iota;
    unfold cropImage; rewrite Hctx;
    fold rect; fold descs; fold d; fold prompts;
    change (CropPng (src img) (paddedRect _ _ _ _) _ _ false)
      with (enhancementInput img rect);
    unfold loadImage; rewrite Hdec; cbn; done.
Qed.

(** C1, as stated, fails in the scenario of the specification (an
    800 x 600 picture, the 100 x 75 box at its centre, describe and enhance
    both rejected): the committed picture is the 1024 x 768 re-crop of the
    640 x 480 padded crop, not the 200 x 150 crop of the selection. *)
Lemma failed_enhance_not_double_size_counterexample :
  let img := mkImage (ObjectUrl 0) 800 600 in
  let rect := Staged.originalRect sampleStaged in
  let s' := Home.confirmAndEnhance sampleBrowser DescribeRejected Rejected
              clickedState in
  enhance_fails Rejected /\
  exists (step : HistoryStep) (inner : Src) (tw th iw ih : Q),
    last (Home.history s') = Some step /\
    imageSrc step <> doubleSizeCrop img rect /\
    imageSrc step = recropped img rect inner iw ih /\
    requestedSize (imageSrc step) = Some (tw, th) /\
    tw == 1024 /\ th == 768 /\ ~ tw == w rect * 2 /\
    requestedSize inner = Some (iw, ih) /\ iw == 640 /\ ih == 480 /\
    description step = Some fallbackDescription /\
    length (Home.history s') = 2%nat /\
    Home.historyIndex s' = 1%Z.
Proof.
  cbv zeta. split; [exact I|].
  set (img := mkImage (ObjectUrl 0) 800 600).
  set (rect := Staged.originalRect sampleStaged).
  set (padded := paddedRect (1 # 4) rect 800 600).
  set (iw := 512 * (1 + (1 # 4))).
  set (ih := Math_round
               (double_mul (512 * (1 + (1 # 4))) (paddedAspect (1 # 4) rect 800 600))).
  exists (mkStep (recropped img rect (enhancementInput img rect) iw ih)
            (Some fallbackDescription) (Some rect)),
    (enhancementInput img rect), 1024,
    (Math_round (double_mul 1024 (double_div (float64 (h rect)) (float64 (w rect))))),
    iw, ih.
  split; [vm_compute; reflexivity|].
  split; [discriminate|].
  split; [reflexivity|].
  split; [reflexivity|].
  split; [reflexivity|].
  split; [reflexivity|].
  split; [vm_compute; discriminate|].
  repeat split.
Qed.

(** ** Pixel reveal *)

Section PixelReveal.

Variable random : nat -> Q.
Variable mounted : nat -> bool.

(** [Math.random()] returns a number in [[0, 1)]. *)
Hypothesis random_range : forall k : nat, 0 <= random k /\ random k < 1.

(** The canvas stays mounted while the animation runs. *)
Hypothesis stays_mounted : forall n : nat, mounted n = true.

(** [Math.floor(Math.random() * (i + 1))] is an index in [[0, i]]. *)
Lemma random_index_range (call i : nat) :
  (Z.to_nat (Qfloor (random call * (inject_Z (Z.of_nat i) + 1))) <= i)%nat.
Proof.
  destruct (random_range call) as [H0 H1].
  set (n := inject_Z (Z.of_nat i) + 1).
  assert (Hi : 0 <= inject_Z (Z.of_nat i)).
  { change 0 with (inject_Z 0). rewrite <- Zle_Qle. lia. }
  assert (Hn : 0 < n) by (unfold n; lra).
  assert (Hup : random call * n < 1 * n)
    by (apply Qmult_lt_compat_r; assumption).
  assert (Hz : (Qfloor (random call * n) < Z.of_nat i + 1)%Z).
  { rewrite Zlt_Qlt. eapply Qle_lt_trans; [apply Qfloor_le|].
    rewrite inject_Z_plus. change (inject_Z 1) with 1. unfold n in *. lra. }
  lia.
Qed.

Lemma swap_in_range (a : list (option nat)) (i j : nat) :
  (i < length a)%nat -> (j < length a)%nat ->
  PixelDissolve.swap a i j
  = <[j := PixelDissolve.js_get a i]> (<[i := PixelDissolve.js_get a j]> a).
Proof.
  intros Hi Hj. unfold PixelDissolve.swap, PixelDissolve.js_set.
  destruct (Nat.ltb_spec i (length a)); [|lia].
  rewrite length_insert.
  destruct (Nat.ltb_spec j (length a)); [done|lia].
Qed.

Lemma swap_length (a : list (option nat)) (i j : nat) :
  (i < length a)%nat -> (j < length a)%nat ->
  length (PixelDissolve.swap a i j) = length a.
Proof. intros Hi Hj. by rewrite swap_in_range, !length_insert. Qed.

(** A swap inside the array keeps every entry of the array. *)
Lemma swap_elem_of (a : list (option nat)) (i j : nat) (v : option nat) :
  (i < length a)%nat -> (j < length a)%nat ->
  v ∈ a -> v ∈ PixelDissolve.swap a i j.
Proof.
  intros Li Lj Hv. rewrite swap_in_range by done.
  apply list_elem_of_lookup in Hv as [k Hk].
  apply list_elem_of_lookup. unfold PixelDissolve.js_get.
  destruct (decide (k = i)) as [-> | Hki].
  - (* the entry that was at [i] is now at [j] *)
    exists j. rewrite list_lookup_insert_eq by (by rewrite length_insert).
    by rewrite Hk.
  - destruct (decide (k = j)) as [-> | Hkj].
    + (* the entry that was at [j] is now at [i] *)
      exists i. rewrite list_lookup_insert_ne by done.
      rewrite list_lookup_insert_eq by done. by rewrite Hk.
    + exists k. by rewrite !list_lookup_insert_ne by done.
Qed.

(** The loop entered at an index inside the array keeps its length and
    its entries. *)
Lemma shuffle_from_keeps (i call : nat) (a : list (option nat)) :
  (i < length a \/ i = 0)%nat ->
  length (PixelDissolve.shuffle_from random i call a) = length a /\
  forall v, v ∈ a -> v ∈ PixelDissolve.shuffle_from random i call a.
Proof.
  revert call a. induction i as [|i IH]; intros call a Hi; [done|].
  assert (Li : (S i < length a)%nat) by lia.
  pose proof (random_index_range call (S i)) as Hj.
  set (j := Z.to_nat (Qfloor (random call * (inject_Z (Z.of_nat (S i)) + 1)))) in *.
  assert (Lj : (j < length a)%nat) by lia.
  cbn [PixelDissolve.shuffle_from]. fold j.
  destruct (IH (S call) (PixelDissolve.swap a (S i) j)) as [Hlen Hin].
  { rewrite swap_length by done. lia. }
  rewrite Hlen, swap_length by done. split; [done|].
  intros v Hv. by apply Hin, swap_elem_of.
Qed.

(** The shuffled array is a rearrangement of [0, 1, ..., N-1]. *)
Lemma shuffle_permutation (totalPixels : nat) :
  PixelDissolve.shuffle random totalPixels ≡ₚ map Some (seq 0 totalPixels).
Proof.
  unfold PixelDissolve.shuffle.
  destruct (shuffle_from_keeps (totalPixels - 1) 0 (map Some (seq 0 totalPixels)))
    as [Hlen Hin].
  { rewrite length_map, length_seq. lia. }
  symmetry. apply submseteq_length_Permutation.
  - apply NoDup_submseteq; [|exact Hin].
    apply (NoDup_fmap_2 Some), NoDup_seq.
  - by rewrite Hlen.
Qed.

Lemma copy_channel_spec (high low : list Byte.byte) (k : nat) :
  (k < length low)%nat -> (k < length high)%nat ->
  length (PixelDissolve.copy_channel high k low) = length low /\
  forall i : nat,
    PixelDissolve.copy_channel high k low !! i
    = if decide (i = k) then high !! i else low !! i.
Proof.
  intros Hl Hh. unfold PixelDissolve.copy_channel.
  destruct (lookup_lt_is_Some_2 high k Hh) as [v Hv]. rewrite Hv.
  split; [apply length_insert|].
  intros i. destruct (decide (i = k)) as [-> | Hne].
  - by rewrite list_lookup_insert_eq.
  - by rewrite list_lookup_insert_ne.
Qed.

(** Revealing pixel [p] copies its four channels and nothing else. *)
Lemma reveal_spec (high low : list Byte.byte) (pixelIndices : list (option nat))
    (i p : nat) :
  PixelDissolve.js_get pixelIndices i = Some p ->
  (p * 4 + 3 < length low)%nat ->
  length high = length low ->
  length (PixelDissolve.reveal high pixelIndices low i) = length low /\
  forall k : nat,
    PixelDissolve.reveal high pixelIndices low i !! k
    = if decide (p * 4 <= k <= p * 4 + 3)%nat then high !! k else low !! k.
Proof.
  intros Hget Hlow Hlen. unfold PixelDissolve.reveal. rewrite Hget. cbv zeta.
  rewrite Hlen. destruct (Nat.ltb_spec (p * 4 + 3) (length low)); [|lia].
  cbn [andb].
  destruct (copy_channel_spec high low (p * 4)) as [L0 K0]; [lia | lia |].
  destruct (copy_channel_spec high
              (PixelDissolve.copy_channel high (p * 4) low) (p * 4 + 1))
    as [L1 K1]; [lia | lia |].
  destruct (copy_channel_spec high
              (PixelDissolve.copy_channel high (p * 4 + 1)
                 (PixelDissolve.copy_channel high (p * 4) low)) (p * 4 + 2))
    as [L2 K2]; [lia | lia |].
  destruct (copy_channel_spec high
              (PixelDissolve.copy_channel high (p * 4 + 2)
                 (PixelDissolve.copy_channel high (p * 4 + 1)
                    (PixelDissolve.copy_channel high (p * 4) low))) (p * 4 + 3))
    as [L3 K3]; [lia | lia |].
  split; [lia|].
  intros k. rewrite K3, K2, K1, K0.
  repeat case_decide; try done; lia.
Qed.

(** After a run of reveals, a channel holds the high-detail value if it
    held it before or if its pixel was among those revealed. *)
Lemma foldl_reveal_agrees (high : list Byte.byte) (pixelIndices : list (option nat))
    (totalPixels : nat) (indices : list nat) (low : list Byte.byte) :
  length high = (4 * totalPixels)%nat ->
  length low = (4 * totalPixels)%nat ->
  (forall i, i ∈ indices ->
     exists p, PixelDissolve.js_get pixelIndices i = Some p /\ (p < totalPixels)%nat) ->
  let result := foldl (PixelDissolve.reveal high pixelIndices) low indices in
  length result = (4 * totalPixels)%nat /\
  forall k : nat,
    low !! k = high !! k \/
    (exists i p, i ∈ indices /\ PixelDissolve.js_get pixelIndices i = Some p /\
                 (p * 4 <= k <= p * 4 + 3)%nat) ->
    result !! k = high !! k.
Proof.
  intros Hhigh. revert low.
  induction indices as [|i indices IH]; intros low Hlow Hdef; cbv zeta.
  - split; [done|]. intros k [Hk | (i & p & Hi & _)]; [done|].
    by apply elem_of_nil in Hi.
  - cbn [foldl].
    destruct (Hdef i ltac:(left)) as (p & Hget & Hp).
    destruct (reveal_spec high low pixelIndices i p Hget) as [Rlen Rk]; [lia | lia |].
    destruct (IH (PixelDissolve.reveal high pixelIndices low i)) as [Hlen Hk].
    { lia. }
    { intros i' Hi'. apply Hdef. by right. }
    split; [exact Hlen|].
    intros k Hcase. apply Hk. rewrite Rk.
    destruct Hcase as [Hsame | (i' & p' & Hi' & Hget' & Hrange)].
    + left. by case_decide.
    + apply elem_of_cons in Hi' as [-> | Hi'].
      * left. rewrite Hget in Hget'. injection Hget' as <-.
        by rewrite decide_True.
      * right. by exists i', p'.
Qed.

(** With enough frames the animation runs to its end: every entry from
    [currentPixel] on has been revealed, the high-detail picture is on the
    canvas and [onComplete] was called once more. *)
Lemma animate_completes (high : list Byte.byte) (pixelIndices : list (option nat))
    (totalPixels fuel frame : nat) (st : PixelDissolve.Anim) :
  (PixelDissolve.currentPixel st <= totalPixels)%nat ->
  (totalPixels - PixelDissolve.currentPixel st < fuel)%nat ->
  PixelDissolve.animate mounted fuel totalPixels high pixelIndices frame st
  = Some (PixelDissolve.mkAnim
            (foldl (PixelDissolve.reveal high pixelIndices) (PixelDissolve.lowData st)
               (seq (PixelDissolve.currentPixel st)
                  (totalPixels - PixelDissolve.currentPixel st)))
            high totalPixels (S (PixelDissolve.completed st))).
Proof.
  revert frame st. induction fuel as [|fuel IH]; intros frame st Hle Hfuel; [lia|].
  cbn [PixelDissolve.animate]. rewrite stays_mounted. cbn [negb].
  destruct (Nat.leb_spec totalPixels (PixelDissolve.currentPixel st)) as [Hdone | Hmore].
  - replace (totalPixels - PixelDissolve.currentPixel st)%nat with 0%nat by lia.
    cbn. do 2 f_equal. lia.
  - cbv zeta.
    set (c := PixelDissolve.currentPixel st) in *.
    set (e := Nat.min (c + PixelDissolve.pixelsPerFrame totalPixels) totalPixels).
    assert (He : (c < e <= totalPixels)%nat)
      by (unfold e, PixelDissolve.pixelsPerFrame; lia).
    rewrite IH; cbn [PixelDissolve.currentPixel PixelDissolve.lowData
                       PixelDissolve.completed]; [|lia|lia].
    do 2 f_equal.
    replace (totalPixels - c)%nat with ((e - c) + (totalPixels - e))%nat by lia.
    rewrite seq_app, foldl_app. do 2 f_equal. lia.
Qed.

(** C7: for two rasters of N = width * height pixels, the shuffled index
    array is a bijection on [[0, N)) (a rearrangement of 0 .. N-1 without
    repetition, containing exactly the indices below N), and the animation
    completes: it calls [onComplete] once, and then the working buffer and
    the canvas both equal the high-detail raster. *)
Theorem pixel_reveal_permutation_and_completion (width height fuel : nat)
    (low high : list Byte.byte) :
  length low = (4 * (width * height))%nat ->
  length high = (4 * (width * height))%nat ->
  (width * height < fuel)%nat ->
  let totalPixels := (width * height)%nat in
  let pixelIndices := PixelDissolve.shuffle random totalPixels in
  pixelIndices ≡ₚ map Some (seq 0 totalPixels) /\
  NoDup pixelIndices /\
  (forall p : nat, Some p ∈ pixelIndices <-> (p < totalPixels)%nat) /\
  exists st : PixelDissolve.Anim,
    PixelDissolve.startAnimation random mounted fuel width height low high = Some st /\
    PixelDissolve.lowData st = high /\
    PixelDissolve.shown st = high /\
    PixelDissolve.completed st = 1%nat.
Proof.
  intros Hlow Hhigh Hfuel totalPixels pixelIndices.
  pose proof (shuffle_permutation totalPixels) as Hperm. fold pixelIndices in Hperm.
  assert (Hmem : forall p : nat, Some p ∈ pixelIndices <-> (p < totalPixels)%nat).
  { intros p. rewrite Hperm, list_elem_of_fmap. split.
    - intros (q & [= ->] & Hq). apply elem_of_seq in Hq. lia.
    - intros Hp. exists p. split; [done|]. apply elem_of_seq. lia. }
  split; [exact Hperm|].
  split; [rewrite Hperm; apply (NoDup_fmap_2 Some), NoDup_seq|].
  split; [exact Hmem|].
  unfold PixelDissolve.startAnimation. fold totalPixels. fold pixelIndices.
  rewrite animate_completes
    by (cbn [PixelDissolve.currentPixel]; lia).
  cbn [PixelDissolve.currentPixel PixelDissolve.lowData PixelDissolve.completed].
  rewrite Nat.sub_0_r.
  eexists. split; [reflexivity|].
  cbn [PixelDissolve.lowData PixelDissolve.shown PixelDissolve.completed].
  split; [|done].
  assert (Hlenp : length pixelIndices = totalPixels)
    by (rewrite Hperm, length_map, length_seq; done).
  destruct (foldl_reveal_agrees high pixelIndices totalPixels (seq 0 totalPixels) low)
    as [Rlen Rk]; [done | done | |].
  { intros i Hi. apply elem_of_seq in Hi.
    destruct (lookup_lt_is_Some_2 pixelIndices i ltac:(lia)) as [v Hv].
    assert (Hin : v ∈ pixelIndices) by (by eapply list_elem_of_lookup_2).
    rewrite Hperm in Hin. apply list_elem_of_fmap in Hin as (p & -> & Hp).
    apply elem_of_seq in Hp. exists p.
    unfold PixelDissolve.js_get. rewrite Hv. split; [done | lia]. }
  apply list_eq. intros k.
  destruct (Nat.lt_ge_cases k (4 * totalPixels)) as [Hk | Hk].
  - apply Rk. right.
    assert (Hp : (k / 4 < totalPixels)%nat)
      by (apply Nat.Div0.div_lt_upper_bound; lia).
    apply Hmem, list_elem_of_lookup in Hp as [i Hi].
    exists i, (k / 4)%nat. split; [|split].
    + apply elem_of_seq. apply lookup_lt_Some in Hi. lia.
    + unfold PixelDissolve.js_get. by rewrite Hi.
    + pose proof (Nat.div_mod_eq k 4). pose proof (Nat.mod_upper_bound k 4). lia.
  - rewrite !lookup_ge_None_2; [done | lia | lia].
Qed.

End PixelReveal.

Lemma sampleRandom_range (k : nat) : 0 <= sampleRandom k /\ sampleRandom k < 1.
Proof. unfold sampleRandom. by destruct (Nat.even k). Qed.

Lemma pixel_reveal_permutation_and_completion_witness :
  PixelDissolve.shuffle sampleRandom 4 ≡ₚ map Some (seq 0 4) /\
  exists st : PixelDissolve.Anim,
    PixelDissolve.startAnimation sampleRandom (fun _ => true) 5 2 2
      sampleLow sampleHigh = Some st /\
    PixelDissolve.lowData st = sampleHigh /\
    PixelDissolve.shown st = sampleHigh /\
    PixelDissolve.completed st = 1%nat.
Proof.
  pose proof (pixel_reveal_permutation_and_completion sampleRandom (fun _ => true)
                sampleRandom_range (fun _ => eq_refl) 2 2 5 sampleLow sampleHigh
                eq_refl eq_refl ltac:(cbn; lia)) as H.
  cbv zeta in H. destruct H as (Hperm & _ & _ & Hrun).
  split; [exact Hperm | exact Hrun].
Defined.

(** The shuffle of the sample, and the array a number outside [[0, 1)]
    would give: the write past the end leaves holes. *)
Example shuffle_sample :
  PixelDissolve.shuffle sampleRandom 4 = [Some 2; Some 1; Some 0; Some 3]%nat.
Proof. reflexivity. Qed.

Example shuffle_out_of_contract :
  PixelDissolve.shuffle (fun _ => 3 # 2) 4
  = [Some 0; None; None; Some 1; Some 2; None; Some 3]%nat.
Proof. reflexivity. Qed.

(** * Further properties of the code *)

(** ** Easing and interpolation, continued *)

Lemma cube_nonneg (a : Q) : 0 <= a -> 0 <= a * a * a.
Proof.
  intros Ha. apply Qmult_le_0_compat; [apply Qmult_le_0_compat|]; lra.
Qed.

Lemma easeInOutCubic_bounds (t : Q) :
  0 <= t -> t <= 1 -> 0 <= easeInOutCubic t /\ easeInOutCubic t <= 1.
Proof.
  intros H0 H1. unfold easeInOutCubic, Math_pow3.
  destruct (lt_dec t (1 # 2)) as [Lt | Lt]; rewrite ?Qdiv_2.
  - pose proof (cube_nonneg t H0).
    assert (t * t * t <= (1 # 2) * (1 # 2) * (1 # 2)) by (apply cube_monotone; lra).
    split; lra.
  - assert (0 <= (-2 * t + 2) * (-2 * t + 2) * (-2 * t + 2))
      by (apply cube_nonneg; lra).
    assert ((-2 * t + 2) * (-2 * t + 2) * (-2 * t + 2) <= 1 * 1 * 1)
      by (apply cube_monotone; lra).
    split; lra.
Qed.

(** X1: on the interval [0,1] the easing function takes its values in
    [0,1], so an eased frame fraction is again a fraction. *)
Theorem easeInOutCubic_unit_interval (t : Q) :
  0 <= t -> t <= 1 -> 0 <= easeInOutCubic t /\ easeInOutCubic t <= 1.
Proof. apply easeInOutCubic_bounds. Qed.

Lemma easeInOutCubic_unit_interval_witness :
  0 <= easeInOutCubic (1 # 3) /\ easeInOutCubic (1 # 3) <= 1.
Proof.
  apply (easeInOutCubic_unit_interval (1 # 3)); vm_compute; discriminate.
Defined.

(** A value between two bounds, moved a fraction of the way to another
    such value, stays between the bounds. *)
Lemma mix_between (a b lo hi t : Q) :
  0 <= t -> t <= 1 -> lo <= a -> a <= hi -> lo <= b -> b <= hi ->
  lo <= a + (b - a) * t /\ a + (b - a) * t <= hi.
Proof.
  intros Ht0 Ht1 Ha1 Ha2 Hb1 Hb2.
  assert (P1 : 0 <= (1 - t) * (a - lo)) by (apply Qmult_le_0_compat; lra).
  assert (P2 : 0 <= t * (b - lo)) by (apply Qmult_le_0_compat; lra).
  assert (P3 : 0 <= (1 - t) * (hi - a)) by (apply Qmult_le_0_compat; lra).
  assert (P4 : 0 <= t * (hi - b)) by (apply Qmult_le_0_compat; lra).
  split; lra.
Qed.

Lemma interpolateRect_within (a b : Rect) (t W H : Q) :
  0 <= t -> t <= 1 -> within a W H -> within b W H ->
  within (interpolateRect a b t) W H.
Proof.
  intros Ht0 Ht1 (A1 & A2 & A3 & A4 & A5 & A6) (B1 & B2 & B3 & B4 & B5 & B6).
  unfold within, interpolateRect; cbn [x y w h].
  destruct (mix_between (x a) (x b) 0 W t
              ltac:(lra) ltac:(lra) ltac:(lra) ltac:(lra) ltac:(lra) ltac:(lra)) as [X1 _].
  destruct (mix_between (y a) (y b) 0 H t
              ltac:(lra) ltac:(lra) ltac:(lra) ltac:(lra) ltac:(lra) ltac:(lra)) as [Y1 _].
  destruct (mix_between (w a) (w b) 0 W t
              ltac:(lra) ltac:(lra) ltac:(lra) ltac:(lra) ltac:(lra) ltac:(lra)) as [W1 _].
  destruct (mix_between (h a) (h b) 0 H t
              ltac:(lra) ltac:(lra) ltac:(lra) ltac:(lra) ltac:(lra) ltac:(lra)) as [H1 _].
  destruct (mix_between (x a + w a) (x b + w b) 0 W t
              ltac:(lra) ltac:(lra) ltac:(lra) ltac:(lra) ltac:(lra) ltac:(lra)) as [_ X2].
  destruct (mix_between (y a + h a) (y b + h b) 0 H t
              ltac:(lra) ltac:(lra) ltac:(lra) ltac:(lra) ltac:(lra) ltac:(lra)) as [_ Y2].
  repeat split; lra.
Qed.

(** Moving from a rectangle towards one it covers gives a rectangle that
    still covers the target. *)
Lemma interpolateRect_contains (a b : Rect) (t : Q) :
  0 <= t -> t <= 1 -> contains a b -> contains (interpolateRect a b t) b.
Proof.
  intros Ht0 Ht1 (C1 & C2 & C3 & C4).
  unfold contains, interpolateRect; cbn [x y w h].
  destruct (mix_between (x a) (x b) (x a) (x b) t
              ltac:(lra) ltac:(lra) ltac:(lra) ltac:(lra) ltac:(lra) ltac:(lra)) as [_ X2].
  destruct (mix_between (y a) (y b) (y a) (y b) t
              ltac:(lra) ltac:(lra) ltac:(lra) ltac:(lra) ltac:(lra) ltac:(lra)) as [_ Y2].
  destruct (mix_between (x a + w a) (x b + w b) (x b + w b) (x a + w a) t
              ltac:(lra) ltac:(lra) ltac:(lra) ltac:(lra) ltac:(lra) ltac:(lra))
    as [X3 _].
  destruct (mix_between (y a + h a) (y b + h b) (y b + h b) (y a + h a) t
              ltac:(lra) ltac:(lra) ltac:(lra) ltac:(lra) ltac:(lra) ltac:(lra))
    as [Y3 _].
  repeat split; lra.
Qed.

(** Moving from a rectangle towards one it covers stays inside the
    rectangle one started from. *)
Lemma interpolateRect_covered (a b : Rect) (t : Q) :
  0 <= t -> t <= 1 -> contains a b -> contains a (interpolateRect a b t).
Proof.
  intros Ht0 Ht1 (C1 & C2 & C3 & C4).
  unfold contains, interpolateRect; cbn [x y w h].
  destruct (mix_between (x a) (x b) (x a) (x b) t
              ltac:(lra) ltac:(lra) ltac:(lra) ltac:(lra) ltac:(lra) ltac:(lra)) as [X1 _].
  destruct (mix_between (y a) (y b) (y a) (y b) t
              ltac:(lra) ltac:(lra) ltac:(lra) ltac:(lra) ltac:(lra) ltac:(lra)) as [Y1 _].
  destruct (mix_between (x a + w a) (x b + w b) (x b + w b) (x a + w a) t
              ltac:(lra) ltac:(lra) ltac:(lra) ltac:(lra) ltac:(lra) ltac:(lra))
    as [_ X3].
  destruct (mix_between (y a + h a) (y b + h b) (y b + h b) (y a + h a) t
              ltac:(lra) ltac:(lra) ltac:(lra) ltac:(lra) ltac:(lra) ltac:(lra))
    as [_ Y3].
  repeat split; lra.
Qed.

(** X2: [interpolateRect] returns its first rectangle at t = 0; for t in
    [0,1] the interpolation of two rectangles lying inside [[0,W] x [0,H]]
    lies inside it as well, and when the first rectangle covers the second
    the interpolated one lies between them: the first covers it and it
    covers the second. *)
Theorem interpolateRect_start_and_bounds (a b : Rect) (t W H : Q) :
  0 <= t -> t <= 1 -> within a W H -> within b W H ->
  Rect_eq (interpolateRect a b 0) a /\
  within (interpolateRect a b t) W H /\
  (contains a b ->
   contains a (interpolateRect a b t) /\ contains (interpolateRect a b t) b).
Proof.
  intros Ht0 Ht1 Ha Hb.
  split; [|split].
  - unfold Rect_eq, interpolateRect; cbn [x y w h]. repeat split; lra.
  - by apply interpolateRect_within.
  - intros Hc. split;
      [by apply interpolateRect_covered | by apply interpolateRect_contains].
Qed.

Lemma interpolateRect_start_and_bounds_witness :
  within (interpolateRect {| x := 0; y := 0; w := 800; h := 600 |} sampleRect (1 # 2))
         800 600 /\
  contains (interpolateRect {| x := 0; y := 0; w := 800; h := 600 |} sampleRect (1 # 2))
           sampleRect.
Proof.
  pose proof (interpolateRect_start_and_bounds
                {| x := 0; y := 0; w := 800; h := 600 |} sampleRect (1 # 2) 800 600
                ltac:(vm_compute; discriminate) ltac:(vm_compute; discriminate)
                ltac:(unfold within; repeat split; vm_compute; discriminate)
                ltac:(unfold within; repeat split; vm_compute; discriminate))
    as (_ & Hin & Hbetween).
  split; [exact Hin|].
  apply Hbetween. unfold contains. repeat split; vm_compute; discriminate.
Defined.

(** ** Zoom sequence, continued *)


Lemma Qdiv_nonneg (a b : Q) : 0 <= a -> 0 <= b -> 0 <= a / b.
Proof.
  intros Ha Hb. unfold Qdiv. apply Qmult_le_0_compat; [done|].
  by apply Qinv_le_0_compat.
Qed.




(** Where the doubles matter: for the selection 25.6 x 10.1 at (300, 300)
    of a 4000 x 3000 picture the padded crop is exactly 640 x 252.5; the
    code, on the doubles nearest to these numbers, arrives just below and
    makes the canvas 252 high. *)
Example paddedAspect_sample :
  let rect := {| x := 300; y := 300; w := 256 # 10; h := 101 # 10 |} in
  let padded := paddedRect (1 # 4) rect 4000 3000 in
  640 * (h padded / w padded) == 505 # 2 /\
  Math_round (double_mul 640 (paddedAspect (1 # 4) rect 4000 3000)) == 252.
Proof. cbv zeta. split; vm_compute; reflexivity. Qed.




(** What [generateZoomGif] computed when it returned frames. *)
Lemma generateZoomGif_Ok (env : Browser) (history : list HistoryStep)
    (frames : list Frame) :
  generateZoomGif env history = Ok frames ->
  exists (images : list HTMLImageElement) (second : HistoryStep)
         (firstSelectionRect : Rect),
    (2 <= length history)%nat /\
    mapM (fun step => loadImage env (imageSrc step)) history = Some images /\
    history !! 1%nat = Some second /\
    originalRect second = Some firstSelectionRect /\
    context2d env = true /\
    frames
    = flat_map
        (pair_frames
           (Math_round
              (double_mul gifWidth
                 (double_div (float64 (h firstSelectionRect))
                             (float64 (w firstSelectionRect)))))
           images history)
        (seq 0 (length images - 1)).
Proof.
  unfold generateZoomGif. intros Hgen.
  destruct (Nat.ltb_spec (length history) 2) as [|Hlen]; [done|].
  destruct (mapM _ history) as [images|] eqn:Hm; [|done].
  destruct (history !! 1%nat) as [second|] eqn:H1; [|done].
  cbn [mbind option_bind] in Hgen.
  destruct (originalRect second) as [r|] eqn:Hr; [|done].
  destruct (context2d env); [|done].
  cbn [negb] in Hgen. injection Hgen as <-.
  by exists images, second, r.
Qed.




(** The number of frames of a run of pairs: [c] for every step that
    carries what the pair needs, none for the others. *)
Lemma length_flat_map_filter {A B} (P : A -> Prop) `{forall a, Decision (P a)}
    (g : nat -> list B) (l : list A) (k c : nat) :
  (forall i a, l !! i = Some a ->
     length (g (k + i)%nat) = if decide (P a) then c else 0%nat) ->
  length (flat_map g (seq k (length l))) = (c * length (filter P l))%nat.
Proof.
  revert k. induction l as [|a l IH]; intros k Hg; [cbn; lia|].
  cbn [length seq flat_map]. rewrite length_app.
  rewrite (IH (S k)).
  - pose proof (Hg 0%nat a eq_refl) as H0. rewrite Nat.add_0_r in H0. rewrite H0.
    rewrite filter_cons. destruct (decide (P a)); cbn [length];
      rewrite ?Nat.mul_succ_r; lia.
  - intros i b Hb. rewrite <- (Hg (S i) b Hb).
    by replace (S k + i)%nat with (k + S i)%nat by lia.
Qed.

Lemma generateZoomGif_length (env : Browser) (history : list HistoryStep)
    (frames : list Frame) :
  generateZoomGif env history = Ok frames ->
  length frames = ((30 + 15) * length (zoomSteps history))%nat.
Proof.
  intros Hgen.
  destruct (generateZoomGif_Ok _ _ _ Hgen)
    as (images & second & first & Hlen & Hm & H1 & Hr & Hctx & ->).
  pose proof (length_mapM _ _ _ Hm) as Hlen'.
  unfold zoomSteps.
  replace (length images - 1)%nat with (length (drop 1 history))
    by (rewrite length_drop; lia).
  apply length_flat_map_filter.
  intros i step Hs. rewrite lookup_drop in Hs. cbn [Nat.add] in Hs |- *.
  pose proof (lookup_lt_Some _ _ _ Hs) as Hi.
  unfold pair_frames.
  destruct (lookup_lt_is_Some_2 images i ltac:(lia)) as [a ->].
  destruct (lookup_lt_is_Some_2 images (S i) ltac:(lia)) as [b ->].
  rewrite Hs.
  destruct (originalRect step) as [endRect|] eqn:He.
  - rewrite decide_True by eauto.
    rewrite length_app, !length_map, !length_seq.
    by rewrite loop_count_zoomFrames, loop_count_holdFrames.
  - rewrite decide_False; [done|]. by intros [r Hr'].
Qed.

(** X4: a generated zoom sequence has 30 + 15 frames for every step after
    the first that carries a selection rectangle; a later step without a
    rectangle is skipped and contributes no frame. *)
Theorem generateZoomGif_counts_steps_with_rect (env : Browser)
    (history : list HistoryStep) (frames : list Frame) :
  generateZoomGif env history = Ok frames ->
  length frames = ((30 + 15) * length (zoomSteps history))%nat.
Proof. apply generateZoomGif_length. Qed.

Lemma generateZoomGif_counts_steps_with_rect_witness :
  exists frames : list Frame,
    generateZoomGif sampleBrowser [stepA; stepB; stepNoRect; stepC] = Ok frames /\
    length frames = 90%nat.
Proof.
  eexists. split; [vm_compute; reflexivity|].
  apply (generateZoomGif_counts_steps_with_rect sampleBrowser
           [stepA; stepB; stepNoRect; stepC]).
  vm_compute. reflexivity.
Defined.

Lemma generateZoomGif_succeeds (env : Browser) (history : list HistoryStep) :
  (2 <= length history)%nat ->
  (forall step, step ∈ history -> is_Some (decode env (imageSrc step))) ->
  (exists second, history !! 1%nat = Some second /\ is_Some (originalRect second)) ->
  context2d env = true ->
  exists frames : list Frame, generateZoomGif env history = Ok frames.
Proof.
  intros Hlen Hdec (second & H1 & [r Hr]) Hctx.
  unfold generateZoomGif.
  destruct (Nat.ltb_spec (length history) 2) as [|_]; [lia|].
  assert (Himgs : is_Some (mapM (fun step => loadImage env (imageSrc step)) history)).
  { apply mapM_is_Some, Forall_forall. intros step Hin. cbn. unfold loadImage.
    destruct (Hdec step Hin) as [[nw nh] ->]. eauto. }
  destruct Himgs as [images ->]. rewrite H1. cbn [mbind option_bind].
  rewrite Hr, Hctx. cbn [negb]. eauto.
Qed.

(** X5: [generateZoomGif] returns frames exactly when the history has at
    least two steps, every picture of it loads, its second step carries a
    selection rectangle and a 2D context is available; in every other case
    it throws. *)
Theorem generateZoomGif_succeeds_iff (env : Browser) (history : list HistoryStep) :
  (exists frames : list Frame, generateZoomGif env history = Ok frames) <->
  (2 <= length history)%nat /\
  (forall step, step ∈ history -> is_Some (decode env (imageSrc step))) /\
  (exists second, history !! 1%nat = Some second /\ is_Some (originalRect second)) /\
  context2d env = true.
Proof.
  split.
  - intros [frames Hgen].
    destruct (generateZoomGif_Ok _ _ _ Hgen)
      as (images & second & first & Hlen & Hm & H1 & Hr & Hctx & _).
    split; [done|]. split; [|split; [|done]].
    + intros step Hin.
      assert (Hall : is_Some (mapM (fun step => loadImage env (imageSrc step)) history))
        by eauto.
      apply mapM_is_Some in Hall. rewrite Forall_forall in Hall.
      specialize (Hall step Hin). cbn in Hall. unfold loadImage in Hall.
      destruct (decode env (imageSrc step)); [eauto | by destruct Hall].
    + exists second. eauto.
  - intros (Hlen & Hdec & Hsecond & Hctx). by apply generateZoomGif_succeeds.
Qed.

Lemma generateZoomGif_succeeds_iff_witness :
  ~ exists frames : list Frame, generateZoomGif sampleBrowser [stepA] = Ok frames.
Proof.
  intros Hex.
  apply (proj1 (generateZoomGif_succeeds_iff sampleBrowser [stepA])) in Hex.
  destruct Hex as [Hlen _]. cbn in Hlen. lia.
Defined.

(** ** Display geometry *)

Lemma Qdiv_pos (a b : Q) : 0 < a -> 0 < b -> 0 < a / b.
Proof. intros Ha Hb. apply Qlt_shift_div_l; lra. Qed.

(** What [getCanvasScale] returns for a canvas and a picture of positive
    size. *)
Lemma getCanvasScale_fit (cw ch : Q) (img : HTMLImageElement) :
  0 < cw -> 0 < ch -> 0 < naturalWidth img -> 0 < naturalHeight img ->
  let cs := ImageDisplay.getCanvasScale (Some (cw, ch)) (Some img) in
  0 < ImageDisplay.scale cs /\
  ImageDisplay.dWidth cs == ImageDisplay.scale cs * naturalWidth img /\
  ImageDisplay.dHeight cs == ImageDisplay.scale cs * naturalHeight img /\
  0 <= ImageDisplay.offsetX cs /\ 0 <= ImageDisplay.offsetY cs /\
  ImageDisplay.offsetX cs + ImageDisplay.dWidth cs + ImageDisplay.offsetX cs == cw /\
  ImageDisplay.offsetY cs + ImageDisplay.dHeight cs + ImageDisplay.offsetY cs == ch /\
  (ImageDisplay.dWidth cs == cw \/ ImageDisplay.dHeight cs == ch).
Proof.
  intros Hcw Hch Hnw Hnh. cbv zeta. unfold ImageDisplay.getCanvasScale.
  set (nw := naturalWidth img) in *. set (nh := naturalHeight img) in *.
  assert (HA : 0 < nw / nh) by (by apply Qdiv_pos).
  assert (EC : ch * (cw / ch) == cw) by (field; lra).
  destruct (gt_dec (cw / ch) (nw / nh)) as [Hwide | Htall];
    cbn [ImageDisplay.scale ImageDisplay.offsetX ImageDisplay.offsetY
         ImageDisplay.dWidth ImageDisplay.dHeight].
  - (* the canvas is wider than the picture: the height is filled *)
    assert (Hfit : ch * (nw / nh) < ch * (cw / ch)) by (by apply Qmult_lt_l).
    assert (Hd : 0 < ch * (nw / nh)) by (by apply Qmult_lt_0_compat).
    split; [by apply Qdiv_pos|].
    split; [field; lra|]. split; [field; lra|].
    split; [apply Qdiv_nonneg; lra|]. split; [apply Qdiv_nonneg; lra|].
    split; [field; lra|]. split; [field; lra|]. by right.
  - (* the picture is at least as wide as the canvas: the width is filled *)
    assert (Hfit : ch * (cw / ch) <= ch * (nw / nh)) by (by apply Qmult_le_l).
    assert (Hh : cw / (nw / nh) <= ch) by (apply Qle_shift_div_r; lra).
    split; [by apply Qdiv_pos|].
    split; [field; lra|]. split; [field; lra|].
    split; [apply Qdiv_nonneg; lra|]. split; [apply Qdiv_nonneg; lra|].
    split; [field; lra|]. split; [field; lra|]. by left.
Qed.



(** The fixed box for a click that, in picture coordinates, falls on the
    picture. *)
Lemma fixedBox_around_click (props : ImageDisplay.Props)
    (cs : ImageDisplay.CanvasScale) (img : HTMLImageElement) (pos : Q * Q) :
  0 <= (fst pos - ImageDisplay.offsetX cs) / ImageDisplay.scale cs ->
  (fst pos - ImageDisplay.offsetX cs) / ImageDisplay.scale cs <= naturalWidth img ->
  0 <= (snd pos - ImageDisplay.offsetY cs) / ImageDisplay.scale cs ->
  (snd pos - ImageDisplay.offsetY cs) / ImageDisplay.scale cs <= naturalHeight img ->
  0 <= ImageDisplay.fixedSelectionSizePercentage props ->
  ImageDisplay.fixedSelectionSizePercentage props <= 1 ->
  let r := ImageDisplay.fixedBox props cs img pos in
  within r (naturalWidth img) (naturalHeight img) /\
  w r = naturalWidth img * ImageDisplay.fixedSelectionSizePercentage props /\
  h r = naturalHeight img * ImageDisplay.fixedSelectionSizePercentage props /\
  x r <= (fst pos - ImageDisplay.offsetX cs) / ImageDisplay.scale cs /\
  (fst pos - ImageDisplay.offsetX cs) / ImageDisplay.scale cs <= x r + w r /\
  y r <= (snd pos - ImageDisplay.offsetY cs) / ImageDisplay.scale cs /\
  (snd pos - ImageDisplay.offsetY cs) / ImageDisplay.scale cs <= y r + h r.
Proof.
  intros Hx0 Hx1 Hy0 Hy1 Hp0 Hp1. cbv zeta.
  unfold ImageDisplay.fixedBox, ImageDisplay.clampBoxToBounds, within;
    cbn [x y w h].
  set (cx := (fst pos - ImageDisplay.offsetX cs) / ImageDisplay.scale cs) in *.
  set (cy := (snd pos - ImageDisplay.offsetY cs) / ImageDisplay.scale cs) in *.
  set (p := ImageDisplay.fixedSelectionSizePercentage props) in *.
  assert (Hnw : 0 <= naturalWidth img) by lra.
  assert (Hnh : 0 <= naturalHeight img) by lra.
  assert (Bw0 : 0 <= naturalWidth img * p) by (apply Qmult_le_0_compat; lra).
  assert (Bh0 : 0 <= naturalHeight img * p) by (apply Qmult_le_0_compat; lra).
  assert (Bw1 : 0 <= naturalWidth img * (1 - p)) by (apply Qmult_le_0_compat; lra).
  assert (Bh1 : 0 <= naturalHeight img * (1 - p)) by (apply Qmult_le_0_compat; lra).
  assert (Ew : naturalWidth img * p / 2 == naturalWidth img * p * (1 # 2))
    by reflexivity.
  assert (Eh : naturalHeight img * p / 2 == naturalHeight img * p * (1 # 2))
    by reflexivity.
  set (hw := naturalWidth img * p / 2) in *.
  set (hh := naturalHeight img * p / 2) in *.
  clearbody hw hh cx cy.
  repeat match goal with
         | |- context [lt_dec ?a ?b] => destruct (lt_dec a b)
         | |- context [gt_dec ?a ?b] => destruct (gt_dec a b)
         end; repeat split; lra.
Qed.

(** X7: in fixed-box mode, on a canvas and a picture of positive size and
    with a box fraction between 0 and 1, a click that stages a selection
    stages a box of that fraction of the picture's size which lies inside
    the picture and contains the clicked point; the rectangle kept for the
    screen is that box mapped through the display scale and offset. *)
Theorem handleMouseDown_stages_box_around_click (env : Browser)
    (props : ImageDisplay.Props) (cw ch : Q) (pos : Q * Q)
    (disp disp' : ImageDisplay.State) (staged : Staged.t)
    (img : HTMLImageElement) :
  ImageDisplay.handleMouseDown env props (Some (cw, ch)) pos disp
  = (disp', Some staged) ->
  ImageDisplay.image disp = Some img ->
  0 < cw -> 0 < ch -> 0 < naturalWidth img -> 0 < naturalHeight img ->
  0 <= ImageDisplay.fixedSelectionSizePercentage props ->
  ImageDisplay.fixedSelectionSizePercentage props <= 1 ->
  let cs := ImageDisplay.getCanvasScale (Some (cw, ch)) (Some img) in
  let clickX := (fst pos - ImageDisplay.offsetX cs) / ImageDisplay.scale cs in
  let clickY := (snd pos - ImageDisplay.offsetY cs) / ImageDisplay.scale cs in
  let r := Staged.originalRect staged in
  within r (naturalWidth img) (naturalHeight img) /\
  w r = naturalWidth img * ImageDisplay.fixedSelectionSizePercentage props /\
  h r = naturalHeight img * ImageDisplay.fixedSelectionSizePercentage props /\
  x r <= clickX /\ clickX <= x r + w r /\
  y r <= clickY /\ clickY <= y r + h r /\
  Staged.screenRect staged
  = {| x := x r * ImageDisplay.scale cs + ImageDisplay.offsetX cs;
       y := y r * ImageDisplay.scale cs + ImageDisplay.offsetY cs;
       w := w r * ImageDisplay.scale cs;
       h := h r * ImageDisplay.scale cs |}.
Proof.
  intros Hdown Himg Hcw Hch Hnw Hnh Hp0 Hp1. cbv zeta.
  destruct (getCanvasScale_fit cw ch img Hcw Hch Hnw Hnh)
    as (Hs & Hdw & Hdh & _).
  unfold ImageDisplay.handleMouseDown in Hdown. rewrite Himg in Hdown.
  set (cs := ImageDisplay.getCanvasScale (Some (cw, ch)) (Some img)) in *.
  destruct (ImageDisplay.isEnhancing props); [done|].
  destruct (ImageDisplay.useFixedSelectionBox props); [|done].
  destruct (negb (context2d env)); [done|].
  destruct (lt_dec (fst pos) (ImageDisplay.offsetX cs)) as [|Hl]; [done|].
  destruct (gt_dec (fst pos) (ImageDisplay.offsetX cs + ImageDisplay.dWidth cs))
    as [|Hr]; [done|].
  destruct (lt_dec (snd pos) (ImageDisplay.offsetY cs)) as [|Ht]; [done|].
  destruct (gt_dec (snd pos) (ImageDisplay.offsetY cs + ImageDisplay.dHeight cs))
    as [|Hb]; [done|].
  injection Hdown as _ <-. cbn [Staged.originalRect Staged.screenRect].
  destruct (fixedBox_around_click props cs img pos)
    as (F1 & F2 & F3 & F4 & F5 & F6 & F7);
    [apply Qdiv_nonneg; lra
    |apply Qle_shift_div_r; [done | lra]
    |apply Qdiv_nonneg; lra
    |apply Qle_shift_div_r; [done | lra]
    |done|done|].
  do 7 (split; [assumption|]). reflexivity.
Qed.

Lemma handleMouseDown_stages_box_around_click_witness :
  within (Staged.originalRect sampleStaged) 800 600 /\
  w (Staged.originalRect sampleStaged) = 800 * (1 # 8) /\
  x (Staged.originalRect sampleStaged)
  <= (640 - 160) / ((720 * (800 / 600)) / 800).
Proof.
  pose proof (handleMouseDown_stages_box_around_click sampleBrowser sampleProps
                1280 720 (640, 360) sampleDisplay sampleDisplay sampleStaged
                (mkImage (ObjectUrl 0) 800 600) eq_refl eq_refl
                ltac:(reflexivity) ltac:(reflexivity) ltac:(reflexivity)
                ltac:(reflexivity) ltac:(vm_compute; discriminate)
                ltac:(vm_compute; discriminate)) as H.
  cbv zeta in H. destruct H as (H1 & H2 & _ & H4 & _).
  split; [exact H1|]. split; [exact H2 | exact H4].
Defined.

(** ** Free-draw selections, continued *)






(** ** The enhance service *)

(** Parts without inline data leave the picture chosen so far. *)
Lemma fold_parts_without_data (ps : list Part) (chosen : Src) :
  (forall part, part ∈ ps -> inlineData part = None) ->
  fold_left
    (fun imageSrc part =>
       match inlineData part with
       | Some (mime, imageData) => InlineData mime imageData
       | None => imageSrc
       end) ps chosen
  = chosen.
Proof.
  revert chosen. induction ps as [|part ps IH]; intros chosen Hps; [done|].
  cbn. rewrite (Hps part) by left. apply IH. intros q Hq. apply Hps. by right.
Qed.

(** X10: when the response of the image model has candidates, and its
    first candidate has parts, [serviceEnhance] (called with at least one
    prompt and no block reason) returns the picture of the last part that
    carries inline data, and returns the picture it was given when no part
    carries any. *)
Theorem serviceEnhance_returns_last_inline_image (cropped : Src)
    (prompt : string) (prompts : list string) (c : Candidate)
    (cs : list Candidate) (contents : Content) (ps : list Part)
    (text : option string) :
  content c = Some contents ->
  parts contents = Some ps ->
  let result :=
    serviceEnhance cropped (prompt :: prompts) (Resolved None (Some (c :: cs)) text) in
  ((forall part, part ∈ ps -> inlineData part = None) -> result = cropped) /\
  (forall (front back : list Part) (part : Part) (mime data : string),
     ps = front ++ part :: back ->
     inlineData part = Some (mime, data) ->
     (forall q, q ∈ back -> inlineData q = None) ->
     result = InlineData mime data).
Proof.
  intros Hc Hp. cbv zeta. unfold serviceEnhance, enhance_try. rewrite Hc, Hp.
  split.
  - intros Hnone. by apply fold_parts_without_data.
  - intros front back part mime data -> Hdata Hback.
    rewrite fold_left_app. cbn [fold_left]. rewrite Hdata.
    by apply fold_parts_without_data.
Qed.

Lemma serviceEnhance_returns_last_inline_image_witness :
  serviceEnhance (ObjectUrl 0) ["zoom"%string]
    (Resolved None
       (Some [mkCandidate
                (Some (mkContent
                         (Some [mkPart (Some ("image/png", "AAAA")%string);
                                mkPart None;
                                mkPart (Some ("image/png", "BBBB")%string);
                                mkPart None])))])
       None)
  = InlineData "image/png" "BBBB".
Proof.
  apply (proj2 (serviceEnhance_returns_last_inline_image (ObjectUrl 0) "zoom" []
                  (mkCandidate
                     (Some (mkContent
                              (Some [mkPart (Some ("image/png", "AAAA")%string);
                                     mkPart None;
                                     mkPart (Some ("image/png", "BBBB")%string);
                                     mkPart None]))))
                  []
                  (mkContent
                     (Some [mkPart (Some ("image/png", "AAAA")%string);
                            mkPart None;
                            mkPart (Some ("image/png", "BBBB")%string);
                            mkPart None]))
                  [mkPart (Some ("image/png", "AAAA")%string);
                   mkPart None;
                   mkPart (Some ("image/png", "BBBB")%string);
                   mkPart None]
                  None eq_refl eq_refl)
           [mkPart (Some ("image/png", "AAAA")%string); mkPart None]
           [mkPart None] (mkPart (Some ("image/png", "BBBB")%string))
           "image/png"%string "BBBB"%string eq_refl eq_refl).
  intros q Hq. apply list_elem_of_In in Hq. cbn in Hq.
  destruct Hq as [<- | []]. reflexivity.
Defined.

(** ** The reveal frame and the re-crop *)







(** ** The enhancement run, continued *)

(** What [runEnhancementJob] does whatever the services answer and whether
    or not the returned picture decodes. *)
Lemma runEnhancementJob_footprint (env : Browser)
    (describeResponse : DescribeResponse) (enhanceResponse : GenerateContentResponse)
    (s : Home.State) (job : Job.t) (img : HTMLImageElement) :
  Home.enhancementJob s = Some job ->
  Home.image s = Some img ->
  let s' := Home.runEnhancementJob env describeResponse enhanceResponse s in
  Home.appState s' = ENHANCED /\
  Home.enhancementJob s' = None /\
  Home.isProcessing s' = false /\
  Home.pixelatedImageSrc s' = Some (Job.pixelatedSrc job) /\
  is_Some (Home.enhancedImageSrc s') /\
  (exists d, Home.newHistoryEntryData s' = Some (d, Job.originalRect job)) /\
  Home.history s' = Home.history s /\
  Home.historyIndex s' = Home.historyIndex s /\
  Home.stagedSelection s' = Home.stagedSelection s /\
  Home.finalEnhancementRect s' = Home.finalEnhancementRect s /\
  Home.image s' = Home.image s /\
  Home.isGeneratingGif s' = Home.isGeneratingGif s.
Proof.
  intros Hjob Himg. cbv zeta.
  unfold Home.runEnhancementJob. rewrite Hjob, Himg.
  unfold Home.try_catch_finally, Home.enhancementBody, Home.enhancementFallback,
    Home.describe, Home.enhance, Home.awaitImage, Home.bind, Home.update, Home.ret,
    Home.reject.
  destruct (has_base64 (Job.canvasWithSelectionDataUrl job));
    cbn beta iota; rewrite snoc_match; cbn beta iota;
    (match goal with |- context [loadImage env ?u] => destruct (loadImage env u) end);
    cbn; rewrite ?Himg; eauto 20.
Qed.

(** X13: whatever the describe and enhance services answer, and whether
    or not the returned picture decodes, a started [runEnhancementJob] ends
    in the ENHANCED state with the job cleared and the processing flag off,
    the job's pixelated preview to reveal from, and the description and the
    selection recorded for the commit; it leaves the history and the cursor
    alone.  It asks for a description when the capture carries data, then
    for one enhancement.  With a 2D context, the picture to reveal is the
    1024-wide re-crop of the picture that [serviceEnhance] yields when that
    picture decodes, and the crop of the selection at twice its size when
    it does not; without a context it is the empty string, and nothing is
    revealed. *)
Theorem runEnhancementJob_always_reaches_reveal (env : Browser)
    (describeResponse : DescribeResponse) (enhanceResponse : GenerateContentResponse)
    (s : Home.State) (job : Job.t) (img : HTMLImageElement) :
  Home.enhancementJob s = Some job ->
  Home.image s = Some img ->
  let rect := Job.originalRect job in
  let descs := descriptions_of (slice (Home.history s) 0 (Home.historyIndex s + 1)) in
  let d := serviceDescribeImage env (Job.canvasWithSelectionDataUrl job) descs
             describeResponse in
  let prompts := map prompt_or_empty descs ++ [prompt_or_empty d] in
  let input := if context2d env then enhancementInput img rect else EmptyUrl in
  let out := serviceEnhance input prompts enhanceResponse in
  let s' := Home.runEnhancementJob env describeResponse enhanceResponse s in
  Home.appState s' = ENHANCED /\
  Home.enhancementJob s' = None /\
  Home.isProcessing s' = false /\
  Home.pixelatedImageSrc s' = Some (Job.pixelatedSrc job) /\
  Home.newHistoryEntryData s' = Some (d, rect) /\
  Home.history s' = Home.history s /\
  Home.historyIndex s' = Home.historyIndex s /\
  Home.calls s'
  = Home.calls s
    ++ describeRequest (Job.canvasWithSelectionDataUrl job) descs
    ++ [EnhanceCall input prompts] /\
  Home.enhancedImageSrc s'
  = Some (if context2d env
          then match decode env out with
               | Some (nw, nh) => recropped img rect out nw nh
               | None => doubleSizeCrop img rect
               end
          else EmptyUrl) /\
  (context2d env = false -> Home.pixelDissolveComplete env s' = s').
Proof.
  intros Hjob Himg rect descs d prompts input out. cbv zeta.
  assert (Hrun :
    let s' := Home.runEnhancementJob env describeResponse enhanceResponse s in
    Home.appState s' = ENHANCED /\
    Home.enhancementJob s' = None /\
    Home.isProcessing s' = false /\
    Home.pixelatedImageSrc s' = Some (Job.pixelatedSrc job) /\
    Home.newHistoryEntryData s' = Some (d, rect) /\
    Home.history s' = Home.history s /\
    Home.historyIndex s' = Home.historyIndex s /\
    Home.calls s'
    = Home.calls s
      ++ describeRequest (Job.canvasWithSelectionDataUrl job) descs
      ++ [EnhanceCall input prompts] /\
    Home.enhancedImageSrc s'
    = Some (if context2d env
            then match decode env out with
                 | Some (nw, nh) => recropped img rect out nw nh
                 | None => doubleSizeCrop img rect
                 end
            else EmptyUrl)).
  { cbv zeta. unfold Home.runEnhancementJob. rewrite Hjob, Himg.
    unfold Home.try_catch_finally, Home.enhancementBody, Home.enhancementFallback,
      Home.describe, Home.enhance, Home.awaitImage, Home.bind, Home.update,
      Home.ret, Home.reject.
    unfold describeRequest. subst out input.
    destruct (has_base64 (Job.canvasWithSelectionDataUrl job));
      cbn beta iota; rewrite snoc_match; cbn beta iota;
      unfold cropImage; destruct (context2d env);
      fold rect; fold descs; fold d; fold prompts;
      try change (CropPng (src img) (paddedRect _ _ _ _) _ _ false)
        with (enhancementInput img rect);
      unfold loadImage;
      (match goal with |- context [decode env ?u] =>
         destruct (decode env u) as [[nw nh]|] end);
      cbn; rewrite <- ?app_assoc; repeat split; done. }
  cbv zeta in Hrun.
  destruct Hrun as (R1 & R2 & R3 & R4 & R5 & R6 & R7 & R8 & R9).
  do 9 (split; [assumption|]).
  intros Hno. unfold Home.pixelDissolveComplete. rewrite R9, Hno.
  cbn [truthy]. by rewrite andb_false_r.
Qed.

Lemma runEnhancementJob_always_reaches_reveal_witness :
  Home.appState
    (Home.runEnhancementJob undecodingBrowser DescribeRejected sampleModelResponse
       (Home.clickProcess undecodingBrowser clickedState)) = ENHANCED /\
  Home.enhancedImageSrc
    (Home.runEnhancementJob undecodingBrowser DescribeRejected sampleModelResponse
       (Home.clickProcess undecodingBrowser clickedState))
  = Some (doubleSizeCrop (mkImage (ObjectUrl 0) 800 600)
            (Staged.originalRect sampleStaged)).
Proof.
  pose proof (runEnhancementJob_always_reaches_reveal undecodingBrowser
                DescribeRejected sampleModelResponse
                (Home.clickProcess undecodingBrowser clickedState)
                _ (mkImage (ObjectUrl 0) 800 600) eq_refl eq_refl) as H.
  cbv zeta in H. destruct H as (H1 & _ & _ & _ & _ & _ & _ & _ & H9 & _).
  split; [exact H1 | exact H9].
Defined.

(** The commit made when the reveal of a picture [e] over the preview
    [p] completes. *)
Lemma pixelDissolveComplete_commits (env : Browser) (s : Home.State) (p e : Src)
    (d : ImageDescription) (rect : Rect) :
  Home.appState s = ENHANCED ->
  Home.pixelatedImageSrc s = Some p -> truthy (Some p) = true ->
  is_Some (decode env p) ->
  Home.enhancedImageSrc s = Some e -> truthy (Some e) = true ->
  is_Some (decode env e) ->
  is_Some (Home.finalEnhancementRect s) ->
  context2d env = true ->
  Home.newHistoryEntryData s = Some (d, rect) ->
  (0 <= Home.historyIndex s)%Z ->
  let s' := Home.pixelDissolveComplete env s in
  Home.history s'
  = take (S (Z.to_nat (Home.historyIndex s))) (Home.history s)
    ++ [mkStep e (Some d) (Some rect)] /\
  Home.historyIndex s'
  = Z.of_nat (length (take (S (Z.to_nat (Home.historyIndex s))) (Home.history s))) /\
  Home.appState s' = LOADED /\ Home.finalImageSrc s' = Some e /\
  Home.enhancedImageSrc s' = None /\ Home.newHistoryEntryData s' = None /\
  Home.displaySelection s' = None.
Proof.
  intros Ha Hp Tp Dp He Te De Hf Hctx Hn Hi. cbv zeta.
  rewrite (pixelDissolveComplete_runs env s p e) by done.
  destruct (handleEnhancementComplete_history env s e d rect He Te Hn Hi) as [Hh Hx].
  split; [exact Hh|]. split; [exact Hx|].
  destruct De as [[nw nh] Hd]. unfold Home.handleEnhancementComplete.
  rewrite He, Hn, Te. cbn [negb]. unfold loadImage. rewrite Hd. cbn. done.
Qed.

(** X14: for a confirmed selection, whatever the enhance service returns,
    if the picture that [serviceEnhance] yields decodes, the picture to
    reveal is its 1024-wide re-crop at the selection; and when the reveal
    runs (the pixelated preview and that re-crop load), the step that gets
    committed holds this re-crop, the description returned by
    [serviceDescribeImage] and the selection rectangle, and the application
    is back in the LOADED state showing it.  The prompts sent are those of
    the steps up to the cursor followed by the new one. *)
Theorem confirmAndEnhance_commits_recrop_of_result (env : Browser)
    (describeResponse : DescribeResponse) (enhanceResponse : GenerateContentResponse)
    (s : Home.State) (staged : Staged.t) (img : HTMLImageElement) (nw nh : Q) :
  Home.appState s = LOADED ->
  Home.stagedSelection s = Some staged ->
  Home.image s = Some img ->
  (0 <= Home.historyIndex s < Z.of_nat (length (Home.history s)))%Z ->
  context2d env = true ->
  let rect := Staged.originalRect staged in
  let d := serviceDescribeImage env (Staged.canvasDataUrl staged)
             (activeDescriptions s) describeResponse in
  let prompts := map prompt_or_empty (activeDescriptions s) ++ [prompt_or_empty d] in
  let out := serviceEnhance (enhancementInput img rect) prompts enhanceResponse in
  decode env out = Some (nw, nh) ->
  is_Some (decode env (CropPng (src img) rect (w rect) (h rect) true)) ->
  is_Some (decode env (recropped img rect out nw nh)) ->
  let s' := Home.confirmAndEnhance env describeResponse enhanceResponse s in
  Home.history s'
  = take (S (Z.to_nat (Home.historyIndex s))) (Home.history s)
    ++ [mkStep (recropped img rect out nw nh) (Some d) (Some rect)] /\
  Home.historyIndex s' = (Home.historyIndex s + 1)%Z /\
  Home.appState s' = LOADED /\
  Home.finalImageSrc s' = Some (recropped img rect out nw nh) /\
  has_model_content (recropped img rect out nw nh) = has_model_content out /\
  Home.calls s'
  = Home.calls s
    ++ describeRequest (Staged.canvasDataUrl staged) (activeDescriptions s)
    ++ [EnhanceCall (enhancementInput img rect) prompts].
Proof.
  intros Hst Hsel Himg Hidx Hctx rect d prompts out Hdec Hlow Hhigh. cbv zeta.
  destruct (clickProcess_effect env s staged img Hst Hsel Himg Hidx)
    as (Ha & Hi & Hj & Hf & Hh & Hx & Hc).
  assert (Hdescs :
    descriptions_of
      (slice (Home.history (Home.clickProcess env s)) 0
         (Home.historyIndex (Home.clickProcess env s) + 1))
    = activeDescriptions s).
  { rewrite Hh, Hx, slice_prefix by lia. unfold activeDescriptions.
    replace (Z.to_nat (Home.historyIndex s + 1))
      with (S (Z.to_nat (Home.historyIndex s))) by lia.
    by rewrite take_take, Nat.min_id. }
  pose proof (runEnhancementJob_effect env describeResponse enhanceResponse
                (Home.clickProcess env s) _ img nw nh Hj Hi Hctx) as Hrun.
  cbv zeta in Hrun.
  cbn [Job.originalRect Job.canvasWithSelectionDataUrl Job.pixelatedSrc] in Hrun.
  rewrite Hdescs in Hrun.
  destruct (Hrun Hdec) as (Ra & Re & Rp & Rn & Rf & Rh & Ri & Rc). clear Hrun.
  unfold cropImage in Rp. rewrite Hctx in Rp.
  unfold Home.confirmAndEnhance, Home.selectionAnimatorComplete.
  destruct Hf as [fr Hf]. rewrite Hj, Hf, Ha.
  rewrite bool_decide_eq_true_2 by done.
  edestruct (pixelDissolveComplete_commits env
               (Home.runEnhancementJob env describeResponse enhanceResponse
                  (Home.clickProcess env s))) as (Ch & Ci & Ca & Cf & _);
    [exact Ra | exact Rp | reflexivity | exact Hlow
    |exact Re | reflexivity | exact Hhigh
    |rewrite Rf, Hf; eauto
    |exact Hctx
    |exact Rn
    |rewrite Ri, Hx; lia|].
  rewrite Ch, Ci, Rh, Ri, Hh, Hx, take_take, Nat.min_id.
  split; [done|].
  split; [rewrite length_take; lia|].
  split; [done|]. split; [done|]. split; [done|].
  by rewrite pixelDissolveComplete_calls, Rc, Hc.
Qed.

Lemma confirmAndEnhance_commits_recrop_of_result_witness :
  exists step : HistoryStep,
    last (Home.history
            (Home.confirmAndEnhance sampleBrowser DescribeRejected
               sampleModelResponse clickedState)) = Some step /\
    has_model_content (imageSrc step) = true /\
    requestedSize (imageSrc step) = Some (1024, 768).
Proof.
  pose proof (confirmAndEnhance_commits_recrop_of_result sampleBrowser
                DescribeRejected sampleModelResponse
                clickedState sampleStaged (mkImage (ObjectUrl 0) 800 600)
                1024 1024 eq_refl eq_refl eq_refl
                ltac:(vm_compute; split; [discriminate | reflexivity])
                eq_refl eq_refl ltac:(vm_compute; eauto) ltac:(vm_compute; eauto))
    as H.
  cbv zeta in H. destruct H as (Hh & _).
  eexists. split; [rewrite Hh; apply last_snoc|].
  split; [reflexivity | vm_compute; reflexivity].
Defined.

(** X15: the crop of the selection at twice its size is what a confirmed
    selection gets to reveal when the picture yielded by [serviceEnhance]
    does not decode: the catch of [runEnhancementJob] supplies it.  When the
    reveal runs (the pixelated preview and that crop load), the commit holds
    this crop with the description and the selection rectangle recorded
    before the failure. *)
Theorem confirmAndEnhance_commits_double_size_crop_on_decode_failure
    (env : Browser) (describeResponse : DescribeResponse)
    (enhanceResponse : GenerateContentResponse) (s : Home.State)
    (staged : Staged.t) (img : HTMLImageElement) :
  Home.appState s = LOADED ->
  Home.stagedSelection s = Some staged ->
  Home.image s = Some img ->
  (0 <= Home.historyIndex s < Z.of_nat (length (Home.history s)))%Z ->
  context2d env = true ->
  let rect := Staged.originalRect staged in
  let d := serviceDescribeImage env (Staged.canvasDataUrl staged)
             (activeDescriptions s) describeResponse in
  let prompts := map prompt_or_empty (activeDescriptions s) ++ [prompt_or_empty d] in
  decode env (serviceEnhance (enhancementInput img rect) prompts enhanceResponse)
  = None ->
  is_Some (decode env (CropPng (src img) rect (w rect) (h rect) true)) ->
  is_Some (decode env (doubleSizeCrop img rect)) ->
  let s' := Home.confirmAndEnhance env describeResponse enhanceResponse s in
  Home.history s'
  = take (S (Z.to_nat (Home.historyIndex s))) (Home.history s)
    ++ [mkStep (doubleSizeCrop img rect) (Some d) (Some rect)] /\
  Home.historyIndex s' = (Home.historyIndex s + 1)%Z /\
  Home.appState s' = LOADED /\
  Home.finalImageSrc s' = Some (doubleSizeCrop img rect).
Proof.
  intros Hst Hsel Himg Hidx Hctx rect d prompts Hdec Hlow Hhigh. cbv zeta.
  destruct (clickProcess_effect env s staged img Hst Hsel Himg Hidx)
    as (Ha & Hi & Hj & Hf & Hh & Hx & Hc).
  assert (Hdescs :
    descriptions_of
      (slice (Home.history (Home.clickProcess env s)) 0
         (Home.historyIndex (Home.clickProcess env s) + 1))
    = activeDescriptions s).
  { rewrite Hh, Hx, slice_prefix by lia. unfold activeDescriptions.
    replace (Z.to_nat (Home.historyIndex s + 1))
      with (S (Z.to_nat (Home.historyIndex s))) by lia.
    by rewrite take_take, Nat.min_id. }
  pose proof (undecodable_result_gives_double_size_crop env describeResponse
                enhanceResponse (Home.clickProcess env s) _ img Hj Hi Hctx) as Hrun.
  cbv zeta in Hrun.
  cbn [Job.originalRect Job.canvasWithSelectionDataUrl Job.pixelatedSrc] in Hrun.
  rewrite Hdescs in Hrun.
  destruct (Hrun Hdec) as (Ra & Re & Rn). clear Hrun.
  destruct (runEnhancementJob_footprint env describeResponse enhanceResponse
              (Home.clickProcess env s) _ img Hj Hi)
    as (_ & _ & _ & Rp & _ & _ & Rh & Ri & _ & Rf & _).
  cbn [Job.pixelatedSrc] in Rp. unfold cropImage in Rp. rewrite Hctx in Rp.
  unfold Home.confirmAndEnhance, Home.selectionAnimatorComplete.
  destruct Hf as [fr Hf]. rewrite Hj, Hf, Ha.
  rewrite bool_decide_eq_true_2 by done.
  edestruct (pixelDissolveComplete_commits env
               (Home.runEnhancementJob env describeResponse enhanceResponse
                  (Home.clickProcess env s))) as (Ch & Ci & Ca & Cf & _);
    [exact Ra | exact Rp | reflexivity | exact Hlow
    |exact Re | reflexivity | exact Hhigh
    |rewrite Rf, Hf; eauto
    |exact Hctx
    |exact Rn
    |rewrite Ri, Hx; lia|].
  rewrite Ch, Ci, Rh, Ri, Hh, Hx, take_take, Nat.min_id.
  split; [done|]. split; [rewrite length_take; lia|]. done.
Qed.

Lemma confirmAndEnhance_commits_double_size_crop_on_decode_failure_witness :
  exists step : HistoryStep,
    last (Home.history
            (Home.confirmAndEnhance undecodingBrowser DescribeRejected
               sampleModelResponse clickedState)) = Some step /\
    requestedSize (imageSrc step) = Some ((800 # 8) * 2, (600 # 8) * 2).
Proof.
  pose proof (confirmAndEnhance_commits_double_size_crop_on_decode_failure
                undecodingBrowser DescribeRejected sampleModelResponse
                clickedState sampleStaged (mkImage (ObjectUrl 0) 800 600)
                eq_refl eq_refl eq_refl
                ltac:(vm_compute; split; [discriminate | reflexivity])
                eq_refl eq_refl ltac:(vm_compute; eauto) ltac:(vm_compute; eauto))
    as H.
  cbv zeta in H. destruct H as (Hh & _).
  eexists. split; [rewrite Hh; apply last_snoc | reflexivity].
Defined.

(** ** Regenerate, continued *)

(** [handleRegenerate] once its guards are passed and the previous
    picture has loaded. *)
Lemma handleRegenerate_started (env : Browser)
    (describeResponse : DescribeResponse) (enhanceResponse : GenerateContentResponse)
    (s : Home.State) (current previous : HistoryStep) (rect : Rect) (nw nh : Q) :
  (0 < Home.historyIndex s)%Z ->
  Home.appState s <> ENHANCING ->
  Home.isGeneratingGif s = false ->
  Home.history s !! Z.to_nat (Home.historyIndex s) = Some current ->
  originalRect current = Some rect ->
  Home.history s !! Z.to_nat (Home.historyIndex s - 1) = Some previous ->
  decode env (imageSrc previous) = Some (nw, nh) ->
  Home.handleRegenerate env describeResponse enhanceResponse s
  = Home.try_catch_finally
      (Home.regenerateBody env describeResponse enhanceResponse s
         (mkImage (imageSrc previous) nw nh) rect)
      (Home.update (Home.setAppState LOADED))
      (Home.ret tt)
      (Home.setStagedSelection None (Home.setAppState ENHANCING s)).
Proof.
  intros Hpos Hstate Hgif Hcur Hrect Hprev Hdec.
  unfold Home.handleRegenerate, Home.blocked.
  destruct (Home.historyIndex s <=? 0)%Z eqn:E; [lia|].
  rewrite bool_decide_eq_false_2 by done. rewrite Hgif. cbn [orb].
  rewrite !at_index_lookup by lia. rewrite Hcur, Hrect, Hprev.
  unfold loadImage. by rewrite Hdec.
Qed.

(** What [handleRegenerate] can change, whatever happens in it. *)
Lemma handleRegenerate_footprint (env : Browser)
    (describeResponse : DescribeResponse) (enhanceResponse : GenerateContentResponse)
    (s : Home.State) :
  let s' := Home.handleRegenerate env describeResponse enhanceResponse s in
  Home.historyIndex s' = Home.historyIndex s /\
  Home.enhancementJob s' = Home.enhancementJob s /\
  Home.newHistoryEntryData s' = Home.newHistoryEntryData s /\
  Home.isGeneratingGif s' = Home.isGeneratingGif s /\
  (Home.history s' = Home.history s \/
   exists (current : HistoryStep) (rect : Rect) (enhancedSrc : Src)
          (d : ImageDescription),
     (0 < Home.historyIndex s)%Z /\
     Home.history s !! Z.to_nat (Home.historyIndex s) = Some current /\
     originalRect current = Some rect /\
     Home.history s'
     = take (Z.to_nat (Home.historyIndex s)) (Home.history s)
       ++ [mkStep enhancedSrc (Some d) (Some rect)]).
Proof.
  cbv zeta. unfold Home.handleRegenerate, Home.blocked.
  destruct (Home.historyIndex s <=? 0)%Z eqn:E; [cbn; eauto 10|].
  destruct (bool_decide (Home.appState s = ENHANCING)); [cbn; eauto 10|].
  destruct (Home.isGeneratingGif s) eqn:Hgif; [cbn; rewrite ?Hgif; eauto 10|].
  cbn [orb]. rewrite !at_index_lookup by lia.
  destruct (Home.history s !! Z.to_nat (Home.historyIndex s)) as [current|] eqn:Hcur;
    [|cbn; eauto 10].
  destruct (originalRect current) as [rect|] eqn:Hrect; [|cbn; eauto 10].
  destruct (Home.history s !! Z.to_nat (Home.historyIndex s - 1)) as [previous|];
    [|cbn; eauto 10].
  destruct (loadImage env (imageSrc previous)) as [sourceImage|]; [|cbn; eauto 10].
  unfold Home.try_catch_finally, Home.regenerateBody, Home.describe,
    Home.enhance, Home.awaitImage, Home.bind, Home.update, Home.ret, Home.reject.
  destruct (has_base64 _); cbn beta iota; rewrite snoc_match; cbn beta iota;
    (match goal with |- context [loadImage ?e (serviceEnhance ?c ?p ?r)] =>
       destruct (loadImage e (serviceEnhance c p r)) end; [|cbn; eauto 10]);
    cbn beta iota; rewrite slice_prefix by lia;
    (match goal with |- context [loadImage ?e ?u] => destruct (loadImage e u) end);
    cbn; rewrite ?Hgif; (do 4 (split; [done|])); right;
    exists current, rect; do 2 eexists; (split; [lia|]); eauto.
Qed.

(** A regeneration that was not refused clears the staged selection. *)
Lemma handleRegenerate_staged (env : Browser)
    (describeResponse : DescribeResponse) (enhanceResponse : GenerateContentResponse)
    (s : Home.State) :
  let s' := Home.handleRegenerate env describeResponse enhanceResponse s in
  s' = s \/ Home.stagedSelection s' = None.
Proof.
  cbv zeta. unfold Home.handleRegenerate.
  destruct (Home.blocked s); [by left|]. right.
  destruct (at_index (Home.history s) (Home.historyIndex s)) as [current|]; [|done].
  destruct (originalRect current) as [rect|]; [|done].
  destruct (at_index (Home.history s) (Home.historyIndex s - 1)) as [previous|];
    [|done].
  destruct (loadImage env (imageSrc previous)) as [sourceImage|]; [|done].
  unfold Home.try_catch_finally, Home.regenerateBody, Home.describe,
    Home.enhance, Home.awaitImage, Home.bind, Home.update, Home.ret, Home.reject.
  destruct (has_base64 _); cbn beta iota; rewrite snoc_match; cbn beta iota;
    (match goal with |- context [loadImage ?e (serviceEnhance ?c ?p ?r)] =>
       destruct (loadImage e (serviceEnhance c p r)) end; [|done]);
    cbn beta iota;
    (match goal with |- context [loadImage ?e ?u] => destruct (loadImage e u) end);
    done.
Qed.

(** X16: whatever the services answer and whichever pictures decode,
    [handleRegenerate] never moves the cursor and never changes a step
    before the cursor; it either leaves the history as it was or ends it at
    the cursor with a step that keeps the rectangle of the step it
    replaces. *)
Theorem handleRegenerate_never_touches_cursor_or_earlier_steps (env : Browser)
    (describeResponse : DescribeResponse) (enhanceResponse : GenerateContentResponse)
    (s : Home.State) :
  let s' := Home.handleRegenerate env describeResponse enhanceResponse s in
  Home.historyIndex s' = Home.historyIndex s /\
  (forall i : nat, (i < Z.to_nat (Home.historyIndex s))%nat ->
     Home.history s' !! i = Home.history s !! i) /\
  (Home.history s' = Home.history s \/
   length (Home.history s') = S (Z.to_nat (Home.historyIndex s)) /\
   exists current new : HistoryStep,
     Home.history s !! Z.to_nat (Home.historyIndex s) = Some current /\
     Home.history s' !! Z.to_nat (Home.historyIndex s) = Some new /\
     originalRect new = originalRect current /\
     is_Some (originalRect new) /\ is_Some (description new)).
Proof.
  cbv zeta.
  destruct (handleRegenerate_footprint env describeResponse enhanceResponse s)
    as (Hi & _ & _ & _ & [Hsame | (current & rect & e & d & Hpos & Hcur & Hrect & Hh)]).
  - split; [done|]. split; [by rewrite Hsame | by left].
  - pose proof (lookup_lt_Some _ _ _ Hcur) as Hlt.
    assert (Hlen : length (take (Z.to_nat (Home.historyIndex s)) (Home.history s))
                   = Z.to_nat (Home.historyIndex s))
      by (rewrite length_take; lia).
    split; [done|]. split.
    + intros i Hlti. rewrite Hh, lookup_app_l by lia. by rewrite lookup_take_lt.
    + right. split; [rewrite Hh, length_app, Hlen; cbn; lia|].
      exists current, (mkStep e (Some d) (Some rect)).
      split; [done|]. split.
      * rewrite Hh, lookup_app_r by lia. rewrite Hlen, Nat.sub_diag. done.
      * cbn. rewrite Hrect. eauto.
Qed.

(** X17: a regeneration that gets as far as its remote calls asks for a
    description of the smooth crop of the step's selection from the picture
    of the previous step, at the selection's size, with the descriptions of
    the steps strictly before the cursor, and then for an enhancement of the
    crop padded by half the selection's size, 512 wide, with the prompts of
    those steps followed by the new one; it makes no other call.  Without a
    2D context both crops are the empty string: no description is asked
    for, and the enhancement is asked for of an empty picture. *)
Theorem handleRegenerate_calls (env : Browser)
    (describeResponse : DescribeResponse) (enhanceResponse : GenerateContentResponse)
    (s : Home.State) (current previous : HistoryStep) (rect : Rect) (nw nh : Q) :
  (0 < Home.historyIndex s)%Z ->
  Home.appState s <> ENHANCING ->
  Home.isGeneratingGif s = false ->
  Home.history s !! Z.to_nat (Home.historyIndex s) = Some current ->
  originalRect current = Some rect ->
  Home.history s !! Z.to_nat (Home.historyIndex s - 1) = Some previous ->
  decode env (imageSrc previous) = Some (nw, nh) ->
  let descs :=
    descriptions_of (take (Z.to_nat (Home.historyIndex s)) (Home.history s)) in
  let forDescription :=
    if context2d env
    then CropPng (imageSrc previous) rect (w rect) (h rect) false
    else EmptyUrl in
  let forEnhancement :=
    if context2d env
    then CropPng (imageSrc previous) (paddedRect (1 # 2) rect nw nh) 512
           (Math_round (double_mul 512 (paddedAspect (1 # 2) rect nw nh))) false
    else EmptyUrl in
  let d := serviceDescribeImage env forDescription descs describeResponse in
  Home.calls (Home.handleRegenerate env describeResponse enhanceResponse s)
  = Home.calls s
    ++ (if context2d env then [DescribeCall forDescription descs] else [])
    ++ [EnhanceCall forEnhancement (map prompt_or_empty descs ++ [prompt_or_empty d])].
Proof.
  intros Hpos Hstate Hgif Hcur Hrect Hprev Hdec. cbv zeta.
  rewrite (handleRegenerate_started env describeResponse enhanceResponse s current
             previous rect nw nh) by done.
  unfold Home.try_catch_finally, Home.regenerateBody, Home.describe,
    Home.enhance, Home.awaitImage, Home.bind, Home.update, Home.ret, Home.reject.
  unfold cropImage. cbn [src naturalWidth naturalHeight].
  destruct (context2d env); cbn beta iota delta [has_base64];
    rewrite snoc_match; cbn beta iota; rewrite !slice_prefix by lia;
    (match goal with |- context [loadImage ?e (serviceEnhance ?c ?p ?r)] =>
       destruct (loadImage e (serviceEnhance c p r)) end);
    cbn beta iota;
    try (match goal with |- context [loadImage ?e ?u] => destruct (loadImage e u) end);
    cbn; by rewrite <- ?app_assoc.
Qed.

Lemma handleRegenerate_calls_witness :
  Home.calls (Home.handleRegenerate sampleBrowser DescribeRejected Rejected
                undoneState)
  = [DescribeCall (CropPng (ObjectUrl 0) sampleRect 100 75 false) [];
     EnhanceCall
       (CropPng (ObjectUrl 0) (paddedRect (1 # 2) sampleRect 800 600) 512
          (Math_round (double_mul 512 (paddedAspect (1 # 2) sampleRect 800 600)))
          false)
       [""%string]].
Proof.
  apply (handleRegenerate_calls sampleBrowser DescribeRejected Rejected undoneState
           stepB stepA sampleRect 800 600
           ltac:(reflexivity) ltac:(discriminate) eq_refl eq_refl eq_refl eq_refl
           eq_refl).
Defined.

(** X18: a regeneration whose enhanced picture (the one that
    [serviceEnhance] yields for the padded crop) does not decode replaces
    nothing: the history and the cursor are as before and the application is
    back in the LOADED state showing what it showed; no picture of twice the
    selection's size is substituted on this path. *)
Theorem handleRegenerate_keeps_history_on_decode_failure (env : Browser)
    (describeResponse : DescribeResponse) (enhanceResponse : GenerateContentResponse)
    (s : Home.State) (current previous : HistoryStep) (rect : Rect) (nw nh : Q) :
  (0 < Home.historyIndex s)%Z ->
  Home.appState s <> ENHANCING ->
  Home.isGeneratingGif s = false ->
  Home.history s !! Z.to_nat (Home.historyIndex s) = Some current ->
  originalRect current = Some rect ->
  Home.history s !! Z.to_nat (Home.historyIndex s - 1) = Some previous ->
  decode env (imageSrc previous) = Some (nw, nh) ->
  let sourceImage := mkImage (imageSrc previous) nw nh in
  let descs :=
    descriptions_of (take (Z.to_nat (Home.historyIndex s)) (Home.history s)) in
  let d :=
    serviceDescribeImage env
      (cropImage env sourceImage rect (w rect) (h rect) false) descs
      describeResponse in
  let forEnhancement :=
    cropImage env sourceImage (paddedRect (1 # 2) rect nw nh) 512
      (Math_round (double_mul 512 (paddedAspect (1 # 2) rect nw nh))) false in
  decode env
    (serviceEnhance forEnhancement (map prompt_or_empty descs ++ [prompt_or_empty d])
       enhanceResponse)
  = None ->
  let s' := Home.handleRegenerate env describeResponse enhanceResponse s in
  Home.history s' = Home.history s /\
  Home.historyIndex s' = Home.historyIndex s /\
  Home.appState s' = LOADED /\
  Home.image s' = Home.image s /\
  Home.finalImageSrc s' = Home.finalImageSrc s.
Proof.
  intros Hpos Hstate Hgif Hcur Hrect Hprev Hdec sourceImage descs d forEnhancement
    Hfail. cbv zeta.
  rewrite (handleRegenerate_started env describeResponse enhanceResponse s current
             previous rect nw nh) by done.
  unfold Home.try_catch_finally, Home.regenerateBody, Home.describe,
    Home.enhance, Home.awaitImage, Home.bind, Home.update, Home.ret, Home.reject.
  fold sourceImage.
  destruct (has_base64 _); cbn beta iota; rewrite snoc_match; cbn beta iota;
    rewrite !slice_prefix by lia; fold descs; fold d;
    cbn [naturalWidth naturalHeight sourceImage]; fold sourceImage;
    fold forEnhancement; unfold loadImage; rewrite Hfail; cbn; done.
Qed.

Lemma handleRegenerate_keeps_history_on_decode_failure_witness :
  Home.history (Home.handleRegenerate undecodingBrowser DescribeRejected
                  sampleModelResponse undoneState)
  = [stepA; stepB; stepC] /\
  Home.appState (Home.handleRegenerate undecodingBrowser DescribeRejected
                   sampleModelResponse undoneState) = LOADED.
Proof.
  pose proof (handleRegenerate_keeps_history_on_decode_failure undecodingBrowser
                DescribeRejected sampleModelResponse undoneState stepB stepA
                sampleRect 800 600
                ltac:(reflexivity) ltac:(discriminate) eq_refl eq_refl eq_refl
                eq_refl eq_refl eq_refl) as H.
  cbv zeta in H. destruct H as (H1 & _ & H3 & _).
  split; [exact H1 | exact H3].
Defined.

Lemma handleRegenerate_never_touches_cursor_or_earlier_steps_witness :
  Home.historyIndex (Home.handleRegenerate sampleBrowser DescribeRejected Rejected
                       undoneState) = 1%Z /\
  Home.history (Home.handleRegenerate sampleBrowser DescribeRejected Rejected
                  undoneState) !! 0%nat = Some stepA.
Proof.
  pose proof (handleRegenerate_never_touches_cursor_or_earlier_steps sampleBrowser
                DescribeRejected Rejected undoneState) as H.
  cbv zeta in H. destruct H as (Hi & Hbefore & _).
  split; [exact Hi|]. apply (Hbefore 0%nat). cbn. lia.
Defined.

(** ** Undo and redo *)

(** Moving the cursor to a step of the history. *)
Lemma moveTo_effect (env : Browser) (newIndex : Z) (s : Home.State)
    (step : HistoryStep) :
  (0 <= newIndex)%Z ->
  Home.history s !! Z.to_nat newIndex = Some step ->
  let s' := Home.moveTo env newIndex s in
  Home.historyIndex s' = newIndex /\
  Home.history s' = Home.history s /\
  Home.appState s' = Home.appState s /\
  Home.isGeneratingGif s' = Home.isGeneratingGif s /\
  Home.enhancementJob s' = Home.enhancementJob s /\
  Home.newHistoryEntryData s' = Home.newHistoryEntryData s /\
  Home.stagedSelection s' = None /\
  Home.displaySelection s'
  = Home.history s !! Z.to_nat (newIndex + 1) ≫= originalRect /\
  match decode env (imageSrc step) with
  | Some (nw, nh) =>
      Home.image s' = Some (mkImage (imageSrc step) nw nh) /\
      Home.finalImageSrc s' = Some (imageSrc step)
  | None =>
      Home.image s' = Home.image s /\ Home.finalImageSrc s' = Home.finalImageSrc s
  end.
Proof.
  intros Hpos Hstep. cbv zeta. unfold Home.moveTo.
  rewrite !at_index_lookup by lia. rewrite Hstep. unfold loadImage.
  destruct (decode env (imageSrc step)) as [[nw nh]|]; cbn; done.
Qed.

(** X19: an undo that is allowed (cursor > 0, not enhancing, no export
    running) moves the cursor back by one, leaves the steps of the history
    untouched, shows the picture of the step it lands on when that decodes,
    clears a staged selection, and marks as previous crop the rectangle of
    the step that was undone. *)
Theorem handleUndo_steps_back_and_marks_crop (env : Browser) (s : Home.State)
    (undone landed : HistoryStep) :
  (0 < Home.historyIndex s)%Z ->
  Home.appState s <> ENHANCING ->
  Home.isGeneratingGif s = false ->
  Home.history s !! Z.to_nat (Home.historyIndex s) = Some undone ->
  Home.history s !! Z.to_nat (Home.historyIndex s - 1) = Some landed ->
  let s' := Home.handleUndo env s in
  Home.historyIndex s' = (Home.historyIndex s - 1)%Z /\
  Home.history s' = Home.history s /\
  Home.displaySelection s' = originalRect undone /\
  Home.stagedSelection s' = None /\
  (forall nw nh, decode env (imageSrc landed) = Some (nw, nh) ->
     Home.image s' = Some (mkImage (imageSrc landed) nw nh) /\
     Home.finalImageSrc s' = Some (imageSrc landed)).
Proof.
  intros Hpos Hstate Hgif Hundone Hlanded. cbv zeta.
  unfold Home.handleUndo, Home.blocked.
  destruct (Home.historyIndex s <=? 0)%Z eqn:E; [lia|].
  rewrite bool_decide_eq_false_2 by done. rewrite Hgif. cbn [orb].
  destruct (moveTo_effect env (Home.historyIndex s - 1) s landed ltac:(lia) Hlanded)
    as (M1 & M2 & _ & _ & _ & _ & M7 & M8 & M9).
  split; [done|]. split; [done|]. split; [|split; [done|]].
  - rewrite M8. replace (Home.historyIndex s - 1 + 1)%Z with (Home.historyIndex s)
      by lia.
    by rewrite Hundone.
  - intros nw nh Hd. by rewrite Hd in M9.
Qed.

Lemma handleUndo_steps_back_and_marks_crop_witness :
  Home.historyIndex (Home.handleUndo sampleBrowser undoneState) = 0%Z /\
  Home.displaySelection (Home.handleUndo sampleBrowser undoneState)
  = Some sampleRect.
Proof.
  pose proof (handleUndo_steps_back_and_marks_crop sampleBrowser undoneState
                stepB stepA ltac:(reflexivity) ltac:(discriminate)
                eq_refl eq_refl eq_refl) as H.
  cbv zeta in H. destruct H as (H1 & _ & H3 & _).
  split; [exact H1 | exact H3].
Defined.

(** X20: undo followed by redo is a round trip on the history: the cursor
    is back where it was, no step has changed, the picture shown is that of
    the step at the cursor (when it decodes), and the previous-crop mark is
    the rectangle of the step after the cursor, if there is one. *)
Theorem handleRedo_after_handleUndo_round_trip (env : Browser) (s : Home.State)
    (current landed : HistoryStep) :
  (0 < Home.historyIndex s)%Z ->
  Home.appState s <> ENHANCING ->
  Home.isGeneratingGif s = false ->
  Home.history s !! Z.to_nat (Home.historyIndex s) = Some current ->
  Home.history s !! Z.to_nat (Home.historyIndex s - 1) = Some landed ->
  let s' := Home.handleRedo env (Home.handleUndo env s) in
  Home.historyIndex s' = Home.historyIndex s /\
  Home.history s' = Home.history s /\
  Home.displaySelection s'
  = Home.history s !! S (Z.to_nat (Home.historyIndex s)) ≫= originalRect /\
  (forall nw nh, decode env (imageSrc current) = Some (nw, nh) ->
     Home.image s' = Some (mkImage (imageSrc current) nw nh) /\
     Home.finalImageSrc s' = Some (imageSrc current)).
Proof.
  intros Hpos Hstate Hgif Hcur Hlanded. cbv zeta.
  pose proof (lookup_lt_Some _ _ _ Hcur) as Hlt.
  assert (Hundo : Home.handleUndo env s = Home.moveTo env (Home.historyIndex s - 1) s).
  { unfold Home.handleUndo, Home.blocked.
    destruct (Home.historyIndex s <=? 0)%Z eqn:E; [lia|].
    rewrite bool_decide_eq_false_2 by done. by rewrite Hgif. }
  rewrite Hundo.
  destruct (moveTo_effect env (Home.historyIndex s - 1) s landed ltac:(lia) Hlanded)
    as (M1 & M2 & M3 & M4 & _).
  set (s1 := Home.moveTo env (Home.historyIndex s - 1) s) in *.
  unfold Home.handleRedo. rewrite M1, M2, M3, M4, Hgif.
  destruct (Z.of_nat (length (Home.history s)) - 1 <=? Home.historyIndex s - 1)%Z
    eqn:E; [lia|].
  rewrite bool_decide_eq_false_2 by done. cbn [orb].
  replace (Home.historyIndex s - 1 + 1)%Z with (Home.historyIndex s) by lia.
  destruct (moveTo_effect env (Home.historyIndex s) s1 current ltac:(lia))
    as (R1 & R2 & _ & _ & _ & _ & _ & R8 & R9); [by rewrite M2|].
  split; [done|]. split; [by rewrite R2|]. split.
  - rewrite R8, M2. by replace (Z.to_nat (Home.historyIndex s + 1))
      with (S (Z.to_nat (Home.historyIndex s))) by lia.
  - intros nw nh Hd. by rewrite Hd in R9.
Qed.

Lemma handleRedo_after_handleUndo_round_trip_witness :
  Home.historyIndex
    (Home.handleRedo sampleBrowser (Home.handleUndo sampleBrowser undoneState))
  = 1%Z /\
  Home.displaySelection
    (Home.handleRedo sampleBrowser (Home.handleUndo sampleBrowser undoneState))
  = Some sampleRect.
Proof.
  pose proof (handleRedo_after_handleUndo_round_trip sampleBrowser undoneState
                stepB stepA ltac:(reflexivity) ltac:(discriminate)
                eq_refl eq_refl eq_refl) as H.
  cbv zeta in H. destruct H as (H1 & _ & H3 & _).
  split; [exact H1 | exact H3].
Defined.

(** ** Invariants of the session *)

Lemma history_shaped_initial (u : Src) : history_shaped [mkStep u None None].
Proof.
  intros i step Hi. destruct i as [|i]; [|done].
  injection Hi as <-. split; [done | lia].
Qed.

Lemma history_shaped_take (steps : list HistoryStep) (n : nat) :
  history_shaped steps -> history_shaped (take n steps).
Proof.
  intros Hs i step Hi. apply Hs.
  destruct (decide (i < n)%nat) as [Hlt | Hge].
  - by rewrite lookup_take_lt in Hi.
  - by rewrite lookup_take_ge in Hi by lia.
Qed.

Lemma history_shaped_snoc (steps : list HistoryStep) (e : Src)
    (d : ImageDescription) (r : Rect) :
  history_shaped steps -> steps <> [] ->
  history_shaped (steps ++ [mkStep e (Some d) (Some r)]).
Proof.
  intros Hs Hne i step Hi.
  destruct (decide (i < length steps)%nat) as [Hlt | Hge].
  - rewrite lookup_app_l in Hi by done. by apply Hs.
  - rewrite lookup_app_r in Hi by lia.
    destruct (i - length steps)%nat eqn:E; [|done].
    injection Hi as <-. cbn.
    assert (0 < length steps)%nat by (destruct steps; [done | cbn; lia]).
    split; [lia | eauto].
Qed.

Lemma invariant_initial : invariant Home.initial.
Proof.
  unfold invariant, cursor_valid, busy_unstaged, pending_has_history. cbn.
  split; [by left|]. split; [by intros i step Hl|].
  split; [by intros [? | ?] | done].
Qed.

(** A state that differs only in cells the invariant does not read. *)
Lemma invariant_same_core (s s' : Home.State) :
  Home.history s' = Home.history s ->
  Home.historyIndex s' = Home.historyIndex s ->
  Home.enhancementJob s' = Home.enhancementJob s ->
  Home.newHistoryEntryData s' = Home.newHistoryEntryData s ->
  busy_unstaged s' ->
  invariant s -> invariant s'.
Proof.
  intros Hh Hi Hj Hn Hb (I1 & I2 & I3 & I4).
  unfold invariant, cursor_valid, pending_has_history.
  rewrite Hh, Hi, Hj, Hn. done.
Qed.

Lemma invariant_loadInitialImage (s : Home.State) :
  invariant s -> invariant (Session.loadInitialImage s).
Proof.
  intros Hinv. apply (invariant_same_core s); try done.
  by intros [? | ?].
Qed.

Lemma invariant_initialImageSettled (env : Browser) (fetched : option Src)
    (s : Home.State) :
  invariant s -> invariant (Session.initialImageSettled env fetched s).
Proof.
  intros Hinv. unfold Session.initialImageSettled.
  assert (Hidle : invariant (Home.setAppState IDLE s)).
  { apply (invariant_same_core s); try done. by intros [? | ?]. }
  destruct fetched as [objectURL|]; [|done].
  destruct (loadImage env objectURL) as [img|]; [|done].
  unfold invariant, cursor_valid, busy_unstaged, pending_has_history. cbn.
  split; [right; lia|]. split; [apply history_shaped_initial|].
  split; [by intros [? | ?] | done].
Qed.

Lemma invariant_resetState (s : Home.State) : invariant (Session.resetState s).
Proof.
  unfold Session.resetState, Session.loadInitialImage.
  unfold invariant, cursor_valid, busy_unstaged, pending_has_history. cbn.
  split; [by left|]. split; [by intros i step Hl|]. done.
Qed.

Lemma toolbar_loaded (s : Home.State) :
  Session.toolbar s = true ->
  Home.appState s = LOADED /\ (1 <= length (Home.history s))%nat.
Proof.
  unfold Session.toolbar. intros H. apply andb_true_iff in H as [H1 H2].
  apply bool_decide_eq_true_1 in H1. apply Nat.leb_le in H2. done.
Qed.

Lemma invariant_handleFileDrop (env : Browser) (u : Src) (s : Home.State) :
  invariant s -> invariant (Home.handleFileDrop env u s).
Proof.
  intros Hinv. unfold Home.handleFileDrop.
  destruct (loadImage env u) as [img|]; [|done].
  unfold invariant, cursor_valid, busy_unstaged, pending_has_history. cbn.
  split; [right; lia|]. split; [apply history_shaped_initial|].
  split; [by intros [? | ?] | done].
Qed.

(** Staging or unstaging while the picture is on display. *)
Lemma invariant_stage (s : Home.State) (staged : option Staged.t) :
  invariant s -> Home.appState s <> ENHANCING -> Home.appState s <> ENHANCED ->
  invariant (Home.setStagedSelection staged s).
Proof.
  intros Hinv H1 H2. apply (invariant_same_core s); try done.
  by intros [? | ?].
Qed.

Lemma imageDisplayed_idle (s : Home.State) :
  Session.imageDisplayed s = true ->
  Home.appState s <> ENHANCING /\ Home.appState s <> ENHANCED.
Proof.
  unfold Session.imageDisplayed. intros H. apply andb_true_iff in H as [_ H].
  apply negb_true_iff, orb_false_iff in H as [H1 H2].
  apply bool_decide_eq_false_1 in H1. by apply bool_decide_eq_false_1 in H2.
Qed.

Lemma invariant_clickProcess (env : Browser) (s : Home.State) :
  invariant s -> invariant (Home.clickProcess env s).
Proof.
  intros Hinv. unfold Home.clickProcess.
  destruct (bool_decide (Home.appState s = LOADED)) eqn:Hl; [|done].
  apply bool_decide_eq_true_1 in Hl.
  destruct (Nat.leb_spec 1 (length (Home.history s))) as [Hlen|]; [|done].
  cbn [andb]. unfold Home.handleProcessClick.
  destruct (Home.stagedSelection s) as [staged|] eqn:Hsel; [|done].
  destruct (Home.image s) as [img|] eqn:Himg.
  - pose proof Hinv as (I1 & I2 & I3 & I4).
    assert (Hidx : (0 <= Home.historyIndex s < Z.of_nat (length (Home.history s)))%Z).
    { destruct I1 as [[Hnil _] | H]; [|done]. rewrite Hnil in Hlen. cbn in Hlen. lia. }
    destruct (clickProcess_effect env s staged img Hl Hsel Himg Hidx)
      as (Ha & _ & Hj & _ & Hh & Hx & _).
    unfold Home.clickProcess, Home.handleProcessClick in Ha, Hj, Hh, Hx.
    rewrite Hl, Hsel in Ha, Hj, Hh, Hx.
    rewrite bool_decide_eq_true_2 in Ha, Hj, Hh, Hx by done.
    destruct (Nat.leb_spec 1 (length (Home.history s))) as [_|]; [|lia].
    cbn [andb] in Ha, Hj, Hh, Hx.
    unfold invariant, cursor_valid, busy_unstaged, pending_has_history.
    rewrite Hj, Hh, Hx.
    assert (Hlt : length (take (S (Z.to_nat (Home.historyIndex s))) (Home.history s))
                  = S (Z.to_nat (Home.historyIndex s)))
      by (rewrite length_take; lia).
    split; [right; rewrite Hlt; lia|].
    split; [by apply history_shaped_take|].
    split; [done|].
    intros Hnil. rewrite Hnil in Hlt. done.
  - unfold Home.startEnhancementProcess. rewrite Himg.
    apply invariant_stage; [done | congruence | congruence].
Qed.

Lemma invariant_selectionAnimatorComplete (env : Browser)
    (describeResponse : DescribeResponse) (enhanceResponse : GenerateContentResponse)
    (s : Home.State) :
  invariant s ->
  invariant (Home.selectionAnimatorComplete env describeResponse enhanceResponse s).
Proof.
  intros Hinv. unfold Home.selectionAnimatorComplete.
  destruct (Home.enhancementJob s) as [job|] eqn:Hj; [|done].
  destruct (Home.finalEnhancementRect s); [|done].
  destruct (bool_decide (Home.appState s = ENHANCING)) eqn:Hst; [|done].
  apply bool_decide_eq_true_1 in Hst.
  destruct (Home.image s) as [img|] eqn:Himg;
    [|unfold Home.runEnhancementJob; by rewrite Hj, Himg].
  destruct (runEnhancementJob_footprint env describeResponse enhanceResponse s job
              img Hj Himg) as (F1 & F2 & _ & _ & _ & (d & F6) & F7 & F8 & F9 & _).
  destruct Hinv as (I1 & I2 & I3 & I4).
  unfold invariant, cursor_valid, busy_unstaged, pending_has_history.
  rewrite F2, F6, F7, F8, F9. split; [done|]. split; [done|].
  split; [intros _; apply I3; by left|].
  intros Hnil. destruct (I4 Hnil) as [_ Hnone]. congruence.
Qed.

Lemma invariant_handleEnhancementComplete (env : Browser) (s : Home.State) :
  invariant s -> Home.appState s = ENHANCED ->
  invariant (Home.handleEnhancementComplete env s).
Proof.
  intros Hinv Hst. unfold Home.handleEnhancementComplete.
  destruct (Home.enhancedImageSrc s) as [e|] eqn:He; [|done].
  destruct (Home.newHistoryEntryData s) as [[d r]|] eqn:Hn; [|done].
  destruct (negb (truthy (Some e))) eqn:Ht; [done|].
  destruct Hinv as (I1 & I2 & I3 & I4).
  assert (Hsel : Home.stagedSelection s = None) by (apply I3; by right).
  assert (Hidx : (0 <= Home.historyIndex s < Z.of_nat (length (Home.history s)))%Z).
  { destruct I1 as [[Hnil _] | H]; [|done]. destruct (I4 Hnil). congruence. }
  rewrite slice_prefix by lia.
  replace (Z.to_nat (Home.historyIndex s + 1))
    with (S (Z.to_nat (Home.historyIndex s))) by lia.
  assert (Hlt : length (take (S (Z.to_nat (Home.historyIndex s))) (Home.history s))
                = S (Z.to_nat (Home.historyIndex s)))
    by (rewrite length_take; lia).
  assert (Hne : take (S (Z.to_nat (Home.historyIndex s))) (Home.history s) <> [])
    by (intros Hnil; rewrite Hnil in Hlt; done).
  assert (Hshape :
    history_shaped
      (take (S (Z.to_nat (Home.historyIndex s))) (Home.history s)
       ++ [mkStep e (Some d) (Some r)]))
    by (apply history_shaped_snoc; [by apply history_shaped_take | done]).
  unfold invariant, cursor_valid, busy_unstaged, pending_has_history.
  destruct (loadImage env e); cbn; rewrite ?length_app, Hlt; cbn;
    (split; [right; lia|]); (split; [done|]);
    (split; [done|]);
    intros Hnil; by destruct (app_cons_not_nil _ _ _ (eq_sym Hnil)).
Qed.

Lemma invariant_pixelDissolveComplete (env : Browser) (s : Home.State) :
  invariant s -> invariant (Home.pixelDissolveComplete env s).
Proof.
  intros Hinv. unfold Home.pixelDissolveComplete.
  destruct (bool_decide (Home.appState s = ENHANCED)) eqn:Hst; [|done].
  apply bool_decide_eq_true_1 in Hst.
  match goal with |- context [if ?c then _ else _] => destruct c end; [|done].
  destruct (Home.pixelatedImageSrc s ≫= loadImage env); [|done].
  destruct (Home.enhancedImageSrc s ≫= loadImage env); [|done].
  destruct (context2d env); [|done].
  by apply invariant_handleEnhancementComplete.
Qed.

(** What moving the cursor changes, wherever it is moved to. *)
Lemma moveTo_footprint (env : Browser) (newIndex : Z) (s : Home.State) :
  let s' := Home.moveTo env newIndex s in
  Home.historyIndex s' = newIndex /\
  Home.history s' = Home.history s /\
  Home.enhancementJob s' = Home.enhancementJob s /\
  Home.newHistoryEntryData s' = Home.newHistoryEntryData s /\
  Home.appState s' = Home.appState s /\
  (Home.stagedSelection s' = Home.stagedSelection s \/ Home.stagedSelection s' = None).
Proof.
  cbv zeta. unfold Home.moveTo.
  destruct (at_index (Home.history s) newIndex) as [step|]; [|cbn; eauto 10].
  destruct (loadImage env (imageSrc step)); cbn; eauto 10.
Qed.

Lemma invariant_moveTo (env : Browser) (newIndex : Z) (s : Home.State) :
  invariant s ->
  (0 <= newIndex < Z.of_nat (length (Home.history s)))%Z ->
  invariant (Home.moveTo env newIndex s).
Proof.
  intros (I1 & I2 & I3 & I4) Hidx.
  destruct (moveTo_footprint env newIndex s) as (M1 & M2 & M3 & M4 & M5 & M6).
  unfold invariant, cursor_valid, busy_unstaged, pending_has_history.
  rewrite M1, M2, M3, M4, M5. split; [by right|]. split; [done|]. split; [|done].
  intros Hbusy. destruct M6 as [-> | ->]; [by apply I3 | done].
Qed.

Lemma invariant_handleUndo (env : Browser) (s : Home.State) :
  invariant s -> invariant (Home.handleUndo env s).
Proof.
  intros Hinv. unfold Home.handleUndo, Home.blocked.
  destruct (Z.leb_spec (Home.historyIndex s) 0) as [|Hpos]; [done|].
  destruct (bool_decide (Home.appState s = ENHANCING)); [done|].
  destruct (Home.isGeneratingGif s); [done|]. cbn [orb].
  apply invariant_moveTo; [done|].
  destruct Hinv as ([[_ Hi] | Hidx] & _); lia.
Qed.

Lemma invariant_handleRedo (env : Browser) (s : Home.State) :
  invariant s -> invariant (Home.handleRedo env s).
Proof.
  intros Hinv. unfold Home.handleRedo.
  destruct (Z.leb_spec (Z.of_nat (length (Home.history s)) - 1) (Home.historyIndex s))
    as [|Hlt]; [done|].
  destruct (bool_decide (Home.appState s = ENHANCING)); [done|].
  destruct (Home.isGeneratingGif s); [done|]. cbn [orb].
  apply invariant_moveTo; [done|].
  destruct Hinv as ([[_ Hi] | Hidx] & _); lia.
Qed.

Lemma invariant_handleRegenerate (env : Browser)
    (describeResponse : DescribeResponse) (enhanceResponse : GenerateContentResponse)
    (s : Home.State) :
  invariant s ->
  invariant (Home.handleRegenerate env describeResponse enhanceResponse s).
Proof.
  intros Hinv.
  destruct (handleRegenerate_staged env describeResponse enhanceResponse s)
    as [Hsame | Hnone]; [by rewrite Hsame|].
  destruct Hinv as (I1 & I2 & I3 & I4).
  destruct (handleRegenerate_footprint env describeResponse enhanceResponse s)
    as (Hi & Hjob & Hn & _ & Hhist).
  unfold invariant, cursor_valid, busy_unstaged, pending_has_history.
  rewrite Hi, Hjob, Hn, Hnone.
  destruct Hhist as [-> | (current & rect & e & d & Hpos & Hcur & Hrect & ->)].
  - done.
  - pose proof (lookup_lt_Some _ _ _ Hcur) as Hlt.
    assert (Hlen : length (take (Z.to_nat (Home.historyIndex s)) (Home.history s))
                   = Z.to_nat (Home.historyIndex s))
      by (rewrite length_take; lia).
    split; [right; rewrite length_app, Hlen; cbn; lia|].
    split.
    + apply history_shaped_snoc; [by apply history_shaped_take|].
      intros Hnil. rewrite Hnil in Hlen. cbn in Hlen. lia.
    + split; [done|].
      intros Hnil. by destruct (app_cons_not_nil _ _ _ (eq_sym Hnil)).
Qed.

Lemma invariant_handleExportGif (env : Browser) (s : Home.State) :
  invariant s -> invariant (fst (Home.handleExportGif env s)).
Proof.
  intros Hinv. unfold Home.handleExportGif.
  destruct (Home.historyIndex s <? 1)%Z; [done|].
  destruct (generateZoomGif env _); cbn [fst];
    apply (invariant_same_core s); try done;
    destruct Hinv as (_ & _ & I3 & _); exact I3.
Qed.

(** Every event on the state of [Home] keeps the invariant. *)
Lemma invariant_handle (env : Browser) (s : Home.State) (e : Session.Event) :
  invariant s -> invariant (Session.handle env s e).
Proof.
  intros Hinv. destruct e; cbn [Session.handle].
  - by apply invariant_handleFileDrop.
  - destruct (Session.imageDisplayed s) eqn:Hd; [|done].
    apply imageDisplayed_idle in Hd as [H1 H2]. unfold Home.mouseDown.
    destruct (ImageDisplay.handleMouseDown env _ canvas pos disp) as [d' [staged|]];
      [|done].
    by apply invariant_stage.
  - destruct (Session.imageDisplayed s) eqn:Hd; [|done].
    apply imageDisplayed_idle in Hd as [H1 H2]. unfold Home.mouseUp.
    destruct (ImageDisplay.handleMouseUp _ canvas disp) as [d' [staged|]]; [|done].
    by apply invariant_stage.
  - unfold Session.clickCancel.
    destruct (Session.toolbar s) eqn:Ht; [|done].
    destruct (Session.staging s); [|done]. cbn [andb].
    apply toolbar_loaded in Ht as [Hl _].
    apply invariant_stage; [done | congruence | congruence].
  - by apply invariant_clickProcess.
  - by apply invariant_selectionAnimatorComplete.
  - by apply invariant_pixelDissolveComplete.
  - unfold Session.clickUndo.
    match goal with |- context [if ?c then _ else _] => destruct c end; [|done].
    by apply invariant_handleUndo.
  - unfold Session.clickRedo.
    match goal with |- context [if ?c then _ else _] => destruct c end; [|done].
    by apply invariant_handleRedo.
  - unfold Session.clickRegenerate.
    match goal with |- context [if ?c then _ else _] => destruct c end; [|done].
    by apply invariant_handleRegenerate.
  - unfold Session.clickExport.
    match goal with |- context [if ?c then _ else _] => destruct c end; [|done].
    by apply invariant_handleExportGif.
  - destruct (Session.resetShown s); [|done]. apply invariant_resetState.
  - done.
Qed.

(** Every step of a session keeps the invariant, also the settling of a
    load started earlier. *)
Lemma invariant_step (env : Browser) (c : Session.t) (e : Session.Event) :
  invariant (Session.home c) -> invariant (Session.home (Session.step env c e)).
Proof.
  intros Hinv.
  destruct e; cbn [Session.step Session.home];
    try (by apply invariant_handle).
  destruct (Session.loading c !! k) as [fetched|]; [|done].
  cbn [Session.home]. by apply invariant_initialImageSettled.
Qed.

(** Every state of a session satisfies the invariant. *)
Lemma invariant_run (env : Browser) (fetched : option Src)
    (events : list Session.Event) :
  invariant (Session.run env fetched events).
Proof.
  unfold Session.run.
  assert (Hstart : invariant (Session.home (Session.mount fetched)))
    by (apply invariant_loadInitialImage, invariant_initial).
  revert Hstart. generalize (Session.mount fetched).
  induction events as [|e events IH]; intros c Hc; [done|].
  cbn [foldl]. by apply IH, invariant_step.
Qed.

(** A load that settles late: a picture is dropped and a selection
    confirmed while the initial picture is still being fetched; when that
    load settles the application shows the fetched picture in the LOADED
    state, with the job of the dropped picture still in flight. *)
Example late_load_keeps_job :
  let dropped := mkImage (ObjectUrl 7) 800 600 in
  let s := Session.run sampleBrowser (Some (ObjectUrl 0))
             [Session.DropFile (ObjectUrl 7);
              Session.MouseDown (Some (1280, 720)) (640, 360)
                (ImageDisplay.mkState (Some dropped) None None);
              Session.ClickProcess;
              Session.InitialImageSettled 0] in
  Home.appState s = LOADED /\
  Home.history s = [mkStep (ObjectUrl 0) None None] /\
  is_Some (Home.enhancementJob s).
Proof. cbv zeta. split; [|split]; vm_compute; eauto. Qed.

(** X21: in every state a session can reach from the mount of the
    component, by any series of drops, clicks, mouse events and animation
    ends (each handler running to its end before the next event; a load of
    the initial picture may settle at any point in between), the cursor is a
    valid index of the history, or -1 when the history is empty; so the step
    counter shown is between 1 and the number of steps. *)
Theorem session_cursor_always_valid (env : Browser) (fetched : option Src)
    (events : list Session.Event) :
  let s := Session.run env fetched events in
  (Home.history s = [] /\ Home.historyIndex s = (-1)%Z) \/
  (0 <= Home.historyIndex s < Z.of_nat (length (Home.history s)))%Z.
Proof. cbv zeta. by destruct (invariant_run env fetched events) as (I1 & _). Qed.


(** X23: in every state a session can reach (each handler running to its
    end before the next event, a load of the initial picture settling at any
    point in between), no selection is staged while an enhancement is
    prepared or revealed (the states ENHANCING and ENHANCED); and whenever a
    job is in flight or an entry waits to be committed, the history is not
    empty. *)
Theorem session_no_staged_selection_while_enhancing (env : Browser)
    (fetched : option Src) (events : list Session.Event) :
  let s := Session.run env fetched events in
  (Home.appState s = ENHANCING \/ Home.appState s = ENHANCED ->
   Home.stagedSelection s = None) /\
  (is_Some (Home.enhancementJob s) \/ is_Some (Home.newHistoryEntryData s) ->
   Home.history s <> []).
Proof.
  cbv zeta. destruct (invariant_run env fetched events) as (_ & _ & I3 & I4).
  split; [exact I3|].
  intros Hsome Hnil. destruct (I4 Hnil) as [Hn Hj]. rewrite Hn, Hj in Hsome.
  by destruct Hsome as [[? ?] | [? ?]].
Qed.


Lemma session_no_staged_selection_while_enhancing_witness :
  Home.appState sampleSessionEnhancing = ENHANCING /\
  Home.stagedSelection sampleSessionEnhancing = None /\
  Home.history sampleSessionEnhancing <> [].
Proof.
  pose proof (session_no_staged_selection_while_enhancing sampleBrowser
                (Some (ObjectUrl 0)) (take 3 sampleEvents)) as H.
  cbv zeta in H. destruct H as [H1 H2].
  split; [vm_compute; reflexivity|].
  split; [apply H1; left; vm_compute; reflexivity|].
  apply H2. left. vm_compute. eauto.
Defined.




(** ** Pixel reveal, continued *)

(** Sixty frames' worth of pixels cover the whole canvas. *)
Lemma sixty_frames_cover (totalPixels : nat) :
  (totalPixels <= 60 * PixelDissolve.pixelsPerFrame totalPixels)%nat.
Proof.
  unfold PixelDissolve.pixelsPerFrame.
  set (q := inject_Z (Z.of_nat totalPixels) / 60).
  assert (Hq : inject_Z (Z.of_nat totalPixels) == 60 * q) by (unfold q; field).
  pose proof (Qle_ceiling q) as Hc.
  assert (Hz : (Z.of_nat totalPixels <= 60 * Qceiling q)%Z).
  { rewrite Zle_Qle, inject_Z_mult, Hq. change (inject_Z 60) with 60. lra. }
  lia.
Qed.

Section PixelRevealFrames.

Variable random : nat -> Q.
Variable mounted : nat -> bool.
Hypothesis random_range : forall k : nat, 0 <= random k /\ random k < 1.

(** Revealing every entry of the shuffled array turns the low-detail
    buffer into the high-detail one. *)
Lemma reveal_all_gives_high (totalPixels : nat) (low high : list Byte.byte) :
  length low = (4 * totalPixels)%nat ->
  length high = (4 * totalPixels)%nat ->
  foldl (PixelDissolve.reveal high (PixelDissolve.shuffle random totalPixels)) low
        (seq 0 totalPixels)
  = high.
Proof.
  intros Hlow Hhigh.
  pose proof (shuffle_permutation random random_range totalPixels) as Hperm.
  set (pixelIndices := PixelDissolve.shuffle random totalPixels) in *.
  assert (Hlenp : length pixelIndices = totalPixels)
    by (rewrite Hperm, length_map, length_seq; done).
  destruct (foldl_reveal_agrees high pixelIndices totalPixels (seq 0 totalPixels) low)
    as [Rlen Rk]; [done | done | |].
  { intros i Hi. apply elem_of_seq in Hi.
    destruct (lookup_lt_is_Some_2 pixelIndices i ltac:(lia)) as [v Hv].
    assert (Hin : v ∈ pixelIndices) by (by eapply list_elem_of_lookup_2).
    rewrite Hperm in Hin. apply list_elem_of_fmap in Hin as (p & -> & Hp).
    apply elem_of_seq in Hp. exists p.
    unfold PixelDissolve.js_get. rewrite Hv. split; [done | lia]. }
  apply list_eq. intros k.
  destruct (Nat.lt_ge_cases k (4 * totalPixels)) as [Hk | Hk].
  - apply Rk. right.
    assert (Hp : Some (k / 4)%nat ∈ pixelIndices).
    { rewrite Hperm. apply list_elem_of_fmap. exists (k / 4)%nat. split; [done|].
      apply elem_of_seq. split; [lia|].
      rewrite Nat.add_0_l. apply Nat.Div0.div_lt_upper_bound. lia. }
    apply list_elem_of_lookup in Hp as [i Hi].
    exists i, (k / 4)%nat. split; [|split].
    + apply elem_of_seq. apply lookup_lt_Some in Hi. lia.
    + unfold PixelDissolve.js_get. by rewrite Hi.
    + pose proof (Nat.div_mod_eq k 4). pose proof (Nat.mod_upper_bound k 4). lia.
  - rewrite !lookup_ge_None_2; [done | lia | lia].
Qed.

(** [onComplete] is called at most once more, and only on a canvas that
    was given the high-detail data after every pixel was processed. *)
Lemma animate_reports_once (high : list Byte.byte) (pixelIndices : list (option nat))
    (totalPixels fuel frame : nat) (st st' : PixelDissolve.Anim) :
  PixelDissolve.animate mounted fuel totalPixels high pixelIndices frame st = Some st' ->
  PixelDissolve.completed st' = PixelDissolve.completed st \/
  (PixelDissolve.completed st' = S (PixelDissolve.completed st) /\
   PixelDissolve.shown st' = high /\
   (totalPixels <= PixelDissolve.currentPixel st')%nat).
Proof.
  revert frame st. induction fuel as [|fuel IH]; intros frame st Hrun; [done|].
  cbn [PixelDissolve.animate] in Hrun.
  destruct (negb (mounted frame)); [injection Hrun as <-; by left|].
  destruct (Nat.leb_spec totalPixels (PixelDissolve.currentPixel st)) as [Hdone | Hmore].
  - injection Hrun as <-. right. cbn. done.
  - cbv zeta in Hrun. apply IH in Hrun. exact Hrun.
Qed.

(** One animation frame. *)
Lemma animate_frame (high : list Byte.byte) (pixelIndices : list (option nat))
    (totalPixels fuel frame : nat) (st : PixelDissolve.Anim) :
  PixelDissolve.animate mounted (S fuel) totalPixels high pixelIndices frame st
  = if negb (mounted frame) then Some st
    else if (totalPixels <=? PixelDissolve.currentPixel st)%nat then
      Some (PixelDissolve.mkAnim (PixelDissolve.lowData st) high
              (PixelDissolve.currentPixel st) (S (PixelDissolve.completed st)))
    else
      let endPixel :=
        Nat.min (PixelDissolve.currentPixel st
                 + PixelDissolve.pixelsPerFrame totalPixels) totalPixels in
      let low :=
        foldl (PixelDissolve.reveal high pixelIndices) (PixelDissolve.lowData st)
              (seq (PixelDissolve.currentPixel st)
                   (endPixel - PixelDissolve.currentPixel st)) in
      PixelDissolve.animate mounted fuel totalPixels high pixelIndices (S frame)
        (PixelDissolve.mkAnim low low endPixel (PixelDissolve.completed st)).
Proof. reflexivity. Qed.

Hypothesis stays_mounted : forall n : nat, mounted n = true.

(** The animation, given [fuel] frames of which all but the last can
    draw [pixelsPerFrame] pixels each. *)
Lemma animate_completes_within (high : list Byte.byte)
    (pixelIndices : list (option nat)) (totalPixels fuel frame : nat)
    (st : PixelDissolve.Anim) :
  (PixelDissolve.currentPixel st <= totalPixels)%nat ->
  (totalPixels - PixelDissolve.currentPixel st
   <= fuel * PixelDissolve.pixelsPerFrame totalPixels)%nat ->
  PixelDissolve.animate mounted (S fuel) totalPixels high pixelIndices frame st
  = Some (PixelDissolve.mkAnim
            (foldl (PixelDissolve.reveal high pixelIndices) (PixelDissolve.lowData st)
               (seq (PixelDissolve.currentPixel st)
                  (totalPixels - PixelDissolve.currentPixel st)))
            high totalPixels (S (PixelDissolve.completed st))).
Proof.
  revert frame st. induction fuel as [|fuel IH]; intros frame st Hle Hfuel;
    rewrite animate_frame, stays_mounted; cbn [negb];
    destruct (Nat.leb_spec totalPixels (PixelDissolve.currentPixel st))
      as [Hdone | Hmore].
  - replace (totalPixels - PixelDissolve.currentPixel st)%nat with 0%nat by lia.
    cbn. do 2 f_equal. lia.
  - cbn in Hfuel. lia.
  - replace (totalPixels - PixelDissolve.currentPixel st)%nat with 0%nat by lia.
    cbn. do 2 f_equal. lia.
  - cbv zeta.
    set (c := PixelDissolve.currentPixel st) in *.
    set (ppf := PixelDissolve.pixelsPerFrame totalPixels) in *.
    set (e := Nat.min (c + ppf) totalPixels).
    assert (Hppf : (1 <= ppf)%nat) by (unfold ppf, PixelDissolve.pixelsPerFrame; lia).
    assert (He : (c < e <= totalPixels)%nat) by (unfold e; lia).
    rewrite Nat.mul_succ_l in Hfuel.
    rewrite IH; cbn [PixelDissolve.currentPixel PixelDissolve.lowData
                       PixelDissolve.completed]; [|lia|unfold e; lia].
    do 2 f_equal.
    replace (totalPixels - c)%nat with ((e - c) + (totalPixels - e))%nat by lia.
    rewrite seq_app, foldl_app. do 2 f_equal. lia.
Qed.

(** X25: whatever the size of the canvas, the reveal is over within 61
    animation frames (at most 60 that draw, and the one that reports):
    [onComplete] has then been called once and the working buffer and the
    canvas hold the high-detail data. *)
Theorem pixel_reveal_done_within_61_frames (width height : nat)
    (low high : list Byte.byte) :
  length low = (4 * (width * height))%nat ->
  length high = (4 * (width * height))%nat ->
  exists st : PixelDissolve.Anim,
    PixelDissolve.startAnimation random mounted 61 width height low high = Some st /\
    PixelDissolve.lowData st = high /\
    PixelDissolve.shown st = high /\
    PixelDissolve.completed st = 1%nat.
Proof.
  intros Hlow Hhigh. unfold PixelDissolve.startAnimation.
  rewrite animate_completes_within;
    cbn [PixelDissolve.currentPixel PixelDissolve.lowData PixelDissolve.completed].
  - rewrite Nat.sub_0_r, reveal_all_gives_high by done. eauto.
  - lia.
  - pose proof (sixty_frames_cover (width * height)). lia.
Qed.

End PixelRevealFrames.

Lemma pixel_reveal_done_within_61_frames_witness :
  exists st : PixelDissolve.Anim,
    PixelDissolve.startAnimation sampleRandom (fun _ => true) 61 16 8
      (repeat Byte.x00 512) (repeat Byte.xff 512) = Some st /\
    PixelDissolve.lowData st = repeat Byte.xff 512 /\
    PixelDissolve.shown st = repeat Byte.xff 512 /\
    PixelDissolve.completed st = 1%nat.
Proof.
  apply (pixel_reveal_done_within_61_frames sampleRandom (fun _ => true)
           sampleRandom_range (fun _ => eq_refl) 16 8
           (repeat Byte.x00 512) (repeat Byte.xff 512) eq_refl eq_refl).
Defined.

(** X26: however long the animation runs and whether or not the canvas
    stays mounted, [onComplete] is called at most once, and only after all
    pixels were processed and the high-detail data was put on the canvas; a
    frame that finds the canvas unmounted ends the run there, with nothing
    drawn and no call. *)
Theorem pixel_reveal_reports_at_most_once (mounted : nat -> bool)
    (high : list Byte.byte) (pixelIndices : list (option nat))
    (totalPixels fuel frame : nat) (st st' : PixelDissolve.Anim) :
  PixelDissolve.animate mounted fuel totalPixels high pixelIndices frame st = Some st' ->
  (PixelDissolve.completed st' <= S (PixelDissolve.completed st))%nat /\
  (PixelDissolve.completed st' = S (PixelDissolve.completed st) ->
   PixelDissolve.shown st' = high /\
   (totalPixels <= PixelDissolve.currentPixel st')%nat) /\
  (mounted frame = false -> st' = st).
Proof.
  intros Hrun.
  destruct (animate_reports_once mounted high pixelIndices totalPixels fuel frame
              st st' Hrun) as [Hsame | (Hone & Hshown & Hall)].
  - split; [lia|]. split; [lia|].
    intros Hun. destruct fuel; [done|]. cbn [PixelDissolve.animate] in Hrun.
    rewrite Hun in Hrun. cbn in Hrun. congruence.
  - split; [lia|]. split; [done|].
    intros Hun. destruct fuel; [done|]. cbn [PixelDissolve.animate] in Hrun.
    rewrite Hun in Hrun. cbn in Hrun. congruence.
Qed.

Lemma pixel_reveal_reports_at_most_once_witness :
  exists st' : PixelDissolve.Anim,
    PixelDissolve.animate (fun n => (n <? 1)%nat) 5 4 sampleHigh
      (PixelDissolve.shuffle sampleRandom 4) 0
      (PixelDissolve.mkAnim sampleLow sampleLow 0 0) = Some st' /\
    (PixelDissolve.completed st' <= 1)%nat /\
    PixelDissolve.completed st' = 0%nat.
Proof.
  eexists. split; [vm_compute; reflexivity|].
  split; [|reflexivity].
  apply (pixel_reveal_reports_at_most_once (fun n => (n <? 1)%nat) sampleHigh
           (PixelDissolve.shuffle sampleRandom 4) 4 5 0
           (PixelDissolve.mkAnim sampleLow sampleLow 0 0) _
           ltac:(vm_compute; reflexivity)).
Defined.

(** ** The selection animator *)

Lemma transitionEnds_called (n calls : nat) :
  SelectionAnimator.transitionEnds n true calls = (true, calls).
Proof. induction n as [|n IH]; [done|]. cbn. exact IH. Qed.

(** X27: however many transition-end events the animated element fires,
    a freshly mounted [SelectionAnimator] calls [onComplete] exactly once,
    on the first of them. *)
Theorem selectionAnimator_completes_once (n : nat) :
  SelectionAnimator.transitionEnds (S n) false 0 = (true, 1%nat).
Proof. cbn. apply transitionEnds_called. Qed.

(** ** Reset and the load it starts *)

(** X28: a click on Reset forgets the session at once (no job, no staged
    or displayed selection, no entry waiting, processing flag off) and
    starts a load: the application is in the LOADING state with an empty
    history, the cursor at -1 and the button row hidden, while the picture
    source of the old session is kept, so that a picture that was on display
    stays on display.  When a load settles, in whatever state [t] the
    component is by then, a fetched picture that decodes becomes the only
    step of the history, at cursor 0, in the LOADED state with the button row
    shown; a failure leaves the history, the cursor and the picture as they
    are and puts the application in the IDLE state.  Settling touches neither
    a job in flight nor a staged selection nor an entry waiting to be
    committed. *)
Theorem resetState_and_settled_load (env : Browser) (fetched : option Src)
    (s t : Home.State) :
  let r := Session.resetState s in
  let t' := Session.initialImageSettled env fetched t in
  (Home.appState r = LOADING /\
   Home.history r = [] /\ Home.historyIndex r = (-1)%Z /\
   Home.enhancementJob r = None /\ Home.stagedSelection r = None /\
   Home.displaySelection r = None /\ Home.newHistoryEntryData r = None /\
   Home.isProcessing r = false /\
   Session.toolbar r = false /\
   Home.finalImageSrc r = Home.finalImageSrc s /\
   Session.imageDisplayed r = truthy (Home.finalImageSrc s)) /\
  (Home.enhancementJob t' = Home.enhancementJob t /\
   Home.stagedSelection t' = Home.stagedSelection t /\
   Home.newHistoryEntryData t' = Home.newHistoryEntryData t) /\
  ((exists u : Src,
      fetched = Some u /\ is_Some (decode env u) /\
      Home.appState t' = LOADED /\
      Home.history t' = [mkStep u None None] /\
      Home.historyIndex t' = 0%Z /\
      Home.finalImageSrc t' = Some u /\
      Session.toolbar t' = true)
   \/
   ((fetched = None \/ exists u : Src, fetched = Some u /\ decode env u = None) /\
    Home.appState t' = IDLE /\
    Home.history t' = Home.history t /\
    Home.historyIndex t' = Home.historyIndex t /\
    Home.finalImageSrc t' = Home.finalImageSrc t /\
    Session.toolbar t' = false)).
Proof.
  cbv zeta. split; [|split].
  - unfold Session.resetState, Session.loadInitialImage, Session.imageDisplayed.
    cbn. repeat split. by rewrite andb_true_r.
  - unfold Session.initialImageSettled.
    destruct fetched as [u|]; [destruct (loadImage env u)|]; done.
  - unfold Session.initialImageSettled, loadImage.
    destruct fetched as [u|].
    + destruct (decode env u) as [[nw nh]|] eqn:Hdec.
      * left. exists u. rewrite Hdec. cbn. repeat split; eauto.
      * right. split; [right; by exists u|]. cbn. done.
    + right. split; [by left|]. cbn. done.
Qed.
